(** * The LLM-orchestration core of the philosophical-concepts service

    A shallow embedding of [src/services/claude.service.ts] and
    [src/services/prompt-template.service.ts]: the prompt renderer, the
    request / cache / log pipeline, the template store and the family of
    response parsers, followed by the properties established about them.

    JavaScript strings are sequences of UTF-16 code units ([list N]); the
    regular expressions of the source are values of [JS.regex], run by a
    backtracking matcher that follows the continuation-passing semantics of
    the ECMAScript specification (priorities of alternatives, greedy and lazy
    quantifiers, captures, lookahead, the [i], [m], [s] and [g] flags). *)

From Stdlib Require Import NArith ZArith QArith List String Ascii Bool Lia DecimalString.
From stdpp Require Import base option list gmap.

Set Default Proof Using "Type".
Set Warnings "-register-all".
Local Open Scope N_scope.

(* ================================================================== *)
(** * Part I. The JavaScript string and regular-expression primitives  *)
(* ================================================================== *)

Module JS.

(** ** Strings *)

Abbreviation jsstring := (list N).

(** Decoding of the UTF-8 bytes of a literal into code points. *)
Fixpoint utf8_decode (bs : list N) : list N :=
  match bs with
  | [] => []
  | b0 :: t0 =>
      if b0 <? 128 then b0 :: utf8_decode t0
      else if b0 <? 224 then
        match t0 with
        | b1 :: t1 => ((b0 mod 32) * 64 + b1 mod 64) :: utf8_decode t1
        | _ => []
        end
      else if b0 <? 240 then
        match t0 with
        | b1 :: b2 :: t2 =>
            ((b0 mod 16) * 4096 + (b1 mod 64) * 64 + b2 mod 64) :: utf8_decode t2
        | _ => []
        end
      else
        match t0 with
        | b1 :: b2 :: b3 :: t3 =>
            ((b0 mod 8) * 262144 + (b1 mod 64) * 4096 + (b2 mod 64) * 64 + b3 mod 64)
              :: utf8_decode t3
        | _ => []
        end
  end.

(** One code point as one or two UTF-16 code units. *)
Definition utf16_encode (cp : N) : list N :=
  if cp <? 65536 then [cp]
  else [55296 + (cp - 65536) / 1024; 56320 + (cp - 65536) mod 1024].

(** [js "text"] is the JavaScript string written ["text"] in the source. *)
Definition js (s : string) : jsstring :=
  flat_map utf16_encode (utf8_decode (List.map N_of_ascii (list_ascii_of_string s))).

(** The line feed, written [\n] in the source. *)
Definition nl : jsstring := [10].

(** ** Character classes *)

Definition is_digit (c : N) : bool := (48 <=? c) && (c <=? 57).

(** LineTerminator of the language specification. *)
Definition is_line_terminator (c : N) : bool :=
  (c =? 10) || (c =? 13) || (c =? 8232) || (c =? 8233).

(** WhiteSpace of the language specification. *)
Definition is_white_space (c : N) : bool :=
  (c =? 9) || (c =? 11) || (c =? 12) || (c =? 32) || (c =? 160) || (c =? 5760)
  || ((8192 <=? c) && (c <=? 8202)) || (c =? 8239) || (c =? 8287)
  || (c =? 12288) || (c =? 65279).

(** The class [\s], also what [trim] strips. *)
Definition is_space (c : N) : bool := is_white_space c || is_line_terminator c.

(** Case mappings, for the Basic Latin, Latin-1 and Cyrillic letters (the
    alphabets of the prompts and responses of this service); other code
    units are left unchanged. *)
Definition lower_unit (c : N) : N :=
  if (65 <=? c) && (c <=? 90) then c + 32
  else if (192 <=? c) && (c <=? 222) && negb (c =? 215) then c + 32
  else if (1040 <=? c) && (c <=? 1071) then c + 32
  else if (1024 <=? c) && (c <=? 1039) then c + 80
  else c.

Definition upper_unit (c : N) : N :=
  if (97 <=? c) && (c <=? 122) then c - 32
  else if (224 <=? c) && (c <=? 254) && negb (c =? 247) then c - 32
  else if (1072 <=? c) && (c <=? 1103) then c - 32
  else if (1104 <=? c) && (c <=? 1119) then c - 80
  else c.

(** [String.prototype.toLowerCase]. *)
Definition toLowerCase (s : jsstring) : jsstring := List.map lower_unit s.

(** [String.prototype.trim]. *)
Fixpoint trimStart (s : jsstring) : jsstring :=
  match s with
  | c :: t => if is_space c then trimStart t else s
  | [] => []
  end.

Definition trimEnd (s : jsstring) : jsstring := rev (trimStart (rev s)).

Definition trim (s : jsstring) : jsstring := trimEnd (trimStart s).

Fixpoint str_eqb (a b : jsstring) : bool :=
  match a, b with
  | [], [] => true
  | x :: a', y :: b' => (x =? y) && str_eqb a' b'
  | _, _ => false
  end.

(** [starts_with p s]: [p] is a prefix of [s]. *)
Fixpoint starts_with (p s : jsstring) : bool :=
  match p, s with
  | [], _ => true
  | x :: p', y :: s' => (x =? y) && starts_with p' s'
  | _ :: _, [] => false
  end.

(** [String.prototype.includes]. *)
Fixpoint includes (s sub : jsstring) : bool :=
  starts_with sub s
  || match s with
     | [] => false
     | _ :: t => includes t sub
     end.

(** [String.prototype.split] with a non-empty string separator. *)
Fixpoint split_str_go (sep : jsstring) (skip : nat) (piece : jsstring) (s : jsstring)
  : list jsstring :=
  match s with
  | [] => [rev piece]
  | c :: t =>
      match skip with
      | S k => split_str_go sep k piece t
      | O =>
          if starts_with sep s
          then rev piece :: split_str_go sep (Nat.pred (length sep)) [] t
          else split_str_go sep O (c :: piece) t
      end
  end.

Definition split_str (s sep : jsstring) : list jsstring := split_str_go sep O [] s.

(** [Array.prototype.join]. *)
Fixpoint join (sep : jsstring) (l : list jsstring) : jsstring :=
  match l with
  | [] => []
  | [x] => x
  | x :: t => x ++ sep ++ join sep t
  end.

(** The decimal numeral of an array index, as a template literal prints it. *)
Definition decimal (n : nat) : jsstring :=
  List.map N_of_ascii (list_ascii_of_string (NilZero.string_of_uint (Nat.to_uint n))).

(** The value of a numeral [digits] or [digits.digits].  [parseFloat] gives
    the floating-point number nearest to it; the model keeps the rational. *)
Definition digits_value (s : jsstring) : N :=
  fold_left (fun acc c => acc * 10 + (c - 48)) s 0.

Definition parseFloat (s : jsstring) : Q :=
  match split_str s [46] with
  | [whole] => Qred (Z.of_N (digits_value whole) # 1)
  | whole :: frac :: _ =>
      Qred (Z.of_N (digits_value (whole ++ frac))
            # Z.to_pos (Z.of_N (10 ^ N.of_nat (length frac))))
  | [] => 0%Q
  end.

(** ** Regular expressions *)

Inductive cclass : Type :=
| CDigit      (* \d *)
| CSpace      (* \s *)
| CAny        (* [\s\S] *)
| CDot.       (* .  *)

Inductive regex : Type :=
| REmpty
| RChar (c : N)
| RClass (cl : cclass)
| RSeq (r1 r2 : regex)
| RAlt (r1 r2 : regex)
| RQuant (min : nat) (max : option nat) (greedy : bool) (r : regex)
| RGroup (n : nat) (r : regex)         (* the n-th capturing parenthesis *)
| RLook (r : regex)                    (* (?=r) *)
| RBol                                 (* ^ *)
| REol.                                (* $ *)

Record flags : Type := mkFlags {
  ignoreCase : bool;   (* i *)
  multiline : bool;    (* m *)
  dotAll : bool        (* s *)
}.

Definition no_flags : flags := mkFlags false false false.
Definition flags_i : flags := mkFlags true false false.
Definition flags_s : flags := mkFlags false false true.
Definition flags_ms : flags := mkFlags false true true.

(** The state of a match in progress: the position reached, the code unit
    before it, the input that remains and the captures so far. *)
Record mstate : Type := mkState {
  pos : nat;
  prev : option N;
  rest : jsstring;
  caps : list (option jsstring)
}.

Inductive mresult : Type :=
| Failure
| Matched (y : mstate)
| Exhausted.

Definition advance (x : mstate) : mstate :=
  match rest x with
  | [] => x
  | c :: t => mkState (S (pos x)) (Some c) t (caps x)
  end.

(** Canonicalize of the specification (without the [u] flag). *)
Definition canonicalize (fl : flags) (c : N) : N :=
  if ignoreCase fl then upper_unit c else c.

Definition class_mem (fl : flags) (cl : cclass) (c : N) : bool :=
  match cl with
  | CDigit => is_digit c
  | CSpace => is_space c
  | CAny => true
  | CDot => dotAll fl || negb (is_line_terminator c)
  end.

Definition at_bol (fl : flags) (x : mstate) : bool :=
  match prev x with
  | None => true
  | Some c => multiline fl && is_line_terminator c
  end.

Definition at_eol (fl : flags) (x : mstate) : bool :=
  match rest x with
  | [] => true
  | c :: _ => multiline fl && is_line_terminator c
  end.

(** The capturing parentheses inside a pattern. *)
Fixpoint parens (r : regex) : list nat :=
  match r with
  | RSeq r1 r2 | RAlt r1 r2 => parens r1 ++ parens r2
  | RQuant _ _ _ r' | RLook r' => parens r'
  | RGroup n r' => n :: parens r'
  | _ => []
  end.

Definition clear_caps (ps : list nat) (x : mstate) : mstate :=
  mkState (pos x) (prev x) (rest x)
          (fold_right (fun n cs => <[n := None]> cs) (caps x) ps).

Definition or_else (z : mresult) (alt : unit -> mresult) : mresult :=
  match z with
  | Failure => alt tt
  | _ => z
  end.

Definition pred_max (max : option nat) : option nat :=
  match max with
  | Some n => Some (Nat.pred n)
  | None => None
  end.

(** RepeatMatcher of the specification.  An iteration that consumes nothing
    once the minimum is reached is rejected, so [min] plus the length of the
    remaining input bounds the number of iterations; [fuel] is that bound. *)
Fixpoint repeat_matcher (m : mstate -> (mstate -> mresult) -> mresult)
    (ps : list nat) (greedy : bool) (fuel : nat) (min : nat) (max : option nat)
    (x : mstate) (c : mstate -> mresult) : mresult :=
  match fuel with
  | O => Exhausted
  | S fuel' =>
      match max with
      | Some O => c x
      | _ =>
          let d := fun y : mstate =>
            if Nat.eqb min 0 && Nat.eqb (pos y) (pos x) then Failure
            else repeat_matcher m ps greedy fuel' (Nat.pred min) (pred_max max) y c in
          let xr := clear_caps ps x in
          if negb (Nat.eqb min 0) then m xr d
          else if greedy then or_else (m xr d) (fun _ => c x)
          else or_else (c x) (fun _ => m xr d)
      end
  end.

(** The matcher of a pattern: [rmatch fl r x c] tries [r] at [x] and hands
    every way of matching, in priority order, to the continuation [c]. *)
Fixpoint rmatch (fl : flags) (r : regex) (x : mstate) (c : mstate -> mresult)
  : mresult :=
  match r with
  | REmpty => c x
  | RChar ch =>
      match rest x with
      | a :: _ => if canonicalize fl a =? canonicalize fl ch then c (advance x) else Failure
      | [] => Failure
      end
  | RClass cl =>
      match rest x with
      | a :: _ => if class_mem fl cl a then c (advance x) else Failure
      | [] => Failure
      end
  | RSeq r1 r2 => rmatch fl r1 x (fun y => rmatch fl r2 y c)
  | RAlt r1 r2 => or_else (rmatch fl r1 x c) (fun _ => rmatch fl r2 x c)
  | RQuant min max greedy r' =>
      repeat_matcher (rmatch fl r') (parens r') greedy
                     (S (min + length (rest x))) min max x c
  | RGroup n r' =>
      rmatch fl r' x
        (fun y => c (mkState (pos y) (prev y) (rest y)
                       (<[n := Some (take (pos y - pos x) (rest x))]> (caps y))))
  | RLook r' =>
      match rmatch fl r' x Matched with
      | Matched y => c (mkState (pos x) (prev x) (rest x) (caps y))
      | Failure => Failure
      | Exhausted => Exhausted
      end
  | RBol => if at_bol fl x then c x else Failure
  | REol => if at_eol fl x then c x else Failure
  end.

(** Pattern-building shorthands. *)
Fixpoint lit (s : jsstring) : regex :=
  match s with
  | [] => REmpty
  | [c] => RChar c
  | c :: t => RSeq (RChar c) (lit t)
  end.

Fixpoint seq (rs : list regex) : regex :=
  match rs with
  | [] => REmpty
  | [r] => r
  | r :: t => RSeq r (seq t)
  end.

Definition plus (r : regex) : regex := RQuant 1 None true r.
Definition star (r : regex) : regex := RQuant 0 None true r.
Definition lazy_plus (r : regex) : regex := RQuant 1 None false r.
Definition lazy_star (r : regex) : regex := RQuant 0 None false r.
Definition opt (r : regex) : regex := RQuant 0 (Some 1%nat) true r.

(** ** Running a pattern over a string *)

(** What [exec] returns on success: where the match starts and ends, and
    the captures, the whole match at index 0. *)
Record rmatch_array : Type := mkMatch {
  m_index : nat;
  m_end : nat;
  m_groups : list (option jsstring)
}.

Definition group (m : rmatch_array) (i : nat) : option jsstring :=
  match m_groups m !! i with
  | Some g => g
  | None => None
  end.

Inductive exec_result : Type :=
| NoMatch
| Found (m : rmatch_array)
| OutOfFuel.

(** One attempt at one position (a sticky attempt). *)
Definition match_at (fl : flags) (r : regex) (ncaps : nat)
    (p : nat) (pv : option N) (s : jsstring) : exec_result :=
  match rmatch fl r (mkState p pv s (replicate (S ncaps) None)) Matched with
  | Matched y =>
      Found (mkMatch p (pos y) (<[O := Some (take (pos y - p) s)]> (caps y)))
  | Failure => NoMatch
  | Exhausted => OutOfFuel
  end.

(** RegExpBuiltinExec: the first position from [p] on at which the pattern
    matches. *)
Fixpoint search (fl : flags) (r : regex) (ncaps : nat)
    (p : nat) (pv : option N) (s : jsstring) : exec_result :=
  match match_at fl r ncaps p pv s with
  | NoMatch =>
      match s with
      | [] => NoMatch
      | c :: t => search fl r ncaps (S p) (Some c) t
      end
  | z => z
  end.

(** [str.match(re)] and [re.exec(str)] for a pattern without the [g] flag. *)
Definition exec (fl : flags) (r : regex) (ncaps : nat) (s : jsstring) : exec_result :=
  search fl r ncaps O None s.

(** The loop [while ((m = re.exec(str)) !== null)] over a pattern with the
    [g] flag: each search starts where the previous match ended.  A match
    that consumes nothing leaves [lastIndex] in place, so the loop of the
    source never ends; together with an exhausted matcher that is [None].
    [skip] counts the code units left to step over inside the last match. *)
Fixpoint exec_all_go (fl : flags) (r : regex) (ncaps : nat)
    (skip : nat) (p : nat) (pv : option N) (s : jsstring) : option (list rmatch_array) :=
  match skip with
  | S k =>
      match s with
      | [] => Some []
      | c :: t => exec_all_go fl r ncaps k (S p) (Some c) t
      end
  | O =>
      match match_at fl r ncaps p pv s with
      | OutOfFuel => None
      | NoMatch =>
          match s with
          | [] => Some []
          | c :: t => exec_all_go fl r ncaps O (S p) (Some c) t
          end
      | Found m =>
          if Nat.eqb (m_end m) p then None
          else
            match s with
            | [] => Some [m]
            | c :: t =>
                option_map (cons m)
                  (exec_all_go fl r ncaps (m_end m - p - 1) (S p) (Some c) t)
            end
      end
  end.

Definition exec_all (fl : flags) (r : regex) (ncaps : nat) (s : jsstring)
  : option (list rmatch_array) :=
  exec_all_go fl r ncaps O O None s.

(** [str.split(re)] for a pattern without capturing parentheses.  [piece]
    holds, reversed, the code units since the last separator. *)
Fixpoint split_go (fl : flags) (r : regex)
    (skip : nat) (piece : jsstring) (p : nat) (pv : option N) (s : jsstring)
  : option (list jsstring) :=
  match s with
  | [] => Some [rev piece]
  | c :: t =>
      match skip with
      | S k => split_go fl r k piece (S p) (Some c) t
      | O =>
          match match_at fl r O p pv s with
          | OutOfFuel => None
          | NoMatch => split_go fl r O (c :: piece) (S p) (Some c) t
          | Found m =>
              if Nat.eqb (m_end m) p then
                match piece with
                | [] => split_go fl r O [c] (S p) (Some c) t
                | _ => option_map (cons (rev piece)) (split_go fl r O [c] (S p) (Some c) t)
                end
              else
                option_map (cons (rev piece))
                  (split_go fl r (m_end m - p - 1) [] (S p) (Some c) t)
          end
      end
  end.

Definition split (fl : flags) (r : regex) (s : jsstring) : option (list jsstring) :=
  match s with
  | [] =>
      match match_at fl r O O None [] with
      | Found _ => Some []
      | NoMatch => Some [[]]
      | OutOfFuel => None
      end
  | _ => split_go fl r O [] O None s
  end.

(** GetSubstitution: the expansion of a replacement text, in which [$$],
    [$&], [$`], [$'] and [$n] stand for a dollar sign, the match, the text
    before it, the text after it and the n-th capture. *)
Definition capture_text (groups : list (option jsstring)) (i : N) : option jsstring :=
  if (1 <=? i) && (N.to_nat i <? length groups)%nat
  then Some (default [] (default None (groups !! N.to_nat i)))
  else None.

Fixpoint get_substitution (matched before after : jsstring)
    (groups : list (option jsstring)) (t : jsstring) : jsstring :=
  match t with
  | [] => []
  | c :: t1 =>
      if negb (c =? 36) then c :: get_substitution matched before after groups t1
      else
        match t1 with
        | [] => [36]
        | d :: t2 =>
            if d =? 36 then 36 :: get_substitution matched before after groups t2
            else if d =? 38 then matched ++ get_substitution matched before after groups t2
            else if d =? 96 then before ++ get_substitution matched before after groups t2
            else if d =? 39 then after ++ get_substitution matched before after groups t2
            else if is_digit d then
              let one := capture_text groups (d - 48) in
              match t2 with
              | d2 :: t3 =>
                  match (if is_digit d2
                         then capture_text groups ((d - 48) * 10 + (d2 - 48))
                         else None), one with
                  | Some g, _ => g ++ get_substitution matched before after groups t3
                  | None, Some g => g ++ get_substitution matched before after groups t2
                  | None, None => 36 :: get_substitution matched before after groups t1
                  end
              | [] =>
                  match one with
                  | Some g => g
                  | None => 36 :: get_substitution matched before after groups t1
                  end
              end
            else 36 :: get_substitution matched before after groups t1
        end
  end.

(** [str.replace(re, replacement)] for a pattern with the [g] flag and a
    replacement that is a string.  [done] holds, reversed, the input already
    passed. *)
Fixpoint replace_go (fl : flags) (r : regex) (ncaps : nat) (repl : jsstring)
    (skip : nat) (done : jsstring) (p : nat) (pv : option N) (s : jsstring)
  : option jsstring :=
  match skip with
  | S k =>
      match s with
      | [] => Some []
      | c :: t => replace_go fl r ncaps repl k (c :: done) (S p) (Some c) t
      end
  | O =>
      match match_at fl r ncaps p pv s with
      | OutOfFuel => None
      | NoMatch =>
          match s with
          | [] => Some []
          | c :: t =>
              option_map (cons c)
                (replace_go fl r ncaps repl O (c :: done) (S p) (Some c) t)
          end
      | Found m =>
          let len := (m_end m - p)%nat in
          let sub := get_substitution (take len s) (rev done) (drop len s)
                                      (m_groups m) repl in
          match s with
          | [] => Some sub
          | c :: t =>
              if Nat.eqb len 0
              then option_map (fun z => sub ++ c :: z)
                     (replace_go fl r ncaps repl O (c :: done) (S p) (Some c) t)
              else option_map (app sub)
                     (replace_go fl r ncaps repl (len - 1) (c :: done) (S p) (Some c) t)
          end
      end
  end.

Definition replace_all (fl : flags) (r : regex) (ncaps : nat)
    (s repl : jsstring) : option jsstring :=
  replace_go fl r ncaps repl O [] O None s.

End JS.

(* ================================================================== *)
(** * Part II. The data model ([src/types])                            *)
(* ================================================================== *)

Import JS.

(** What a call of the service does: it returns, it throws, or the model
    gives no result (a loop of the source that does not terminate, or a
    matcher whose fuel ran out). *)
Inductive error : Type :=
| TypeError (detail : string)
| ReferenceError (detail : string)
| Failed (operation : string) (cause : error)
| ErrorMsg (message : string).

Inductive outcome (A : Type) : Type :=
| Returns (a : A)
| Throws (e : error)
| NoResult.
Arguments Returns {A} a.
Arguments Throws {A} e.
Arguments NoResult {A}.

#[global] Instance outcome_ret : MRet outcome := fun A a => Returns a.

#[global] Instance outcome_bind : MBind outcome := fun A B f o =>
  match o with
  | Returns a => f a
  | Throws e => Throws e
  | NoResult => NoResult
  end.

Definition of_option {A : Type} (o : option A) : outcome A :=
  match o with
  | Some a => Returns a
  | None => NoResult
  end.

(** [try { body } catch (error) { throw new Error(`Failed to ...: ${error}`) }] *)
Definition try_catch {A : Type} (operation : string) (body : outcome A) : outcome A :=
  match body with
  | Throws e => Throws (Failed operation e)
  | o => o
  end.

Record CategoryAttribute : Type := mkAttribute {
  attribute_type : jsstring;
  attribute_value : Q;
  attribute_justification : jsstring
}.

Record Category : Type := mkCategory {
  category_id : jsstring;
  category_name : jsstring;
  category_definition : jsstring;
  category_source : jsstring;
  category_attributes : list CategoryAttribute
}.

Record Connection : Type := mkConnection {
  connection_id : jsstring;
  source_category_id : jsstring;
  target_category_id : jsstring;
  connection_type : jsstring;
  direction : jsstring;
  connection_description : jsstring;
  source_category : option Category;
  target_category : option Category;
  connection_attributes : list CategoryAttribute
}.

Record ConceptGraph : Type := mkGraph {
  concept_id : jsstring;
  concept_name : jsstring;
  concept_description : jsstring;
  categories : list Category;
  connections : list Connection
}.

Record ThesisGenerationParams : Type := mkThesisParams {
  tp_count : N;
  tp_type : jsstring;
  tp_style : option jsstring;
  tp_useWeights : bool;
  tp_focus_categories : option (list jsstring)
}.

Record DerivedFrom : Type := mkDerived {
  df_categories : list jsstring;
  df_connections : list jsstring
}.

(** A generated thesis; the two timestamps of the source are left out. *)
Record Thesis : Type := mkThesis {
  thesis_id : jsstring;
  thesis_concept_id : jsstring;
  thesis_text : jsstring;
  thesis_type : jsstring;
  derived_from : DerivedFrom;
  generation_parameters : ThesisGenerationParams;
  used_weights : bool;
  thesis_style : option jsstring
}.

Inductive Severity : Type := low | medium | high.

Inductive SuggestionType : Type :=
  add_category | add_connection | modify_category | modify_connection.

Inductive IssueType : Type := contradiction | missing_element.

Record ValidationIssue : Type := mkIssue {
  issue_type : IssueType;
  issue_description : jsstring;
  severity : Severity
}.

Record ValidationSuggestion : Type := mkSuggestion {
  suggestion_type : SuggestionType;
  suggestion_description : jsstring
}.

Record ValidationResult : Type := mkValidation {
  general_analysis : jsstring;
  contradictions : list ValidationIssue;
  missing_elements : list ValidationIssue;
  improvement_suggestions : list ValidationSuggestion
}.

Record EnrichmentResult : Type := mkEnrichment {
  extended_description : jsstring;
  alternative_interpretations : list jsstring;
  historical_analogs : list jsstring;
  related_concepts : list jsstring
}.

(** The result of [developThesis]. *)
Record ThesisDevelopment : Type := mkDevelopment {
  dev_text : jsstring;
  dev_justification : jsstring;
  dev_counterarguments : jsstring;
  dev_historical_analogs : jsstring;
  dev_practical_implications : jsstring
}.

Inductive ElementType : Type := element_category | element_connection.

Record CompatibilityElement : Type := mkElement {
  element_type : ElementType;
  element_id : jsstring;
  element_name : jsstring;
  element_description : jsstring;
  compatibility_explanation : jsstring
}.

Record SynthesisStrategy : Type := mkStrategy {
  strategy_name : jsstring;
  strategy_description : jsstring;
  benefits : list jsstring;
  limitations : list jsstring;
  recommended : bool
}.

Record CompatibilityAnalysis : Type := mkCompatibility {
  fully_compatible : list CompatibilityElement;
  potentially_compatible : list CompatibilityElement;
  incompatible : list CompatibilityElement;
  synthesis_strategies : list SynthesisStrategy
}.

(** A concept; its two timestamps are left out. *)
Record Concept : Type := mkConcept {
  c_concept_id : jsstring;
  c_user_id : jsstring;
  c_name : jsstring;
  c_description : jsstring;
  c_is_synthesis : bool;
  c_parent_concepts : list jsstring;
  c_synthesis_method : option jsstring;
  c_focus_area : option jsstring
}.

Record SynthesisParams : Type := mkSynthesisParams {
  sp_innovation_level : option jsstring;
  sp_abstraction_level : option jsstring;
  sp_historical_context : option jsstring;
  sp_target_application : option jsstring;
  sp_focus_area : option jsstring;
  sp_use_weights : bool
}.

Record SynthesisMeta : Type := mkSynthesisMeta {
  synthesis_id : jsstring;
  result_concept_id : jsstring;
  source_concept_ids : list jsstring;
  meta_synthesis_method : jsstring;
  meta_innovation_level : option jsstring;
  meta_abstraction_level : option jsstring;
  meta_historical_context : option jsstring;
  meta_target_application : option jsstring
}.

(** The result of [synthesizeConcepts]; both origin mappings are the empty
    object there. *)
Record SynthesisResult : Type := mkSynthesisResult {
  sr_concept : Concept;
  sr_graph : ConceptGraph;
  sr_synthesis_meta : SynthesisMeta;
  sr_category_mapping : list (jsstring * jsstring);
  sr_connection_mapping : list (jsstring * jsstring)
}.

Record InternalConsistency : Type := mkConsistency {
  ic_score : Q;
  ic_analysis : jsstring;
  ic_issues : option (list jsstring)
}.

Record PhilosophicalNovelty : Type := mkNovelty {
  pn_score : Q;
  pn_analysis : jsstring;
  pn_novel_elements : option (list jsstring)
}.

Record PreservationOfValue : Type := mkPreservation {
  pv_score : Q;
  pv_analysis : jsstring;
  pv_preserved_elements : option (list jsstring);
  pv_lost_elements : option (list jsstring)
}.

Record ContradictionResolution : Type := mkResolution {
  cr_score : Q;
  cr_analysis : jsstring;
  cr_resolved_contradictions : option (list jsstring);
  cr_remaining_contradictions : option (list jsstring)
}.

Record PotentialIssue : Type := mkPotentialIssue {
  pi_severity : Severity;
  pi_issue : jsstring;
  pi_potential_solution : option jsstring
}.

Record CriticalAnalysis : Type := mkCritical {
  internal_consistency : InternalConsistency;
  philosophical_novelty : PhilosophicalNovelty;
  preservation_of_value : PreservationOfValue;
  contradiction_resolution : ContradictionResolution;
  potential_issues : list PotentialIssue
}.

(** The result of the operations that hand the response back as it is. *)
Record TextResult : Type := mkText { text : jsstring }.

(* ================================================================== *)
(** * Part III. The response parsers ([claude.service.ts])            *)
(* ================================================================== *)

Module Parsers.

Definition digit : regex := RClass CDigit.
Definition space : regex := RClass CSpace.
Definition any : regex := RClass CAny.
Definition dot : regex := RClass CDot.
Definition ch (a : ascii) : regex := RChar (N_of_ascii a).

(** A capture that took part in the match, or the empty string: the
    idiom [match[i] ? match[i].trim() : ''] of the source. *)
Definition trimmed_or_empty (m : rmatch_array) (i : nat) : jsstring :=
  match group m i with
  | Some g => trim g
  | None => []
  end.

(** ** generateTheses *)

(** [/^\d+\.\s+(.+?)(?:\n\s+-\s+Источник:\s+(.+?))?(?:\n\s+-\s+Обоснование:\s+(.+?))?(?=\n\d+\.|$)/gms] *)
Definition thesisRegex : regex :=
  seq [ RBol; plus digit; ch "."; plus space;
        RGroup 1 (lazy_plus dot);
        opt (seq [ lit nl; plus space; ch "-"; plus space;
                   lit (js "Источник:"); plus space; RGroup 2 (lazy_plus dot) ]);
        opt (seq [ lit nl; plus space; ch "-"; plus space;
                   lit (js "Обоснование:"); plus space; RGroup 3 (lazy_plus dot) ]);
        RLook (RAlt (seq [ lit nl; plus digit; ch "." ]) REol) ].

(** [/,\s*/] *)
Definition commaRegex : regex := seq [ ch ","; star space ].

(** [conceptGraph.categories.find(c => c.name.toLowerCase() === name.toLowerCase())] *)
Definition find_category_ci (cats : list Category) (name : jsstring) : option Category :=
  List.find (fun c => str_eqb (toLowerCase (category_name c)) (toLowerCase name)) cats.

(** The identifiers of the categories named in a source line; a name that
    matches no category is dropped. *)
Definition resolve_sources (g : ConceptGraph) (names : list jsstring) : list jsstring :=
  omap (fun name => option_map category_id (find_category_ci (categories g) name)) names.

Definition thesis_of_match (g : ConceptGraph) (parameters : ThesisGenerationParams)
    (m : rmatch_array) : outcome Thesis :=
  let thesisText := trimmed_or_empty m 1 in
  let sourcesText := trimmed_or_empty m 2 in
  names ← of_option (split no_flags commaRegex sourcesText);
  let cats := resolve_sources g names in
  let conns : list jsstring := [] in
  Returns (mkThesis [] (concept_id g) thesisText (tp_type parameters)
                    (mkDerived cats conns) parameters
                    (tp_useWeights parameters) (tp_style parameters)).

Fixpoint collect {A B : Type} (f : A -> outcome B) (l : list A) : outcome (list B) :=
  match l with
  | [] => Returns []
  | a :: t => b ← f a; bs ← collect f t; Returns (b :: bs)
  end.

(** The parsing half of [generateTheses]: from the response of the model
    to the list of theses. *)
Definition generateTheses_parse (g : ConceptGraph) (parameters : ThesisGenerationParams)
    (response : jsstring) : outcome (list Thesis) :=
  try_catch "Failed to generate theses"
    (ms ← of_option (exec_all flags_ms thesisRegex 3 response);
     collect (thesis_of_match g parameters) ms).

(** ** validateGraph *)

(** [/\d+\.\s+/] *)
Definition sectionSplitRegex : regex := seq [ plus digit; ch "."; plus space ].

(** [/\n-\s+/] *)
Definition bulletRegex : regex := seq [ lit nl; ch "-"; plus space ].

(** [sections[i].trim()]: reading past the end of the array gives
    [undefined], and calling [trim] on it throws. *)
Definition section_trim (sections : list jsstring) (i : nat) : outcome jsstring :=
  match sections !! i with
  | Some text => Returns (trim text)
  | None => Throws (TypeError "Cannot read properties of undefined (reading 'trim')")
  end.

(** [text.split(/\n-\s+/).slice(1)] *)
Definition bullets_raw (text : jsstring) : outcome (list jsstring) :=
  pieces ← of_option (split no_flags bulletRegex text);
  Returns (drop 1 pieces).

Definition any_includes (text : jsstring) (words : list jsstring) : bool :=
  existsb (fun word => includes text word) words.

Definition determineSeverity (text : jsstring) : Severity :=
  let lowKeywords := [js "minor"; js "slight"; js "незначительный"; js "небольшой"] in
  let highKeywords :=
    [js "critical"; js "severe"; js "major"; js "критический"; js "серьезный"] in
  let textLower := toLowerCase text in
  if any_includes textLower highKeywords then high
  else if any_includes textLower lowKeywords then low
  else medium.

Definition determineSuggestionType (text : jsstring) : SuggestionType :=
  if includes (toLowerCase text) (js "добавить категорию")
     || includes (toLowerCase text) (js "add category") then add_category
  else if includes (toLowerCase text) (js "добавить связь")
          || includes (toLowerCase text) (js "add connection") then add_connection
  else if includes (toLowerCase text) (js "изменить категорию")
          || includes (toLowerCase text) (js "modify category") then modify_category
  else modify_connection.

Definition issues_of (kind : IssueType) (text : jsstring) : outcome (list ValidationIssue) :=
  items ← bullets_raw text;
  Returns (List.map (fun item => mkIssue kind (trim item) (determineSeverity item)) items).

(** The parsing half of [validateGraph]. *)
Definition validateGraph_parse (response : jsstring) : outcome ValidationResult :=
  try_catch "Failed to validate graph"
    (sections ← of_option (split no_flags sectionSplitRegex response);
     if (4 <=? length sections)%nat then
       general ← section_trim sections 1;
       contradictionsText ← section_trim sections 2;
       contradictions ← issues_of contradiction contradictionsText;
       missingText ← section_trim sections 3;
       missing ← issues_of missing_element missingText;
       suggestionsText ← section_trim sections 4;
       items ← bullets_raw suggestionsText;
       let suggestions :=
         List.map (fun item => mkSuggestion (determineSuggestionType item) (trim item)) items in
       Returns (mkValidation general contradictions missing suggestions)
     else
       Returns (mkValidation response [] [] [])).

(** ** enrichCategory, enrichConnection, developThesis *)

(** [/heading\s+([\s\S]*?)(?=stop|$)/i], the shape of every section
    pattern of the source. *)
Definition section_until (heading stop : jsstring) : regex :=
  seq [ lit heading; plus space; RGroup 1 (lazy_star any);
        RLook (RAlt (lit stop) REol) ].

(** [/## heading\s+([\s\S]*?)(?=##|$)/i] *)
Definition headingRegex (heading : jsstring) : regex :=
  section_until (js "## " ++ heading) (js "##").

(** [response.match(re)], reduced to the first capture. *)
Definition match1 (fl : flags) (r : regex) (ncaps : nat) (s : jsstring)
  : outcome (option jsstring) :=
  match exec fl r ncaps s with
  | Found m => Returns (Some (default [] (group m 1)))
  | NoMatch => Returns None
  | OutOfFuel => NoResult
  end.

(** [text.split(/\n-\s+/).slice(1).map(t => t.trim()).filter(t => t.length > 0)] *)
Definition bullets (text : jsstring) : outcome (list jsstring) :=
  items ← bullets_raw text;
  Returns (List.filter (fun t => negb (Nat.eqb (length t) 0)) (List.map trim items)).

(** A list-valued section: its bullets when the heading is found. *)
Definition bullet_section (r : regex) (response : jsstring) (otherwise : list jsstring)
  : outcome (list jsstring) :=
  found ← match1 flags_i r 1 response;
  match found with
  | Some body => bullets body
  | None => Returns otherwise
  end.

(** A text-valued section: its trimmed body when the heading is found. *)
Definition text_section (r : regex) (response : jsstring) (otherwise : jsstring)
  : outcome jsstring :=
  found ← match1 flags_i r 1 response;
  match found with
  | Some body => Returns (trim body)
  | None => Returns otherwise
  end.

(** The parsing half of [enrichCategory]. *)
Definition enrichCategory_parse (response : jsstring) : outcome EnrichmentResult :=
  try_catch "Failed to enrich category"
    (extended ← text_section (headingRegex (js "Расширенное описание")) response response;
     alternatives ← bullet_section (headingRegex (js "Альтернативные трактовки")) response [];
     analogs ← bullet_section (headingRegex (js "Исторические аналоги")) response [];
     related ← bullet_section (headingRegex (js "Связанные концепты")) response [];
     Returns (mkEnrichment extended alternatives analogs related)).

(** The parsing half of [enrichConnection]. *)
Definition enrichConnection_parse (response : jsstring) : outcome EnrichmentResult :=
  try_catch "Failed to enrich connection"
    (extended ← text_section (headingRegex (js "Философское обоснование")) response response;
     alternatives ← bullet_section (headingRegex (js "Возможные контраргументы")) response [];
     analogs ← bullet_section (headingRegex (js "Аналогичные связи")) response [];
     Returns (mkEnrichment extended alternatives analogs [])).

(** The parsing half of [developThesis]. *)
Definition developThesis_parse (thesis : Thesis) (response : jsstring)
  : outcome ThesisDevelopment :=
  try_catch "Failed to develop thesis"
    (justification ← text_section (headingRegex (js "Философское обоснование")) response [];
     counterarguments ← text_section (headingRegex (js "Возможные контраргументы")) response [];
     analogs ← text_section (headingRegex (js "Исторические аналоги")) response [];
     implications ← text_section (headingRegex (js "Практические следствия")) response [];
     Returns (mkDevelopment (thesis_text thesis) justification counterarguments
                            analogs implications)).

(** ** analyseSynthesisCompatibility *)

(** [/### (.+?)\s+([\s\S]*?)(?=###|$)/g] *)
Definition subheadingRegex : regex :=
  seq [ lit (js "### "); RGroup 1 (lazy_plus dot); plus space;
        RGroup 2 (lazy_star any); RLook (RAlt (lit (js "###")) REol) ].

Inductive CompatibilityKind : Type := fully | potentially | incompatible_kind.

(** [text.includes(label) ? text.split(label)[1].trim() : text] *)
Definition after_label (text label : jsstring) : outcome jsstring :=
  if includes text label then
    match split_str text label !! 1%nat with
    | Some tail => Returns (trim tail)
    | None => Throws (TypeError "Cannot read properties of undefined (reading 'trim')")
    end
  else Returns text.

Definition extractCompatibilityExplanation (text : jsstring) (kind : CompatibilityKind)
  : outcome jsstring :=
  match kind with
  | fully => after_label text (js "Причина совместимости:")
  | potentially => after_label text (js "Условия совместимости:")
  | incompatible_kind => after_label text (js "Причина несовместимости:")
  end.

Definition element_of_match (kind : CompatibilityKind) (m : rmatch_array)
  : outcome CompatibilityElement :=
  let elementName := trimmed_or_empty m 1 in
  let elementContent := trimmed_or_empty m 2 in
  let elementType :=
    if includes elementName (js "->")
       || includes elementContent (js "связь")
       || includes elementContent (js "отношение")
    then element_connection else element_category in
  explanation ← extractCompatibilityExplanation elementContent kind;
  Returns (mkElement elementType [] elementName elementContent explanation).

Definition extractCompatibilityElements (text : jsstring) (kind : CompatibilityKind)
  : outcome (list CompatibilityElement) :=
  ms ← of_option (exec_all no_flags subheadingRegex 2 text);
  collect (element_of_match kind) ms.

Definition element_section (heading : jsstring) (kind : CompatibilityKind)
    (response : jsstring) : outcome (list CompatibilityElement) :=
  found ← match1 flags_i (headingRegex heading) 1 response;
  match found with
  | Some body => extractCompatibilityElements body kind
  | None => Returns []
  end.

(** [/Рекомендуется:\s+(C)/i] where the capture [C] is [[\s\S]*], greedy. *)
Definition recommendedRegex : regex :=
  seq [ lit (js "Рекомендуется:"); plus space; RGroup 1 (star any) ].

Definition strategy_of_match (m : rmatch_array) : outcome SynthesisStrategy :=
  let strategyName := trimmed_or_empty m 1 in
  let strategyContent := trimmed_or_empty m 2 in
  description ←
    text_section (section_until (js "Описание:") (js "Преимущества:")) strategyContent [];
  benefitList ←
    bullet_section (section_until (js "Преимущества:") (js "Ограничения:")) strategyContent [];
  limitationList ←
    bullet_section (section_until (js "Ограничения:") (js "Рекомендуется:")) strategyContent [];
  recommendedMatch ← match1 flags_i recommendedRegex 1 strategyContent;
  let isRecommended :=
    match recommendedMatch with
    | Some answer => str_eqb (toLowerCase (trim answer)) (js "да")
    | None => false
    end in
  Returns (mkStrategy strategyName description benefitList limitationList isRecommended).

(** The parsing half of [analyseSynthesisCompatibility]. *)
Definition analyseSynthesisCompatibility_parse (response : jsstring)
  : outcome CompatibilityAnalysis :=
  try_catch "Failed to analyze synthesis compatibility"
    (compatible ← element_section (js "Полностью совместимые элементы") fully response;
     potential ← element_section (js "Потенциально совместимые элементы") potentially response;
     incompat ←
       element_section (js "Принципиально несовместимые элементы") incompatible_kind response;
     strategiesMatch ←
       match1 flags_i (headingRegex (js "Возможные стратегии синтеза")) 1 response;
     strategies ←
       match strategiesMatch with
       | Some strategiesText =>
           ms ← of_option (exec_all no_flags subheadingRegex 2 strategiesText);
           collect strategy_of_match ms
       | None => Returns []
       end;
     Returns (mkCompatibility compatible potential incompat strategies)).

(** ** synthesizeConcepts *)

Record CategoryDraft : Type := mkCategoryDraft {
  cd_name : jsstring;
  cd_definition : jsstring;
  cd_source : jsstring
}.

Record ConnectionDraft : Type := mkConnectionDraft {
  nd_source_category : jsstring;
  nd_target_category : jsstring;
  nd_connection_type : jsstring;
  nd_direction : jsstring;
  nd_description : jsstring;
  nd_source : jsstring
}.

(** [/# Синтезированная концепция: (.+?)(?=\n|$)/] *)
Definition conceptNameRegex : regex :=
  seq [ lit (js "# Синтезированная концепция: "); RGroup 1 (lazy_plus dot);
        RLook (RAlt (lit nl) REol) ].

(** [/### (.+?)\s+(.+?)(?:\nПроисхождение: (.+?))?(?=###|$)/gs] *)
Definition categoryRegex : regex :=
  seq [ lit (js "### "); RGroup 1 (lazy_plus dot); plus space; RGroup 2 (lazy_plus dot);
        opt (seq [ lit (nl ++ js "Происхождение: "); RGroup 3 (lazy_plus dot) ]);
        RLook (RAlt (lit (js "###")) REol) ].

(** [/- (.+?) (->|<->|<-) (.+?) \((.+?)\)(?:: (.+?))?(?:\nПроисхождение: (.+?))?(?=\n-|\n##|$)/gs] *)
Definition connectionRegex : regex :=
  seq [ lit (js "- "); RGroup 1 (lazy_plus dot); ch " ";
        RGroup 2 (RAlt (lit (js "->")) (RAlt (lit (js "<->")) (lit (js "<-")))); ch " ";
        RGroup 3 (lazy_plus dot); lit (js " ("); RGroup 4 (lazy_plus dot); ch ")";
        opt (seq [ lit (js ": "); RGroup 5 (lazy_plus dot) ]);
        opt (seq [ lit (nl ++ js "Происхождение: "); RGroup 6 (lazy_plus dot) ]);
        RLook (RAlt (lit (nl ++ js "-")) (RAlt (lit (nl ++ js "##")) REol)) ].

Definition category_of_match (m : rmatch_array) : CategoryDraft :=
  mkCategoryDraft (trimmed_or_empty m 1) (trimmed_or_empty m 2) (trimmed_or_empty m 3).

Definition connection_of_match (m : rmatch_array) : ConnectionDraft :=
  let arrow := trimmed_or_empty m 2 in
  let dir :=
    if str_eqb arrow (js "->") then js "directed"
    else if str_eqb arrow (js "<->") then js "bidirectional"
    else js "directed" in
  mkConnectionDraft (trimmed_or_empty m 1) (trimmed_or_empty m 3) (trimmed_or_empty m 4)
                    dir (trimmed_or_empty m 5) (trimmed_or_empty m 6).

(** The drafts of the categories and of the connections read from the
    response. *)
Definition parse_categories (response : jsstring) : outcome (list CategoryDraft) :=
  categoriesMatch ← match1 flags_i (headingRegex (js "Категории")) 1 response;
  match categoriesMatch with
  | Some categoriesText =>
      ms ← of_option (exec_all flags_s categoryRegex 3 categoriesText);
      Returns (List.map category_of_match ms)
  | None => Returns []
  end.

Definition parse_connections (response : jsstring) : outcome (list ConnectionDraft) :=
  connectionsMatch ← match1 flags_i (headingRegex (js "Связи")) 1 response;
  match connectionsMatch with
  | Some connectionsText =>
      ms ← of_option (exec_all flags_s connectionRegex 6 connectionsText);
      Returns (List.map connection_of_match ms)
  | None => Returns []
  end.

(** Reading a [const] binding.  While the initializer of the declaration is
    being evaluated the binding is not initialized ([None]) and a read
    throws a ReferenceError.  (Compiled down to a [var], the read gives
    [undefined] and the property access that follows throws a TypeError:
    the call fails either way.) *)
Definition read_const {A : Type} (binding : option A) : outcome A :=
  match binding with
  | Some v => Returns v
  | None => Throws (ReferenceError "Cannot access 'partialGraph' before initialization")
  end.

(** The callback of [newConnections.map] inside the initializer of
    [partialGraph]; it reads [partialGraph.categories]. *)
Definition connection_of_draft (partialGraph : option ConceptGraph)
    (idx : nat) (conn : ConnectionDraft) : outcome Connection :=
  g ← read_const partialGraph;
  let sourceCategory :=
    List.find (fun c => str_eqb (category_name c) (nd_source_category conn)) (categories g) in
  g' ← read_const partialGraph;
  let targetCategory :=
    List.find (fun c => str_eqb (category_name c) (nd_target_category conn)) (categories g') in
  Returns (mkConnection (js "new_connection_" ++ decimal idx)
             (from_option category_id [] sourceCategory)
             (from_option category_id [] targetCategory)
             (nd_connection_type conn) (nd_direction conn) (nd_description conn)
             sourceCategory targetCategory []).

Definition category_of_draft (idx : nat) (cat : CategoryDraft) : Category :=
  mkCategory (js "new_category_" ++ decimal idx) (cd_name cat) (cd_definition cat)
             (cd_source cat) [].

(** [const partialGraph = { ..., categories: newCategories.map(...),
    connections: newConnections.map(...) }]: both [map]s run while the
    object literal is evaluated, that is before [partialGraph] is
    initialized, and the second callback reads [partialGraph]. *)
Definition build_partialGraph (name description : jsstring)
    (newCategories : list CategoryDraft) (newConnections : list ConnectionDraft)
  : outcome ConceptGraph :=
  let cats := imap category_of_draft newCategories in
  conns ← collect (fun ic => connection_of_draft None (fst ic) (snd ic))
                  (imap pair newConnections);
  Returns (mkGraph [] name description cats conns).

(** The parsing half of [synthesizeConcepts]. *)
Definition synthesizeConcepts_parse (userId : jsstring) (concepts : list Concept)
    (method : jsstring) (parameters : SynthesisParams) (response : jsstring)
  : outcome SynthesisResult :=
  try_catch "Failed to synthesize concepts"
    (newConceptNameMatch ← match1 no_flags conceptNameRegex 1 response;
     newConceptDescMatch ← match1 flags_i (headingRegex (js "Описание")) 1 response;
     let newConceptName :=
       match newConceptNameMatch with
       | Some name => trim name
       | None => js "Синтез: " ++ join (js " + ") (List.map c_name concepts)
       end in
     let newConceptDesc :=
       match newConceptDescMatch with
       | Some description => trim description
       | None => []
       end in
     newCategories ← parse_categories response;
     newConnections ← parse_connections response;
     let ids := List.map c_concept_id concepts in
     let concept :=
       mkConcept [] userId newConceptName newConceptDesc true ids (Some method)
                 (sp_focus_area parameters) in
     let meta :=
       mkSynthesisMeta [] [] ids method (sp_innovation_level parameters)
                       (sp_abstraction_level parameters) (sp_historical_context parameters)
                       (sp_target_application parameters) in
     partialGraph ← build_partialGraph newConceptName newConceptDesc
                                        newCategories newConnections;
     Returns (mkSynthesisResult concept partialGraph meta [] [])).

(** ** criticallyAnalyzeSynthesis *)

(** [/## heading\s+(\d+(?:\.\d+)?)\s*\/\s*1(?:\n|\r\n)([\s\S]*?)(?=##|$)/i] *)
Definition dimensionRegex (heading : jsstring) : regex :=
  seq [ lit (js "## " ++ heading); plus space;
        RGroup 1 (seq [ plus digit; opt (seq [ ch "."; plus digit ]) ]);
        star space; ch "/"; star space; ch "1";
        RAlt (lit nl) (lit [13; 10]);
        RGroup 2 (lazy_star any); RLook (RAlt (lit (js "##")) REol) ].

(** [/label([\s\S]*?)(?=stop|$)/i] *)
Definition label_until (label stop : jsstring) : regex :=
  seq [ lit label; RGroup 1 (lazy_star any); RLook (RAlt (lit stop) REol) ].

(** [response.match(re)] with its captures. *)
Definition match_groups (fl : flags) (r : regex) (ncaps : nat) (s : jsstring)
  : outcome (option rmatch_array) :=
  match exec fl r ncaps s with
  | Found m => Returns (Some m)
  | NoMatch => Returns None
  | OutOfFuel => NoResult
  end.

(** The score and the trimmed text of one dimension, when its heading and
    its [score / 1] line are found. *)
Definition dimension (heading : jsstring) (response : jsstring)
  : outcome (option (Q * jsstring)) :=
  found ← match_groups flags_i (dimensionRegex heading) 2 response;
  Returns (option_map
             (fun m => (parseFloat (default [] (group m 1)), trimmed_or_empty m 2))
             found).

(** An optional labelled list inside the text of a dimension. *)
Definition labelled_list (label stop : jsstring) (analysis : jsstring)
  : outcome (option (list jsstring)) :=
  found ← match1 flags_i (label_until label stop) 1 analysis;
  match found with
  | Some body => items ← bullets body; Returns (Some items)
  | None => Returns None
  end.

(** [/### (.+?)\s+Серьезность: (.+?)\s+([\s\S]*?)(?=###|$)/g] *)
Definition issueRegex : regex :=
  seq [ lit (js "### "); RGroup 1 (lazy_plus dot); plus space;
        lit (js "Серьезность: "); RGroup 2 (lazy_plus dot); plus space;
        RGroup 3 (lazy_star any); RLook (RAlt (lit (js "###")) REol) ].

Definition potential_issue_of_match (m : rmatch_array) : outcome PotentialIssue :=
  let issueTitle := trimmed_or_empty m 1 in
  let severityText := toLowerCase (trimmed_or_empty m 2) in
  let issueDescription := trimmed_or_empty m 3 in
  let sev :=
    if includes severityText (js "низк") || includes severityText (js "low") then low
    else if includes severityText (js "высок") || includes severityText (js "high") then high
    else medium in
  solutionMatch ←
    match1 flags_i (section_until (js "Потенциальное решение:") (nl ++ nl)) 1 issueDescription;
  let potentialSolution := option_map trim solutionMatch in
  issue ←
    (if includes issueDescription (js "Потенциальное решение:") then
       match split_str issueDescription (js "Потенциальное решение:") !! 0%nat with
       | Some head => Returns (trim head)
       | None => Throws (TypeError "Cannot read properties of undefined (reading 'trim')")
       end
     else Returns issueDescription);
  Returns (mkPotentialIssue sev issue potentialSolution).

(** The parsing half of [criticallyAnalyzeSynthesis]. *)
Definition criticallyAnalyzeSynthesis_parse (response : jsstring) : outcome CriticalAnalysis :=
  try_catch "Failed to critically analyze synthesis"
    (consistencyMatch ← dimension (js "Внутренняя согласованность") response;
     consistency ←
       match consistencyMatch with
       | Some (sc, analysis) =>
           issues ← labelled_list (js "Проблемы:") (nl ++ nl) analysis;
           Returns (mkConsistency sc analysis issues)
       | None => Returns (mkConsistency 0 [] None)
       end;
     noveltyMatch ← dimension (js "Философская новизна") response;
     novelty ←
       match noveltyMatch with
       | Some (sc, analysis) =>
           novel ← labelled_list (js "Новые элементы:") (nl ++ nl) analysis;
           Returns (mkNovelty sc analysis novel)
       | None => Returns (mkNovelty 0 [] None)
       end;
     preservationMatch ← dimension (js "Сохранение ценных аспектов") response;
     preservation ←
       match preservationMatch with
       | Some (sc, analysis) =>
           preserved ←
             labelled_list (js "Сохраненные элементы:") (js "Утраченные элементы:") analysis;
           lost ← labelled_list (js "Утраченные элементы:") (nl ++ nl) analysis;
           Returns (mkPreservation sc analysis preserved lost)
       | None => Returns (mkPreservation 0 [] None None)
       end;
     resolutionMatch ← dimension (js "Разрешение противоречий") response;
     resolution ←
       match resolutionMatch with
       | Some (sc, analysis) =>
           resolved ←
             labelled_list (js "Разрешенные противоречия:") (js "Оставшиеся противоречия:")
                           analysis;
           remaining ← labelled_list (js "Оставшиеся противоречия:") (nl ++ nl) analysis;
           Returns (mkResolution sc analysis resolved remaining)
       | None => Returns (mkResolution 0 [] None None)
       end;
     issuesMatch ←
       match1 flags_i (label_until (js "## Потенциальные проблемы") (js "##")) 1 response;
     issues ←
       match issuesMatch with
       | Some issuesText =>
           ms ← of_option (exec_all no_flags issueRegex 3 issuesText);
           collect potential_issue_of_match ms
       | None => Returns []
       end;
     Returns (mkCritical consistency novelty preservation resolution issues)).

(** ** The operations that return the response as it is
    ([historicalContextualize], [practicalApplication],
    [dialogicalInterpretation], [conceptEvolution]) *)

Definition text_parse (operation : string) (response : jsstring) : outcome TextResult :=
  try_catch operation (Returns (mkText response)).

Definition historicalContextualize_parse : jsstring -> outcome TextResult :=
  text_parse "Failed to historically contextualize concept".
Definition practicalApplication_parse : jsstring -> outcome TextResult :=
  text_parse "Failed to suggest practical applications".
Definition dialogicalInterpretation_parse : jsstring -> outcome TextResult :=
  text_parse "Failed to create dialogical interpretation".
Definition conceptEvolution_parse : jsstring -> outcome TextResult :=
  text_parse "Failed to suggest concept evolution".

End Parsers.

(* ================================================================== *)
(** * Part IV. Prompt templates and the rendering of prompts           *)
(* ================================================================== *)

(** The values a caller puts into the data of a prompt.  A number is kept
    as the numeral that [Number.prototype.toString] prints for it. *)
Inductive json : Type :=
| JNull
| JBool (b : bool)
| JNumber (numeral : jsstring)
| JString (s : jsstring)
| JArray (items : list json)
| JObject (fields : list (jsstring * json)).

Module Json.

Definition hex_digit (n : N) : N := if n <? 10 then 48 + n else 87 + n.

(** [\uXXXX] *)
Definition unicode_escape (c : N) : jsstring :=
  [92; 117; hex_digit (c / 4096 mod 16); hex_digit (c / 256 mod 16);
   hex_digit (c / 16 mod 16); hex_digit (c mod 16)].

Definition is_lead (c : N) : bool := (55296 <=? c) && (c <=? 56319).
Definition is_trail (c : N) : bool := (56320 <=? c) && (c <=? 57343).

(** The body of QuoteJSONString. *)
Fixpoint quote_units (s : jsstring) : jsstring :=
  match s with
  | [] => []
  | c :: t =>
      if c =? 34 then 92 :: 34 :: quote_units t
      else if c =? 92 then 92 :: 92 :: quote_units t
      else if c =? 8 then 92 :: 98 :: quote_units t
      else if c =? 9 then 92 :: 116 :: quote_units t
      else if c =? 10 then 92 :: 110 :: quote_units t
      else if c =? 12 then 92 :: 102 :: quote_units t
      else if c =? 13 then 92 :: 114 :: quote_units t
      else if c <? 32 then unicode_escape c ++ quote_units t
      else if is_lead c then
        match t with
        | d :: t' => if is_trail d then c :: d :: quote_units t'
                     else unicode_escape c ++ quote_units t
        | [] => unicode_escape c
        end
      else if is_trail c then unicode_escape c ++ quote_units t
      else c :: quote_units t
  end.

Definition quote (s : jsstring) : jsstring := 34 :: quote_units s ++ [34].

(** SerializeJSONProperty with a gap of two spaces; [indent] is the
    indentation of the enclosing line. *)
Fixpoint serialize (indent : jsstring) (v : json) : jsstring :=
  let inner := indent ++ [32; 32] in
  let separator := [44; 10] ++ inner in
  match v with
  | JNull => js "null"
  | JBool true => js "true"
  | JBool false => js "false"
  | JNumber numeral => numeral
  | JString s => quote s
  | JArray [] => js "[]"
  | JArray items =>
      [91; 10] ++ inner ++ join separator (List.map (serialize inner) items)
      ++ [10] ++ indent ++ [93]
  | JObject [] => js "{}"
  | JObject fields =>
      [123; 10] ++ inner
      ++ join separator
           (List.map (fun kv => quote (fst kv) ++ [58; 32] ++ serialize inner (snd kv)) fields)
      ++ [10] ++ indent ++ [125]
  end.

(** [JSON.stringify(value, null, 2)] *)
Definition stringify (v : json) : jsstring := serialize [] v.

End Json.

Record PromptTemplate : Type := mkTemplate {
  template_name : jsstring;
  template_description : jsstring;
  template : jsstring;
  parameters : list jsstring
}.

Module Render.

(** The text substituted for a parameter that is present in the data: an
    object, an array or [null] is serialized ([typeof value === 'object']),
    anything else is converted to a string by [replace]. *)
Definition substituted (v : json) : jsstring :=
  match v with
  | JString s => s
  | JNumber numeral => numeral
  | JBool true => js "true"
  | JBool false => js "false"
  | JNull | JArray _ | JObject _ => Json.stringify v
  end.

(** [{{param}}] *)
Definition placeholder (param : jsstring) : jsstring :=
  js "{{" ++ param ++ js "}}".

(** [new RegExp(`\\{\\{${param}\\}\\}`, 'g')]: for a parameter name without
    pattern syntax in it ([plain_name] below) the pattern is the literal
    text of the placeholder. *)
Definition placeholderRegex (param : jsstring) : regex := lit (placeholder param).

(** The characters with a meaning in a pattern. *)
Definition is_syntax_unit (c : N) : bool :=
  existsb (N.eqb c) [36; 40; 41; 42; 43; 46; 47; 63; 91; 92; 93; 94; 123; 124; 125].

Definition plain_name (param : jsstring) : bool := forallb (fun c => negb (is_syntax_unit c)) param.

(** The data of a prompt are an object literal.  Beside the properties
    that the caller gave a value, which the map holds, such an object has
    the properties of [Object.prototype]: eleven methods and the accessor
    [__proto__]. *)
Inductive method : Type :=
| ObjectConstructor
| HasOwnProperty
| IsPrototypeOf
| PropertyIsEnumerable
| ToLocaleString
| ToString
| ValueOf
| DefineGetter
| DefineSetter
| LookupGetter
| LookupSetter.

Definition inherited_methods : list (jsstring * method) :=
  [ (js "constructor", ObjectConstructor);
    (js "hasOwnProperty", HasOwnProperty);
    (js "isPrototypeOf", IsPrototypeOf);
    (js "propertyIsEnumerable", PropertyIsEnumerable);
    (js "toLocaleString", ToLocaleString);
    (js "toString", ToString);
    (js "valueOf", ValueOf);
    (js "__defineGetter__", DefineGetter);
    (js "__defineSetter__", DefineSetter);
    (js "__lookupGetter__", LookupGetter);
    (js "__lookupSetter__", LookupSetter) ].

(** What [data[param]] evaluates to. *)
Inductive property : Type :=
| Undefined
| Own (value : json)
| Method (m : method)
| Prototype.

Definition get (data : gmap jsstring json) (param : jsstring) : property :=
  match data !! param with
  | Some value => Own value
  | None =>
      if str_eqb param (js "__proto__") then Prototype
      else
        match List.find (fun entry => str_eqb (fst entry) param) inherited_methods with
        | Some (_, m) => Method m
        | None => Undefined
        end
  end.

(** The call [replaceValue(matched, position, string)] that [replace] makes
    when its second argument is one of the methods; [this] is [undefined].
    [Object(matched)] is a String object, which converts back to the text;
    [isPrototypeOf] answers [false] for an argument that is not an object;
    [toString] names the class of [undefined]; the others start by
    converting [this] to an object, or by calling a method of it. *)
Definition call (m : method) (matched : jsstring) : outcome jsstring :=
  match m with
  | ObjectConstructor => Returns matched
  | IsPrototypeOf => Returns (js "false")
  | ToString => Returns (js "[object Undefined]")
  | ToLocaleString =>
      Throws (TypeError "Object.prototype.toLocaleString called on null or undefined")
  | HasOwnProperty | PropertyIsEnumerable | ValueOf
  | DefineGetter | DefineSetter | LookupGetter | LookupSetter =>
      Throws (TypeError "Cannot convert undefined or null to object")
  end.

(** [str.replace(re, replaceValue)] for a pattern with the [g] flag and a
    [replaceValue] that is a function.  First the matches are collected,
    each with the place where it starts and its length ... *)
Fixpoint matches_go (fl : flags) (r : regex) (ncaps : nat)
    (skip : nat) (p : nat) (pv : option N) (s : jsstring) : option (list (nat * nat)) :=
  match skip with
  | S k =>
      match s with
      | [] => Some []
      | c :: t => matches_go fl r ncaps k (S p) (Some c) t
      end
  | O =>
      match match_at fl r ncaps p pv s with
      | OutOfFuel => None
      | NoMatch =>
          match s with
          | [] => Some []
          | c :: t => matches_go fl r ncaps O (S p) (Some c) t
          end
      | Found m =>
          let len := (m_end m - p)%nat in
          match s with
          | [] => Some [(p, len)]
          | c :: t =>
              option_map (cons (p, len))
                (matches_go fl r ncaps (len - 1) (S p) (Some c) t)
          end
      end
  end.

(** ... then the function is called for each match, from left to right,
    and what it returns is inserted as it is.  [from] is the place in [s]
    up to which the result is built. *)
Fixpoint splice (f : jsstring -> outcome jsstring) (s : jsstring) (from : nat)
    (found : list (nat * nat)) : outcome jsstring :=
  match found with
  | [] => Returns (drop from s)
  | (start, len) :: others =>
      inserted ← f (take len (drop start s));
      tail ← splice f s (start + len) others;
      Returns (take (start - from) (drop from s) ++ inserted ++ tail)
  end.

Definition replace_with (fl : flags) (r : regex) (ncaps : nat) (s : jsstring)
    (f : jsstring -> outcome jsstring) : outcome jsstring :=
  found ← of_option (matches_go fl r ncaps O O None s);
  splice f s 0 found.

(** One turn of the loop of [preparePrompt].  A property that reads as
    [undefined] is a missing parameter; the value of an own property is
    inserted as a replacement text; an inherited method is handed to
    [replace] as it is, and the prototype, an object without enumerable
    properties, is serialized to [{}]. *)
Definition substitute (data : gmap jsstring json) (prompt : jsstring) (param : jsstring)
  : outcome jsstring :=
  let regex := placeholderRegex param in
  match get data param with
  | Undefined => of_option (replace_all no_flags regex 0 prompt [])
  | Own value => of_option (replace_all no_flags regex 0 prompt (substituted value))
  | Prototype => of_option (replace_all no_flags regex 0 prompt (js "{}"))
  | Method m => replace_with no_flags regex 0 prompt (call m)
  end.

(** [for (const param of template.parameters) { ... }] *)
Fixpoint substitute_all (data : gmap jsstring json) (prompt : jsstring)
    (params : list jsstring) : outcome jsstring :=
  match params with
  | [] => Returns prompt
  | param :: others =>
      prompt' ← substitute data prompt param;
      substitute_all data prompt' others
  end.

(** The rendering of a template that was found. *)
Definition render (t : PromptTemplate) (data : gmap jsstring json) : outcome jsstring :=
  substitute_all data (template t) (parameters t).

End Render.

(* ================================================================== *)
(** * Part V. The template store and the gateway to the model          *)
(* ================================================================== *)

(** A file of the template directory: its text is the JSON of a template,
    or it is not JSON at all.  (A file whose text is JSON of another shape
    has no case here.) *)
Inductive template_file : Type :=
| WellFormed (t : PromptTemplate)
| Malformed.

Record ApiResult : Type := mkResult {
  response : jsstring;
  tokensUsed : N
}.

Record ClaudeApiRequest : Type := mkRequest {
  req_model : jsstring;
  req_content : jsstring;
  req_max_tokens : N;
  req_temperature : Q;
  req_system : option jsstring
}.

Record ClaudeApiResponse : Type := mkResponse {
  message_content : jsstring;
  input_tokens : N;
  output_tokens : N
}.

Record InteractionRecord : Type := mkInteraction {
  log_user_id : jsstring;
  log_concept_id : option jsstring;
  log_interaction_type : jsstring;
  log_prompt : jsstring;
  log_response : jsstring;
  log_tokens_used : N;
  log_duration_ms : Z
}.

(** Everything the two services read and write.  The Redis entries are
    JSON texts in the source; the model keeps the values they denote, under
    the key and with the time (in milliseconds) at which they expire, for
    the entries that were given a lifetime. *)
Record world : Type := mkWorld {
  clock : Z;                                         (* Date.now() *)
  redis_up : bool;                                   (* the Redis client answers *)
  redis_responses : gmap jsstring (ApiResult * option Z);
                                                     (* keys claude:<hash> *)
  redis_templates : option (gmap jsstring PromptTemplate * option Z);
                                                     (* key prompt_templates *)
  files : gmap jsstring template_file;               (* the template directory *)
  db_up : bool;                                      (* the database answers *)
  interactions : list InteractionRecord;             (* the interaction log *)
  api_calls : list ClaudeApiRequest;                 (* requests sent to the model *)
  templates : gmap jsstring PromptTemplate;          (* PromptTemplateService.templates *)
  templatesLoaded : bool                             (* PromptTemplateService.templatesLoaded *)
}.

(** [GET] answers with an entry until its lifetime, if it has one, is over. *)
Definition live (now : Z) (expires : option Z) : bool :=
  match expires with
  | Some t => (now <? t)%Z
  | None => true
  end.

(** The lifetime that [redisClient.set(key, value, 'EX', seconds)] gives to
    the entry.  The client of [config/redis.ts] is made by [createClient]
    and opened by [connect()]; its [set] takes the options as one object in
    third place.  Here the third argument is the string ['EX'], which has no
    property [EX], and the fourth is not read: the command sent is a plain
    [SET], and the entry has no lifetime. *)
Definition lifetime_set (now : Z) (seconds : Z) : option Z := None.

Module Store.

Definition set_templates (w : world) (ts : gmap jsstring PromptTemplate) : world :=
  mkWorld (clock w) (redis_up w) (redis_responses w) (redis_templates w) (files w)
          (db_up w) (interactions w) (api_calls w) ts (templatesLoaded w).

Definition set_loaded (w : world) : world :=
  mkWorld (clock w) (redis_up w) (redis_responses w) (redis_templates w) (files w)
          (db_up w) (interactions w) (api_calls w) (templates w) true.

Definition set_redis_templates (w : world)
    (entry : option (gmap jsstring PromptTemplate * option Z)) : world :=
  mkWorld (clock w) (redis_up w) (redis_responses w) entry (files w)
          (db_up w) (interactions w) (api_calls w) (templates w) (templatesLoaded w).

Definition templateFiles : list jsstring :=
  [ js "graph_validation"; js "category_enrichment"; js "connection_enrichment";
    js "thesis_generation"; js "thesis_development"; js "synthesis_compatibility";
    js "concept_synthesis"; js "critical_analysis"; js "historical_contextualization";
    js "practical_application"; js "dialogical_interpretation"; js "concept_evolution" ].

(** [redisClient.get('prompt_templates')] *)
Definition redis_get_templates (w : world)
  : outcome (option (gmap jsstring PromptTemplate)) :=
  if redis_up w then
    match redis_templates w with
    | Some (ts, expires) => if live (clock w) expires then Returns (Some ts) else Returns None
    | None => Returns None
    end
  else Throws (ErrorMsg "Redis connection error").

(** [readFile(join(templateDir, name + '.json'))] followed by [JSON.parse]. *)
Definition read_template (w : world) (name : jsstring) : outcome PromptTemplate :=
  match files w !! (name ++ js ".json") with
  | None => Throws (ErrorMsg "ENOENT: no such file or directory")
  | Some Malformed => Throws (ErrorMsg "SyntaxError: Unexpected token in JSON")
  | Some (WellFormed t) => Returns t
  end.

(** The loop over [templateFiles]; the templates read before a failure stay
    in the map. *)
Fixpoint load_files (names : list jsstring) (w : world) : outcome unit * world :=
  match names with
  | [] => (Returns tt, w)
  | name :: others =>
      match read_template w name with
      | Returns t => load_files others (set_templates w (<[name := t]> (templates w)))
      | Throws e => (Throws e, w)
      | NoResult => (NoResult, w)
      end
  end.

(** The body of the [try] of [loadTemplates]. *)
Definition loadTemplates_body (w : world) : outcome unit * world :=
  match redis_get_templates w with
  | Throws e => (Throws e, w)
  | NoResult => (NoResult, w)
  | Returns (Some cached) =>
      (* every entry of the cached object is [set] into the map *)
      (Returns tt, set_loaded (set_templates w (cached ∪ templates w)))
  | Returns None =>
      match load_files templateFiles w with
      | (Returns _, w1) =>
          (* redisClient.set('prompt_templates', ..., 'EX', 3600) *)
          if redis_up w1 then
            (Returns tt,
             set_loaded (set_redis_templates w1
                           (Some (templates w1, lifetime_set (clock w1) 3600))))
          else (Throws (ErrorMsg "Redis connection error"), w1)
      | failed => failed
      end
  end.

Definition loadTemplates (w : world) : outcome unit * world :=
  if templatesLoaded w then (Returns tt, w)
  else
    match loadTemplates_body w with
    | (Throws e, w1) => (Throws (Failed "Failed to load prompt templates" e), w1)
    | done => done
    end.

(** [getTemplate]: [null] is [None]. *)
Definition getTemplate (name : jsstring) (w : world)
  : outcome (option PromptTemplate) * world :=
  match (if templatesLoaded w then (Returns tt, w) else loadTemplates w) with
  | (Returns _, w1) => (Returns (templates w1 !! name), w1)
  | (Throws e, w1) => (Throws e, w1)
  | (NoResult, w1) => (NoResult, w1)
  end.

(** ** Writing to the store ([updateTemplate], [createTemplate],
    [deleteTemplate]) *)

Definition set_files (w : world) (fs : gmap jsstring template_file) : world :=
  mkWorld (clock w) (redis_up w) (redis_responses w) (redis_templates w) fs
          (db_up w) (interactions w) (api_calls w) (templates w) (templatesLoaded w).

Section Disk.

(** Whether the file system lets the service write or remove the file of
    a path. *)
Variable writable : jsstring -> bool.

(** [fs.writeFile(filePath, JSON.stringify(template, null, 2), 'utf-8', callback)] *)
Definition writeFile (filePath : jsstring) (t : PromptTemplate) (w : world)
  : outcome unit * world :=
  if writable filePath
  then (Returns tt, set_files w (<[filePath := WellFormed t]> (files w)))
  else (Throws (ErrorMsg "EACCES: permission denied"), w).

(** [fs.unlink(filePath, callback)] *)
Definition unlink (filePath : jsstring) (w : world) : outcome unit * world :=
  match files w !! filePath with
  | None => (Throws (ErrorMsg "ENOENT: no such file or directory"), w)
  | Some _ =>
      if writable filePath then (Returns tt, set_files w (delete filePath (files w)))
      else (Throws (ErrorMsg "EACCES: permission denied"), w)
  end.

(** [redisClient.set('prompt_templates', JSON.stringify(templatesObj), 'EX', 3600)] *)
Definition redis_set_templates (w : world) : outcome unit * world :=
  if redis_up w
  then (Returns tt, set_redis_templates w (Some (templates w, lifetime_set (clock w) 3600)))
  else (Throws (ErrorMsg "Redis connection error"), w).

(** The three steps inside the [try] of [updateTemplate] and of
    [createTemplate]: the file, the map, the copy in Redis; the [catch]
    returns [false]. *)
Definition store_template (name : jsstring) (t : PromptTemplate) (w : world)
  : outcome bool * world :=
  match writeFile (name ++ js ".json") t w with
  | (Returns _, w1) =>
      let w2 := set_templates w1 (<[name := t]> (templates w1)) in
      match redis_set_templates w2 with
      | (Returns _, w3) => (Returns true, w3)
      | (Throws _, w3) => (Returns false, w3)
      | (NoResult, w3) => (NoResult, w3)
      end
  | (Throws _, w1) => (Returns false, w1)
  | (NoResult, w1) => (NoResult, w1)
  end.

(** [if (!this.templatesLoaded) await this.loadTemplates()], outside the
    [try]: a failure to load is thrown to the caller. *)
Definition ensure_loaded (w : world) : outcome unit * world :=
  if templatesLoaded w then (Returns tt, w) else loadTemplates w.

Definition updateTemplate (name : jsstring) (t : PromptTemplate) (w : world)
  : outcome bool * world :=
  match ensure_loaded w with
  | (Returns _, w1) =>
      match templates w1 !! name with
      | None => (Returns false, w1)
      | Some _ => store_template name t w1
      end
  | (Throws e, w1) => (Throws e, w1)
  | (NoResult, w1) => (NoResult, w1)
  end.

Definition createTemplate (name : jsstring) (t : PromptTemplate) (w : world)
  : outcome bool * world :=
  match ensure_loaded w with
  | (Returns _, w1) =>
      match templates w1 !! name with
      | Some _ => (Returns false, w1)
      | None => store_template name t w1
      end
  | (Throws e, w1) => (Throws e, w1)
  | (NoResult, w1) => (NoResult, w1)
  end.

Definition deleteTemplate (name : jsstring) (w : world) : outcome bool * world :=
  match ensure_loaded w with
  | (Returns _, w1) =>
      match templates w1 !! name with
      | None => (Returns false, w1)
      | Some _ =>
          match unlink (name ++ js ".json") w1 with
          | (Returns _, w2) =>
              let w3 := set_templates w2 (delete name (templates w2)) in
              match redis_set_templates w3 with
              | (Returns _, w4) => (Returns true, w4)
              | (Throws _, w4) => (Returns false, w4)
              | (NoResult, w4) => (NoResult, w4)
              end
          | (Throws _, w2) => (Returns false, w2)
          | (NoResult, w2) => (NoResult, w2)
          end
      end
  | (Throws e, w1) => (Throws e, w1)
  | (NoResult, w1) => (NoResult, w1)
  end.

End Disk.

(** A new instance of the service over the same Redis and the same
    directory: its map is empty and nothing is loaded. *)
Definition restart (w : world) : world :=
  mkWorld (clock w) (redis_up w) (redis_responses w) (redis_templates w) (files w)
          (db_up w) (interactions w) (api_calls w) ∅ false.

End Store.

Module Gateway.

(** The arguments of one call of [sendRequest], defaults filled in. *)
Record SendArgs : Type := mkArgs {
  userId : jsstring;
  conceptId : option jsstring;
  interactionType : jsstring;
  prompt : jsstring;
  maxTokens : N;
  temperature : Q;
  useCaching : bool;
  systemPrompt : option jsstring
}.

Section Environment.

(** [createHash('sha256').update(prompt).digest('hex')] of the runtime. *)
Variable sha256_hex : jsstring -> jsstring.

(** The external model: what it answers to a request, given the requests
    it received before, and after how many milliseconds; [None] is a
    transport failure or a response that is not a success. *)
Variable claude : list ClaudeApiRequest -> ClaudeApiRequest -> option ClaudeApiResponse * Z.

(** [this.model] *)
Variable model : jsstring.

Definition generatePromptHash (prompt : jsstring) : jsstring := sha256_hex prompt.

(** The Redis key under which the answer to a call is cached. *)
Definition cache_key (a : SendArgs) : jsstring :=
  js "claude:" ++ generatePromptHash (prompt a).

(** [checkCache]: an error of the cache is logged and reads as a miss. *)
Definition checkCache (promptHash : jsstring) (w : world) : option ApiResult :=
  if redis_up w then
    match redis_responses w !! (js "claude:" ++ promptHash) with
    | Some (cached, expires) => if live (clock w) expires then Some cached else None
    | None => None
    end
  else None.

(** [cacheResponse]: an error of the cache is logged and otherwise ignored. *)
Definition cacheResponse (promptHash : jsstring) (result : ApiResult) (ttlSeconds : Z)
    (w : world) : world :=
  if redis_up w then
    mkWorld (clock w) (redis_up w)
            (<[js "claude:" ++ promptHash := (result, lifetime_set (clock w) ttlSeconds)]>
               (redis_responses w))
            (redis_templates w) (files w) (db_up w) (interactions w) (api_calls w)
            (templates w) (templatesLoaded w)
  else w.

(** [logInteraction]: a failure to write the record is logged and otherwise
    ignored. *)
Definition logInteraction (record : InteractionRecord) (w : world) : world :=
  if db_up w then
    mkWorld (clock w) (redis_up w) (redis_responses w) (redis_templates w) (files w)
            (db_up w) (interactions w ++ [record]) (api_calls w)
            (templates w) (templatesLoaded w)
  else w.

(** [axios.post]: the request reaches the model and time passes. *)
Definition post (request : ClaudeApiRequest) (w : world)
  : option ClaudeApiResponse * world :=
  let '(reply, elapsed) := claude (api_calls w) request in
  (reply,
   mkWorld (clock w + elapsed)%Z (redis_up w) (redis_responses w) (redis_templates w)
           (files w) (db_up w) (interactions w) (api_calls w ++ [request])
           (templates w) (templatesLoaded w)).

(** [if (systemPrompt) request.system = systemPrompt] *)
Definition system_of (systemPrompt : option jsstring) : option jsstring :=
  match systemPrompt with
  | Some (c :: t) => Some (c :: t)
  | _ => None
  end.

Definition sendRequest (a : SendArgs) (w : world) : outcome ApiResult * world :=
  let promptHash := generatePromptHash (prompt a) in
  match (if useCaching a then checkCache promptHash w else None) with
  | Some cachedResponse => (Returns cachedResponse, w)
  | None =>
      let startTime := clock w in
      let request :=
        mkRequest model (prompt a) (maxTokens a) (temperature a)
                  (system_of (systemPrompt a)) in
      match post request w with
      | (None, w1) =>
          (Throws (Failed "Failed to get response from Claude API"
                          (ErrorMsg "Request failed")), w1)
      | (Some reply, w1) =>
          let result :=
            mkResult (message_content reply) (input_tokens reply + output_tokens reply) in
          let durationMs := (clock w1 - startTime)%Z in
          let w2 := if useCaching a then cacheResponse promptHash result 3600 w1 else w1 in
          let w3 :=
            logInteraction
              (mkInteraction (userId a) (conceptId a) (interactionType a) (prompt a)
                             (response result) (tokensUsed result) durationMs) w2 in
          (Returns result, w3)
      end
  end.

End Environment.

(** [preparePrompt] *)
Definition preparePrompt (templateName : jsstring) (data : gmap jsstring json) (w : world)
  : outcome jsstring * world :=
  let '(found, w1) := Store.getTemplate templateName w in
  (try_catch "Failed to prepare prompt"
     (t ← found;
      match t with
      | None => Throws (ErrorMsg "Template not found")
      | Some t => Render.render t data
      end),
   w1).

(** Time passing between two calls. *)
Definition later (elapsed : Z) (w : world) : world :=
  mkWorld (clock w + elapsed)%Z (redis_up w) (redis_responses w) (redis_templates w)
          (files w) (db_up w) (interactions w) (api_calls w)
          (templates w) (templatesLoaded w).

End Gateway.

(** ** The operations that return the text of the response
    ([historicalContextualize], [practicalApplication],
    [dialogicalInterpretation], [conceptEvolution]) *)

Module Operations.

Import Parsers Render Gateway.

(** [`${c.name}: ${c.definition}`] *)
Definition category_line (c : Category) : jsstring :=
  category_name c ++ js ": " ++ category_definition c.

(** [`${conn.source_category?.name || ''} ${conn.direction === 'directed' ? '->' : '<->'}
      ${conn.target_category?.name || ''} (${conn.connection_type}): ${conn.description || ''}`] *)
Definition connection_line (conn : Connection) : jsstring :=
  from_option category_name [] (source_category conn) ++ js " "
  ++ (if str_eqb (direction conn) (js "directed") then js "->" else js "<->") ++ js " "
  ++ from_option category_name [] (target_category conn)
  ++ js " (" ++ connection_type conn ++ js "): " ++ connection_description conn.

(** The data of the prompts about one concept and its graph. *)
Definition graph_data (concept : Concept) (conceptGraph : ConceptGraph) : gmap jsstring json :=
  <[js "concept_name" := JString (c_name concept)]>
  (<[js "concept_description" := JString (c_description concept)]>
  (<[js "categories" := JString (join nl (List.map category_line (categories conceptGraph)))]>
  (<[js "connections" :=
       JString (join nl (List.map connection_line (connections conceptGraph)))]> ∅))).

Section Service.

Variable sha256_hex : jsstring -> jsstring.
Variable claude : list ClaudeApiRequest -> ClaudeApiRequest -> option ClaudeApiResponse * Z.
Variable model : jsstring.

(** The first two statements of every operation: [preparePrompt], then
    [sendRequest] with caching enabled and no system prompt. *)
Definition ask (templateName : jsstring) (data : gmap jsstring json)
    (userId : jsstring) (conceptId : option jsstring) (interactionType : jsstring)
    (maxTokens : N) (temperature : Q) (w : world) : outcome ApiResult * world :=
  match preparePrompt templateName data w with
  | (Returns prompt, w1) =>
      sendRequest sha256_hex claude model
        (mkArgs userId conceptId interactionType prompt maxTokens temperature true None) w1
  | (Throws e, w1) => (Throws e, w1)
  | (NoResult, w1) => (NoResult, w1)
  end.

(** [return { text: response }] inside the [try] of the operation. *)
Definition as_text (operation : string) (asked : outcome ApiResult * world)
  : outcome TextResult * world :=
  (try_catch operation (result ← fst asked; Returns (mkText (response result))), snd asked).

Definition historicalContextualize (userId : jsstring) (concept : Concept)
    (conceptGraph : ConceptGraph) (w : world) : outcome TextResult * world :=
  as_text "Failed to historically contextualize concept"
    (ask (js "historical_contextualization") (graph_data concept conceptGraph)
         userId (Some (c_concept_id concept)) (js "historical_contextualization")
         4000 (7 # 10) w).

Definition practicalApplication (userId : jsstring) (concept : Concept)
    (theses : list Thesis) (w : world) : outcome TextResult * world :=
  as_text "Failed to suggest practical applications"
    (ask (js "practical_application")
         (<[js "concept_name" := JString (c_name concept)]>
          (<[js "concept_description" := JString (c_description concept)]>
          (<[js "theses" := JString (join (nl ++ nl) (List.map thesis_text theses))]> ∅)))
         userId (Some (c_concept_id concept)) (js "practical_application")
         4000 (7 # 10) w).

Definition dialogicalInterpretation (userId : jsstring) (concept1 concept2 : Concept)
    (question : jsstring) (w : world) : outcome TextResult * world :=
  as_text "Failed to create dialogical interpretation"
    (ask (js "dialogical_interpretation")
         (<[js "concept1_name" := JString (c_name concept1)]>
          (<[js "concept1_description" := JString (c_description concept1)]>
          (<[js "concept2_name" := JString (c_name concept2)]>
          (<[js "concept2_description" := JString (c_description concept2)]>
          (<[js "philosophical_question" := JString question]> ∅)))))
         userId None (js "dialogical_interpretation")
         6000 (8 # 10) w).

Definition conceptEvolution (userId : jsstring) (concept : Concept)
    (conceptGraph : ConceptGraph) (w : world) : outcome TextResult * world :=
  as_text "Failed to suggest concept evolution"
    (ask (js "concept_evolution") (graph_data concept conceptGraph)
         userId (Some (c_concept_id concept)) (js "concept_evolution")
         4000 (7 # 10) w).

End Service.

End Operations.

(** ** The cached request of the utilities ([src/utils/claude.ts]) *)

Module ClaudeUtil.

Section Runtime.

Variable sha256_hex : jsstring -> jsstring.
Variable claude : list ClaudeApiRequest -> ClaudeApiRequest -> option ClaudeApiResponse * Z.
Variable model : jsstring.

(** What a template literal prints for a number ([Number::toString]). *)
Variable number_to_string : Q -> jsstring.

(** [`claude:${hash(prompt)}:${maxTokens}:${temperature}`] *)
Definition cacheKey (prompt : jsstring) (maxTokens : N) (temperature : Q) : jsstring :=
  js "claude:" ++ sha256_hex prompt ++ js ":"
  ++ number_to_string (inject_Z (Z.of_N maxTokens)) ++ js ":"
  ++ number_to_string temperature.

(** [redisClient.set(cacheKey, JSON.stringify(result), 'EX', cacheExpiry)] *)
Definition redis_set_response (key : jsstring) (result : ApiResult) (cacheExpiry : Z)
    (w : world) : outcome unit * world :=
  if redis_up w then
    (Returns tt,
     mkWorld (clock w) (redis_up w)
             (<[key := (result, lifetime_set (clock w) cacheExpiry)]> (redis_responses w))
             (redis_templates w) (files w) (db_up w) (interactions w) (api_calls w)
             (templates w) (templatesLoaded w))
  else (Throws (ErrorMsg "Redis error"), w).

(** [sendCachedClaudeRequest]: the whole body is inside the [try], so an
    error of Redis fails the call; nothing is written to the interaction
    log. *)
Definition sendCachedClaudeRequest (prompt : jsstring) (maxTokens : N) (temperature : Q)
    (cacheExpiry : Z) (userId : jsstring) (w : world) : outcome ApiResult * world :=
  let key := cacheKey prompt maxTokens temperature in
  if redis_up w then
    match (match redis_responses w !! key with
           | Some (cached, expires) => if live (clock w) expires then Some cached else None
           | None => None
           end) with
    | Some cached => (Returns cached, w)
    | None =>
        let apiRequest := mkRequest model prompt maxTokens temperature None in
        match Gateway.post claude apiRequest w with
        | (None, w1) =>
            (Throws (Failed "Failed to get response from Claude API"
                            (ErrorMsg "Request failed")), w1)
        | (Some reply, w1) =>
            let result :=
              mkResult (message_content reply) (input_tokens reply + output_tokens reply) in
            match redis_set_response key result cacheExpiry w1 with
            | (Returns _, w2) => (Returns result, w2)
            | (Throws e, w2) =>
                (Throws (Failed "Failed to get response from Claude API" e), w2)
            | (NoResult, w2) => (NoResult, w2)
            end
        end
    end
  else
    (Throws (Failed "Failed to get response from Claude API"
                    (ErrorMsg "Redis connection error")), w).

End Runtime.

End ClaudeUtil.

(** ** The comparison of two sets of theses ([thesis.service.ts]) *)

Module ThesisService.

Import Parsers.

Record ThesisEvaluation : Type := mkEvaluation {
  better_set : jsstring;
  explanation : jsstring
}.

Record ComparisonResult : Type := mkComparison {
  cmp_general_analysis : jsstring;
  specific_examples : list jsstring;
  weights_impact : jsstring;
  evaluation : ThesisEvaluation;
  raw_comparison : jsstring
}.

(** [/\n-\s+|\n•\s+/]: the bullet is U+2022. *)
Definition exampleRegex : regex :=
  RAlt (seq [ lit nl; ch "-"; plus space ]) (seq [ lit nl; RChar 8226; plus space ]).

(** The parsing half of [compareThesisSets]: from the response of the
    model to the comparison. *)
Definition compareThesisSets_parse (response : jsstring) : outcome ComparisonResult :=
  try_catch "Failed to compare thesis sets"
    (sections ← of_option (split no_flags sectionSplitRegex response);
     if (5 <=? length sections)%nat then
       general ← section_trim sections 1;
       examplesSection ← section_trim sections 2;
       pieces ← of_option (split no_flags exampleRegex examplesSection);
       let examples := drop 1 pieces in
       weights ← section_trim sections 3;
       evaluationSection ← section_trim sections 4;
       let better :=
         if includes (toLowerCase evaluationSection)
                     (js "с учетом количественных характеристик")
         then js "with_weights"
         else if includes (toLowerCase evaluationSection)
                          (js "без учета количественных характеристик")
         then js "without_weights"
         else js "inconclusive" in
       Returns (mkComparison general (List.map trim examples) weights
                             (mkEvaluation better evaluationSection) response)
     else
       Returns (mkComparison [] [] [] (mkEvaluation [] []) response)).

End ThesisService.

(** ** Pagination ([src/utils/helpers.ts]) *)

Module Helpers.

(** The numbers [Math.ceil(items.length / limit)] can be. *)
Inductive jsnumber : Type :=
| Num (z : Z)
| PlusInfinity
| NotANumber.

(** [Array.prototype.slice(start, end)] with integer bounds: a negative
    bound counts from the end, and both are clamped to the array. *)
Definition slice {A : Type} (items : list A) (start stop : Z) : list A :=
  let len := Z.of_nat (length items) in
  let k := if (start <? 0)%Z then Z.max (len + start) 0 else Z.min start len in
  let final := if (stop <? 0)%Z then Z.max (len + stop) 0 else Z.min stop len in
  take (Z.to_nat (final - k)) (drop (Z.to_nat k) items).

(** [Math.ceil(total / limit)] for an integer limit. *)
Definition ceil_ratio (total : nat) (limit : Z) : jsnumber :=
  if (limit =? 0)%Z then (if Nat.eqb total 0 then NotANumber else PlusInfinity)
  else if (0 <? limit)%Z then Num ((Z.of_nat total + limit - 1) / limit)
  else Num (- (Z.of_nat total / - limit)).

Record PaginationInfo : Type := mkPagination {
  pg_total : nat;
  pg_page : Z;
  pg_limit : Z;
  pg_pages : jsnumber;
  pg_previous : option Z;
  pg_next : option Z
}.

(** [paginate(items, page, limit)], for an integer page and limit.  The
    sums and products are those of the integers, which are the ones of the
    code as long as they stay below 2^53, where every integer is a number
    of the code. *)
Definition paginate {A : Type} (items : list A) (page limit : Z)
  : list A * PaginationInfo :=
  let startIndex := ((page - 1) * limit)%Z in
  let endIndex := (page * limit)%Z in
  let data := slice items startIndex endIndex in
  (data,
   mkPagination (length items) page limit (ceil_ratio (length items) limit)
                (if (0 <? startIndex)%Z then Some (page - 1)%Z else None)
                (if (endIndex <? Z.of_nat (length items))%Z then Some (page + 1)%Z else None)).

End Helpers.

(* ================================================================== *)
(** * Part VI. Notions used to state the properties                    *)
(* ================================================================== *)

Module Props.

Import Parsers Render Gateway.

(** ** Responses without structural markers *)

(** A response holds none of the structural markers of the parsers when it
    has no [#] in it (every heading starts with one) and no numbered-list
    marker, that is no match of [/\d+\.\s+/]. *)
Definition marker_free (response : jsstring) : bool :=
  negb (includes response (js "#"))
  && match exec no_flags sectionSplitRegex 0 response with
     | NoMatch => true
     | _ => false
     end.

(** The first code unit every match of a pattern starts with, when the
    shape of the pattern shows one. *)
Fixpoint leading_unit (r : regex) : option N :=
  match r with
  | RChar c => Some c
  | RSeq r1 _ => leading_unit r1
  | RGroup _ r1 => leading_unit r1
  | _ => None
  end.

(** Patterns without lookahead, and pairs of flags under which such a
    pattern reads the input in the same way. *)
Fixpoint same_reading (fl1 fl2 : flags) (r : regex) : bool :=
  match r with
  | REmpty => true
  | RChar _ => Bool.eqb (ignoreCase fl1) (ignoreCase fl2)
  | RClass CDot => Bool.eqb (dotAll fl1) (dotAll fl2)
  | RClass _ => true
  | RSeq r1 r2 | RAlt r1 r2 => same_reading fl1 fl2 r1 && same_reading fl1 fl2 r2
  | RQuant _ _ _ r' | RGroup _ r' => same_reading fl1 fl2 r'
  | RLook _ => false
  | RBol | REol => Bool.eqb (multiline fl1) (multiline fl2)
  end.

(** Two states of the matcher at the same place of the same input. *)
Definition same_place (x y : mstate) : Prop :=
  pos x = pos y /\ prev x = prev y /\ rest x = rest y.

(** [y] is [x] some code units further in the same input. *)
Definition extends (x y : mstate) : Prop :=
  (pos x <= pos y)%nat /\ (length (rest y) + pos y = length (rest x) + pos x)%nat.

(** Where the first continuation fails the second does too. *)
Definition transfers (c c' : mstate -> mresult) : Prop :=
  forall y y', same_place y y' -> c y = Failure -> c' y' = Failure.

(** ** Templates made of text and placeholders *)

Inductive chunk : Type :=
| Text (t : jsstring)
| Hole (name : jsstring).

Definition chunk_text (c : chunk) : jsstring :=
  match c with
  | Text t => t
  | Hole name => placeholder name
  end.

Definition flatten (cs : list chunk) : jsstring := concat (List.map chunk_text cs).

(** A text is inert when it cannot take part in a placeholder: it has no
    [{{] in it and does not end with [{]. *)
Definition inert (t : jsstring) : bool :=
  negb (includes t (js "{{")) && negb (str_eqb (drop (length t - 1) t) (js "{")).

(** No [$], so [replace] inserts the text as it is. *)
Definition dollar_free (t : jsstring) : bool := forallb (fun c => negb (c =? 36)) t.

Definition well_formed_chunk (c : chunk) : bool :=
  match c with
  | Text t => inert t
  | Hole name => plain_name name
  end.

Definition well_formed (cs : list chunk) : bool := forallb well_formed_chunk cs.

(** What is substituted for a parameter that the data define or that no
    object inherits: the value itself when it is a string, its JSON text
    indented by two spaces when it is not, and the empty string when the
    data have no value for it. *)
Definition value_of (data : gmap jsstring json) (param : jsstring) : jsstring :=
  match data !! param with
  | Some (JString s) => s
  | Some v => Json.stringify v
  | None => []
  end.

Definition mem (name : jsstring) (names : list jsstring) : bool :=
  existsb (str_eqb name) names.

(** A chunk once the placeholders of [params] are filled in. *)
Definition fill (data : gmap jsstring json) (params : list jsstring) (c : chunk) : chunk :=
  match c with
  | Hole name => if mem name params then Text (value_of data name) else Hole name
  | Text t => Text t
  end.

Definition fill_one (param value : jsstring) (c : chunk) : chunk :=
  match c with
  | Hole name => if str_eqb name param then Text value else Hole name
  | Text t => Text t
  end.

(** The values the data give to the parameters are fit for substitution. *)
Definition fit_values (data : gmap jsstring json) (params : list jsstring) : bool :=
  forallb (fun p => inert (value_of data p) && dollar_free (value_of data p)) params.

(** The data define the parameter, or the parameter is no name that an
    object inherits: [data[param]] is the value the caller wrote, or
    [undefined]. *)
Definition ordinary (data : gmap jsstring json) (param : jsstring) : bool :=
  match get data param with
  | Undefined | Own _ => true
  | Method _ | Prototype => false
  end.

(** Replacement of every occurrence of a non-empty literal, scanning from
    the left; [skip] counts the units left of the occurrence just replaced. *)
Fixpoint replace_literal (w v : jsstring) (skip : nat) (s : jsstring) : jsstring :=
  match s with
  | [] => []
  | c :: t =>
      match skip with
      | S k => replace_literal w v k t
      | O =>
          if starts_with w s then v ++ replace_literal w v (length w - 1) t
          else c :: replace_literal w v O t
      end
  end.

(** ** Worlds of the template store *)

(** Nothing is loaded and Redis holds no copy of the templates. *)
Definition cold (w : world) : Prop :=
  templatesLoaded w = false /\ redis_up w = true /\ redis_templates w = None.

(** The file of a template is missing or is not JSON. *)
Definition broken (w : world) (name : jsstring) : Prop :=
  files w !! (name ++ js ".json") = None \/ files w !! (name ++ js ".json") = Some Malformed.

(** ** Sample data of the scenarios *)

Definition flux_response : jsstring :=
  js "1. All is flux." ++ nl ++ js "   - Источник: Becoming" ++ nl
  ++ js "   - Обоснование: derived from definition".

Definition being_becoming (defBeing defBecoming : jsstring) : list Category :=
  [ mkCategory (js "c1") (js "Being") defBeing [] [];
    mkCategory (js "c2") (js "Becoming") defBecoming [] [] ].

Definition unity_response : jsstring :=
  js "# Синтезированная концепция: Henology" ++ nl
  ++ js "## Описание" ++ nl ++ js "The one and the many." ++ nl
  ++ js "## Категории" ++ nl
  ++ js "### Unity" ++ nl ++ js "The one." ++ nl
  ++ js "### Multiplicity" ++ nl ++ js "The many." ++ nl
  ++ js "## Связи" ++ nl
  ++ js "- Unity -> Multiplicity (causal): grounds".

Definition sample_params : ThesisGenerationParams :=
  mkThesisParams 1 (js "ontological") None false None.

Definition sample_graph : ConceptGraph :=
  mkGraph (js "k1") (js "Heraclitus") (js "Flux") (being_becoming [] []) [].

(** A stand-in for the digest and for the model, to run the gateway on an
    example. *)
Definition sample_digest (prompt : jsstring) : jsstring := prompt.

Definition sample_claude (history : list ClaudeApiRequest) (request : ClaudeApiRequest)
  : option ClaudeApiResponse * Z :=
  (Some (mkResponse (js "answer") 10 20), 250%Z).

Definition sample_world : world :=
  mkWorld 1000 true ∅ None ∅ true [] [] ∅ false.

Definition sample_args (limit : N) (temp : Q) : SendArgs :=
  mkArgs (js "u1") None (js "graph_validation") (js "Validate this graph") limit temp true None.

(** A world in which the file of the last template of the list is missing
    and the files of all the others are well formed. *)
Definition plain_template (name : jsstring) : PromptTemplate :=
  mkTemplate name [] (js "Prompt of " ++ name) [].

Definition one_missing_world : world :=
  mkWorld 1000 true ∅ None
          (list_to_map
             (List.map (fun name => (name ++ js ".json", WellFormed (plain_template name)))
                       (removelast Store.templateFiles)))
          true [] [] ∅ false.

(** A world in which the files of all the templates are well formed. *)
Definition all_present_world : world :=
  mkWorld 1000 true ∅ None
          (list_to_map
             (List.map (fun name => (name ++ js ".json", WellFormed (plain_template name)))
                       Store.templateFiles))
          true [] [] ∅ false.

Definition sample_template : PromptTemplate :=
  mkTemplate (js "graph_validation") (js "Validation of a graph")
             (js "Concept {{concept_name}} has {{categories}}; reply as {ok: true}{{note}}.")
             [js "concept_name"; js "categories"; js "note"].

Definition sample_chunks : list chunk :=
  [ Text (js "Concept "); Hole (js "concept_name"); Text (js " has ");
    Hole (js "categories"); Text (js "; reply as {ok: true}"); Hole (js "note");
    Text (js ".") ].

(** A world in which the sample template is loaded. *)
Definition loaded_world : world :=
  mkWorld 1000 true ∅ None ∅ true [] [] {[ js "graph_validation" := sample_template ]} true.

(** Two parameters, the value of the first naming the second. *)
Definition nested_data : gmap jsstring json :=
  <[js "a" := JString (js "{{b}}")]> (<[js "b" := JString (js "x")]> ∅).

Definition nested_template (params : list jsstring) : PromptTemplate :=
  mkTemplate (js "t") [] (js "{{a}} {{b}}") params.

(** A concept whose name is the text of a placeholder. *)
Definition echo_template : PromptTemplate :=
  mkTemplate (js "concept_evolution") [] (js "Concept: {{concept_name}}") [js "concept_name"].

Definition echo_data : gmap jsstring json :=
  {[ js "concept_name" := JString (js "{{concept_name}}") ]}.

Definition echo_world : world :=
  mkWorld 1000 true ∅ None ∅ true [] [] {[ js "concept_evolution" := echo_template ]} true.

Definition nested_world (params : list jsstring) : world :=
  mkWorld 1000 true ∅ None ∅ true [] [] {[ js "t" := nested_template params ]} true.

Definition sample_data : gmap jsstring json :=
  <[js "concept_name" := JString (js "Flux")]>
    (<[js "categories" := JArray [JObject [(js "name", JString (js "Being"))]]]> ∅).

(** ** The shortest match of a pattern, and what a match leaves behind *)

(** A lower bound of the number of code units a match of a pattern
    consumes. *)
Fixpoint min_len (r : regex) : nat :=
  match r with
  | RChar _ | RClass _ => 1
  | RSeq r1 r2 => min_len r1 + min_len r2
  | RAlt r1 r2 => Nat.min (min_len r1) (min_len r2)
  | RQuant min max _ r' =>
      match min, max with
      | O, _ | _, Some O => 0
      | _, _ => min_len r'
      end
  | RGroup _ r' => min_len r'
  | _ => 0
  end%nat.

(** [y] is [x] at least [k] code units further, with the captures outside
    [ps] untouched. *)
Definition passes (ps : list nat) (k : nat) (x y : mstate) : Prop :=
  extends x y /\ (pos x + k <= pos y)%nat
  /\ length (caps y) = length (caps x)
  /\ forall n, ~ In n ps -> caps y !! n = caps x !! n.

(** ** Variations of a call and of a world *)

(** The same call with caching switched off. *)
Definition without_caching (a : SendArgs) : SendArgs :=
  mkArgs (userId a) (conceptId a) (interactionType a) (prompt a) (maxTokens a)
         (temperature a) false (systemPrompt a).

(** The same world with the database answering or not. *)
Definition with_db (up : bool) (w : world) : world :=
  mkWorld (clock w) (redis_up w) (redis_responses w) (redis_templates w) (files w)
          up (interactions w) (api_calls w) (templates w) (templatesLoaded w).

(** ** More sample data *)

(** A directory in which every file can be written. *)
Definition always (path : jsstring) : bool := true.

Definition custom_template : PromptTemplate :=
  mkTemplate (js "custom") [] (js "Say {{x}}") [js "x"].

(** The sample template is loaded and Redis does not answer. *)
Definition offline_world : world :=
  mkWorld 1000 false ∅ None ∅ true [] [] {[ js "graph_validation" := sample_template ]} true.

(** The world after a first lookup with every file in place. *)
Definition served_world : world :=
  snd (Store.getTemplate (js "graph_validation") all_present_world).

(** Every file is in place, nothing is loaded and Redis does not answer. *)
Definition dark_world : world :=
  mkWorld 1000 false ∅ None (files all_present_world) true [] [] ∅ false.

(** A template with a placeholder that it does not declare. *)
Definition partial_template : PromptTemplate :=
  mkTemplate (js "graph_validation") [] (js "Concept {{concept_name}} {{extra}}")
             [js "concept_name"].

Definition partial_chunks : list chunk :=
  [ Text (js "Concept "); Hole (js "concept_name"); Text (js " "); Hole (js "extra") ].

Definition partial_world : world :=
  mkWorld 1000 true ∅ None ∅ true [] [] {[ js "graph_validation" := partial_template ]} true.

(** A stand-in for the printing of numbers. *)
Definition sample_number_to_string (q : Q) : jsstring :=
  if Qle_bool 1 q then js "4000" else js "0.7".


(** ** Replacement texts *)

(** What [replace] inserts for a replacement text, for a pattern without
    capturing parentheses: [$$] gives a dollar sign and [$&] the text that
    was matched. *)
Definition expand (matched t : jsstring) : jsstring :=
  get_substitution matched [] [] [Some matched] t.

(** The replacement text refers neither to the text before the match
    ([$`]) nor to the text after it ([$']). *)
Fixpoint context_free (t : jsstring) : bool :=
  match t with
  | [] => true
  | c :: t1 =>
      if negb (c =? 36) then context_free t1
      else
        match t1 with
        | [] => true
        | d :: t2 =>
            if (d =? 36) || (d =? 38) then context_free t2
            else if (d =? 96) || (d =? 39) then false
            else context_free t1
        end
  end.

(** What is inserted for a parameter. *)
Definition expanded_value (data : gmap jsstring json) (param : jsstring) : jsstring :=
  expand (placeholder param) (value_of data param).

Definition fill_expanded (data : gmap jsstring json) (params : list jsstring) (c : chunk)
  : chunk :=
  match c with
  | Hole name => if mem name params then Text (expanded_value data name) else Hole name
  | Text t => Text t
  end.

Definition fit_expansions (data : gmap jsstring json) (params : list jsstring) : bool :=
  forallb (fun p => context_free (value_of data p) && inert (expanded_value data p)) params.

(** A price with a doubled dollar sign. *)
Definition price_template : PromptTemplate :=
  mkTemplate (js "practical_application") [] (js "Price: {{amount}}.") [js "amount"].

Definition price_chunks : list chunk := [ Text (js "Price: "); Hole (js "amount"); Text (js ".") ].

Definition price_data : gmap jsstring json := {[ js "amount" := JString (js "US$$5") ]}.

Definition price_world : world :=
  mkWorld 1000 true ∅ None ∅ true [] [] {[ js "practical_application" := price_template ]} true.

(** A template for the dialogue of two concepts, loaded. *)
Definition dialogue_template : PromptTemplate :=
  mkTemplate (js "dialogical_interpretation") []
             (js "{{concept1_name}} meets {{concept2_name}}: {{philosophical_question}}")
             [js "concept1_name"; js "concept2_name"; js "philosophical_question"].

Definition dialogue_world : world :=
  mkWorld 1000 true ∅ None ∅ true [] []
          {[ js "dialogical_interpretation" := dialogue_template ]} true.

Definition sample_concept (name : jsstring) : Concept :=
  mkConcept (js "k1") (js "u1") name [] false [] None None.

(** ** What the cache holds *)

Section CacheContents.

Variable sha256_hex : jsstring -> jsstring.
Variable claude : list ClaudeApiRequest -> ClaudeApiRequest -> option ClaudeApiResponse * Z.

(** The result is what the model answered to one of the requests of the
    world, a request for a prompt among [asked]. *)
Definition answered (w : world) (asked : jsstring -> Prop) (r : ApiResult) : Prop :=
  exists (i : nat) (request : ClaudeApiRequest) (reply : ClaudeApiResponse) (elapsed : Z),
    api_calls w !! i = Some request
    /\ asked (req_content request)
    /\ claude (take i (api_calls w)) request = (Some reply, elapsed)
    /\ r = mkResult (message_content reply) (input_tokens reply + output_tokens reply).

(** The prompts that the digest does not tell from a given one. *)
Definition same_digest (prompt other : jsstring) : Prop :=
  sha256_hex other = sha256_hex prompt.

(** Under the key of a prompt the cache holds nothing but answers of the
    model to prompts with its digest. *)
Definition cache_sound (w : world) : Prop :=
  forall (prompt : jsstring) (r : ApiResult) (expires : option Z),
    redis_responses w !! (js "claude:" ++ sha256_hex prompt) = Some (r, expires) ->
    answered w (same_digest prompt) r.

(** No request of the world is for another prompt with the digest of this
    one. *)
Definition no_collision (w : world) (prompt : jsstring) : Prop :=
  forall request : ClaudeApiRequest,
    In request (api_calls w) -> same_digest prompt (req_content request) ->
    req_content request = prompt.

End CacheContents.

(** A digest that keeps the first eight code units of the prompt. *)
Definition short_digest (prompt : jsstring) : jsstring := take 8 prompt.

(** ** Parameters named like inherited properties *)

(** The inherited methods that start by converting [this] to an object, or
    by calling a method of it. *)
Definition needs_receiver : list jsstring :=
  [ js "hasOwnProperty"; js "propertyIsEnumerable"; js "toLocaleString"; js "valueOf";
    js "__defineGetter__"; js "__defineSetter__"; js "__lookupGetter__";
    js "__lookupSetter__" ].

(** A template with one declared parameter, loaded. *)
Definition inherited_template (param : jsstring) : PromptTemplate :=
  mkTemplate (js "graph_validation") [] (js "A " ++ placeholder param ++ js " B") [param].

Definition inherited_world (param : jsstring) : world :=
  mkWorld 1000 true ∅ None ∅ true [] []
          {[ js "graph_validation" := inherited_template param ]} true.

(** ** Redis without its copy of the templates *)

(** The same world once the key [prompt_templates] is gone from Redis
    (deleted, or Redis flushed or replaced). *)
Definition without_copy (w : world) : world := Store.set_redis_templates w None.

End Props.

(* ================================================================== *)
(** * Part VII. Properties                                             *)
(* ================================================================== *)

Import Parsers Render Gateway Props.

(** ** Thesis generation *)

Lemma collect_Forall {A B : Type} (f : A -> outcome B) (P : B -> Prop) :
  (forall a b, f a = Returns b -> P b) ->
  forall l bs, collect f l = Returns bs -> Forall P bs.
Proof.
  intros Hf l. induction l as [|a l IH]; intros bs H; simpl in H.
  - injection H as <-. constructor.
  - destruct (f a) as [b| |] eqn:Ea; simpl in H; try discriminate.
    destruct (collect f l) as [bs'| |] eqn:El; simpl in H; try discriminate.
    injection H as <-. constructor; eauto.
Qed.

Lemma thesis_of_match_connections g parameters m t :
  thesis_of_match g parameters m = Returns t ->
  df_connections (derived_from t) = [].
Proof.
  unfold thesis_of_match. intros H.
  destruct (of_option _) as [names| |]; simpl in H; try discriminate.
  injection H as <-. reflexivity.
Qed.

(** C9. With the categories Being (c1) and Becoming (c2) and the response
    "1. All is flux." followed by the source line naming Becoming and a
    justification line, generateTheses yields exactly one thesis, whose
    text is "All is flux." and whose derived_from.categories is [c2]. *)
Theorem generateTheses_flux_scenario :
  forall (cid cname cdesc defBeing defBecoming : jsstring) (conns : list Connection)
         (parameters : ThesisGenerationParams),
    generateTheses_parse
      (mkGraph cid cname cdesc (being_becoming defBeing defBecoming) conns)
      parameters flux_response
    = Returns [ mkThesis [] cid (js "All is flux.") (tp_type parameters)
                         (mkDerived [js "c2"] []) parameters
                         (tp_useWeights parameters) (tp_style parameters) ].
Proof. intros. vm_compute. reflexivity. Qed.

(** C10. Whatever the graph, the parameters and the response, every thesis
    that generateTheses returns has an empty derived_from.connections. *)
Theorem generateTheses_connections_empty :
  forall (g : ConceptGraph) (parameters : ThesisGenerationParams)
         (response : jsstring) (theses : list Thesis),
    generateTheses_parse g parameters response = Returns theses ->
    Forall (fun t => df_connections (derived_from t) = []) theses.
Proof.
  intros g parameters response theses H.
  unfold generateTheses_parse, try_catch in H.
  destruct (of_option (exec_all flags_ms thesisRegex 3 response)) as [ms| |] eqn:E;
    simpl in H; try discriminate.
  destruct (collect (thesis_of_match g parameters) ms) as [bs| |] eqn:Ec;
    try discriminate.
  injection H as <-.
  eapply collect_Forall; [|exact Ec].
  intros a b. apply thesis_of_match_connections.
Qed.

Lemma generateTheses_connections_empty_witness :
  Forall (fun t => df_connections (derived_from t) = [])
         [ mkThesis [] (js "k1") (js "All is flux.") (js "ontological")
                    (mkDerived [js "c2"] []) sample_params false None ].
Proof.
  apply (generateTheses_connections_empty sample_graph sample_params flux_response).
  vm_compute. reflexivity.
Defined.

(** Two theses, the first with two sources of which one names no
    category, the second without continuation lines. *)
Example generateTheses_two_entries :
  generateTheses_parse sample_graph sample_params
    (js "1. Being is." ++ nl ++ js "   - Источник: being, Nothing" ++ nl
     ++ js "2. Becoming is not.")
  = Returns [ mkThesis [] (js "k1") (js "Being is.") (js "ontological")
                       (mkDerived [js "c1"] []) sample_params false None;
              mkThesis [] (js "k1") (js "Becoming is not.") (js "ontological")
                       (mkDerived [] []) sample_params false None ].
Proof. vm_compute. reflexivity. Qed.

(** ** Validation *)

(** Four numbered sections after an introduction: every section is read;
    the severity of an issue follows its keywords. *)
Example validateGraph_four_sections :
  validateGraph_parse
    (js "Review. 1. Sound overall." ++ nl
     ++ js "2. Contradictions:" ++ nl ++ js "- minor issue: X" ++ nl
     ++ js "- critical issue: Y" ++ nl
     ++ js "3. Missing:" ++ nl ++ js "- no ethics" ++ nl
     ++ js "4. Suggestions:" ++ nl ++ js "- add category Ethics")
  = Returns (mkValidation (js "Sound overall.")
               [ mkIssue contradiction (js "minor issue: X") low;
                 mkIssue contradiction (js "critical issue: Y") high ]
               [ mkIssue missing_element (js "no ethics") medium ]
               [ mkSuggestion add_category (js "add category Ethics") ]).
Proof. vm_compute. reflexivity. Qed.

(** C2. A response with three numbered sections splits into four pieces
    (the text before "1." and the three sections); the guard
    [sections.length >= 4] lets it through, [sections[4]] is undefined and
    validateGraph throws instead of keeping the response as the general
    analysis. *)
Theorem validateGraph_three_sections_throws :
  split no_flags sectionSplitRegex (js "1. a 2. b 3. c")
  = Some [ []; js "a "; js "b "; js "c" ]
  /\ validateGraph_parse (js "1. a 2. b 3. c")
     = Throws (Failed "Failed to validate graph"
                 (TypeError "Cannot read properties of undefined (reading 'trim')")).
Proof. split; vm_compute; reflexivity. Qed.

(** With fewer than four pieces the response is kept as it is. *)
Lemma validateGraph_short (response : jsstring) (sections : list jsstring) :
  split no_flags sectionSplitRegex response = Some sections ->
  (length sections < 4)%nat ->
  validateGraph_parse response = Returns (mkValidation response [] [] []).
Proof.
  intros Hs Hl. unfold validateGraph_parse. rewrite Hs.
  cbv beta iota delta [of_option mbind outcome_bind].
  apply Nat.leb_gt in Hl. rewrite Hl. reflexivity.
Qed.

(** ** Synthesis *)

(** C5. On a response with the categories Unity and Multiplicity and the
    connection "Unity -> Multiplicity (causal): grounds" the connection is
    read, no category is (the section of the categories is cut at the first
    "###"), and synthesizeConcepts throws: the callback that resolves the
    endpoints reads partialGraph inside the initializer of partialGraph. *)
Theorem synthesizeConcepts_unity_scenario_throws :
  forall (user : jsstring) (concepts : list Concept) (method : jsstring)
         (parameters : SynthesisParams),
    parse_connections unity_response
    = Returns [ mkConnectionDraft (js "Unity") (js "Multiplicity") (js "causal")
                                  (js "directed") (js "grounds") [] ]
    /\ parse_categories unity_response = Returns []
    /\ synthesizeConcepts_parse user concepts method parameters unity_response
       = Throws (Failed "Failed to synthesize concepts"
                   (ReferenceError "Cannot access 'partialGraph' before initialization")).
Proof.
  intros. split; [|split].
  - vm_compute. reflexivity.
  - vm_compute. reflexivity.
  - unfold synthesizeConcepts_parse.
    replace (match1 no_flags conceptNameRegex 1 unity_response)
      with (Returns (Some (js "Henology"))) by (vm_compute; reflexivity).
    replace (match1 flags_i (headingRegex (js "Описание")) 1 unity_response)
      with (Returns (Some (js "The one and the many." ++ nl))) by (vm_compute; reflexivity).
    replace (parse_categories unity_response)
      with (@Returns (list CategoryDraft) []) by (vm_compute; reflexivity).
    replace (parse_connections unity_response)
      with (Returns [ mkConnectionDraft (js "Unity") (js "Multiplicity") (js "causal")
                                        (js "directed") (js "grounds") [] ])
      by (vm_compute; reflexivity).
    reflexivity.
Qed.

(** Whenever a connection is read the construction of the graph throws. *)
Lemma build_partialGraph_throws (name description : jsstring)
    (newCategories : list CategoryDraft) (conn : ConnectionDraft)
    (others : list ConnectionDraft) :
  build_partialGraph name description newCategories (conn :: others)
  = Throws (ReferenceError "Cannot access 'partialGraph' before initialization").
Proof. reflexivity. Qed.

(** ** The gateway: cache key, cache hit *)

Section GatewayProperties.

Variable sha256_hex : jsstring -> jsstring.
Variable claude : list ClaudeApiRequest -> ClaudeApiRequest -> option ClaudeApiResponse * Z.
Variable model : jsstring.

Lemma cache_key_of_prompt (a b : SendArgs) :
  prompt a = prompt b -> cache_key sha256_hex a = cache_key sha256_hex b.
Proof. unfold cache_key, generatePromptHash. intros ->. reflexivity. Qed.

(** A live entry under the key of the call is returned at once, and the
    world is left as it was. *)
Lemma sendRequest_hit (a : SendArgs) (w : world) (r : ApiResult) (expires : option Z) :
  useCaching a = true ->
  redis_up w = true ->
  redis_responses w !! cache_key sha256_hex a = Some (r, expires) ->
  live (clock w) expires = true ->
  sendRequest sha256_hex claude model a w = (Returns r, w).
Proof.
  intros Hc Hup Hentry Hlive.
  unfold sendRequest, checkCache. rewrite Hc, Hup.
  unfold cache_key in Hentry. rewrite Hentry, Hlive. reflexivity.
Qed.

(** A call that misses the cache and succeeds leaves its result under its
    key; the entry has no lifetime. *)
Lemma sendRequest_miss_populates (a : SendArgs) (w w1 : world) (r : ApiResult) :
  useCaching a = true ->
  redis_up w = true ->
  checkCache (generatePromptHash sha256_hex (prompt a)) w = None ->
  sendRequest sha256_hex claude model a w = (Returns r, w1) ->
  redis_up w1 = true
  /\ redis_responses w1 !! cache_key sha256_hex a = Some (r, None).
Proof.
  intros Hc Hup Hmiss Hcall.
  unfold sendRequest in Hcall. rewrite Hc, Hmiss in Hcall.
  unfold post in Hcall.
  destruct (claude (api_calls w) _) as [[reply|] elapsed]; [|discriminate].
  injection Hcall as <- <-.
  unfold logInteraction, cacheResponse; simpl. rewrite Hup.
  destruct (db_up w); simpl; (split; [reflexivity|]);
    unfold cache_key, generatePromptHash; apply lookup_insert_eq.
Qed.

End GatewayProperties.

(** C3, as the code has it. The cache key is a digest of the prompt text
    alone: two calls with the same prompt have the same key whatever their
    maxTokens and temperature, and a call with caching enabled is served
    the live entry stored under that key by the other. *)
Theorem cache_key_depends_on_prompt_only :
  forall (sha256_hex : jsstring -> jsstring)
         (claude : list ClaudeApiRequest -> ClaudeApiRequest -> option ClaudeApiResponse * Z)
         (model : jsstring) (a b : SendArgs),
    prompt a = prompt b ->
    cache_key sha256_hex a = cache_key sha256_hex b
    /\ forall (w : world) (r : ApiResult) (expires : option Z),
         useCaching b = true ->
         redis_up w = true ->
         redis_responses w !! cache_key sha256_hex a = Some (r, expires) ->
         live (clock w) expires = true ->
         sendRequest sha256_hex claude model b w = (Returns r, w).
Proof.
  intros sha256_hex claude model a b Hp. split.
  - apply cache_key_of_prompt, Hp.
  - intros w r expires Hc Hup Hentry Hlive.
    apply sendRequest_hit with (expires := expires); auto.
    rewrite <- (cache_key_of_prompt sha256_hex a b Hp). exact Hentry.
Qed.

Lemma cache_key_depends_on_prompt_only_witness :
  cache_key sample_digest (sample_args 4000 (7 # 10))
  = cache_key sample_digest (sample_args 8000 (8 # 10))
  /\ forall (w : world) (r : ApiResult) (expires : option Z),
       useCaching (sample_args 8000 (8 # 10)) = true ->
       redis_up w = true ->
       redis_responses w !! cache_key sample_digest (sample_args 4000 (7 # 10))
       = Some (r, expires) ->
       live (clock w) expires = true ->
       sendRequest sample_digest sample_claude (js "claude-3-opus-20240229")
                   (sample_args 8000 (8 # 10)) w = (Returns r, w).
Proof.
  apply (cache_key_depends_on_prompt_only sample_digest sample_claude
           (js "claude-3-opus-20240229")
           (sample_args 4000 (7 # 10)) (sample_args 8000 (8 # 10))).
  reflexivity.
Defined.

(** C3, as stated, fails: whatever the digest, two calls with the same
    prompt and different maxTokens and temperature have the same key. *)
Lemma cache_key_ignores_limits :
  ~ exists sha256_hex : jsstring -> jsstring,
      forall a b : SendArgs,
        prompt a = prompt b ->
        (maxTokens a <> maxTokens b \/ temperature a <> temperature b) ->
        cache_key sha256_hex a <> cache_key sha256_hex b.
Proof.
  intros [sha256_hex H].
  apply (H (sample_args 4000 (7 # 10)) (sample_args 8000 (8 # 10))).
  - reflexivity.
  - left. discriminate.
  - reflexivity.
Qed.

(** The second call of the pair is answered from the entry of the first. *)
Example second_call_served_other_entry :
  exists (r : ApiResult) (w1 : world),
    sendRequest sample_digest sample_claude (js "claude-3-opus-20240229")
                (sample_args 4000 (7 # 10)) sample_world = (Returns r, w1)
    /\ sendRequest sample_digest sample_claude (js "claude-3-opus-20240229")
                   (sample_args 8000 (8 # 10)) w1 = (Returns r, w1)
    /\ length (api_calls w1) = 1%nat.
Proof.
  eexists. eexists. split; [|split].
  - vm_compute. reflexivity.
  - vm_compute. reflexivity.
  - reflexivity.
Qed.

(** C4. Two calls with the same prompt, maxTokens and temperature and with
    caching enabled: when the first missed the cache, succeeded and stored
    its result, and the second comes less than an hour later, the second
    returns the result of the first (so the same
    tokensUsed), sends nothing to the model and appends nothing to the
    interaction log. *)
Theorem cache_hit_skips_model_and_log :
  forall (sha256_hex : jsstring -> jsstring)
         (claude : list ClaudeApiRequest -> ClaudeApiRequest -> option ClaudeApiResponse * Z)
         (model : jsstring) (a b : SendArgs) (w w1 : world) (r1 : ApiResult) (elapsed : Z),
    prompt b = prompt a -> maxTokens b = maxTokens a -> temperature b = temperature a ->
    useCaching a = true -> useCaching b = true ->
    redis_up w = true ->
    checkCache (generatePromptHash sha256_hex (prompt a)) w = None ->
    sendRequest sha256_hex claude model a w = (Returns r1, w1) ->
    (0 <= elapsed < 3600 * 1000)%Z ->
    exists (r2 : ApiResult) (w2 : world),
      sendRequest sha256_hex claude model b (later elapsed w1) = (Returns r2, w2)
      /\ tokensUsed r2 = tokensUsed r1
      /\ r2 = r1
      /\ api_calls w2 = api_calls w1
      /\ interactions w2 = interactions w1
      /\ w2 = later elapsed w1.
Proof.
  intros sha256_hex claude model a b w w1 r1 elapsed Hp _ _ Ha Hb Hup Hmiss Hcall Hel.
  destruct (sendRequest_miss_populates sha256_hex claude model a w w1 r1 Ha Hup Hmiss Hcall)
    as [Hup1 Hentry].
  exists r1, (later elapsed w1).
  split; [|repeat split; reflexivity].
  apply sendRequest_hit with (expires := None); auto.
  rewrite (cache_key_of_prompt sha256_hex b a Hp). exact Hentry.
Qed.

Lemma cache_hit_skips_model_and_log_witness :
  exists (r2 : ApiResult) (w2 : world),
    sendRequest sample_digest sample_claude (js "claude-3-opus-20240229")
                (sample_args 4000 (7 # 10))
                (later 5000
                   (snd (sendRequest sample_digest sample_claude (js "claude-3-opus-20240229")
                                     (sample_args 4000 (7 # 10)) sample_world)))
    = (Returns r2, w2)
    /\ tokensUsed r2 = tokensUsed (mkResult (js "answer") 30)
    /\ r2 = mkResult (js "answer") 30
    /\ api_calls w2
       = api_calls (snd (sendRequest sample_digest sample_claude (js "claude-3-opus-20240229")
                                     (sample_args 4000 (7 # 10)) sample_world))
    /\ interactions w2
       = interactions (snd (sendRequest sample_digest sample_claude
                                        (js "claude-3-opus-20240229")
                                        (sample_args 4000 (7 # 10)) sample_world))
    /\ w2 = later 5000
              (snd (sendRequest sample_digest sample_claude (js "claude-3-opus-20240229")
                                (sample_args 4000 (7 # 10)) sample_world)).
Proof.
  apply (cache_hit_skips_model_and_log sample_digest sample_claude
           (js "claude-3-opus-20240229")
           (sample_args 4000 (7 # 10)) (sample_args 4000 (7 # 10)) sample_world).
  - reflexivity.
  - reflexivity.
  - reflexivity.
  - reflexivity.
  - reflexivity.
  - reflexivity.
  - vm_compute. reflexivity.
  - vm_compute. reflexivity.
  - lia.
Defined.

(** ** The template store *)

Lemma read_template_set_templates (w : world) (ts : gmap jsstring PromptTemplate)
    (name : jsstring) :
  Store.read_template (Store.set_templates w ts) name = Store.read_template w name.
Proof. reflexivity. Qed.

Lemma read_template_broken (w : world) (name : jsstring) :
  broken w name -> exists e, Store.read_template w name = Throws e.
Proof.
  unfold Store.read_template. intros [H|H]; rewrite H; eauto.
Qed.

(** Loading stops at the first file that is missing or malformed; what
    was read before it stays in the map, nothing else changes. *)
Lemma load_files_broken (names : list jsstring) :
  forall (w : world) (bad : jsstring),
    In bad names -> broken w bad ->
    exists (e : error) (w' : world),
      Store.load_files names w = (Throws e, w')
      /\ files w' = files w /\ templatesLoaded w' = templatesLoaded w
      /\ redis_up w' = redis_up w /\ redis_templates w' = redis_templates w.
Proof.
  induction names as [|name others IH]; intros w bad Hin Hbad; [destruct Hin|].
  simpl. destruct (Store.read_template w name) as [t|e|] eqn:E.
  - destruct Hin as [->|Hin].
    + destruct (read_template_broken w bad Hbad) as [e He]. congruence.
    + destruct (IH (Store.set_templates w (<[name := t]> (templates w))) bad Hin Hbad)
        as (e & w' & Hl & Hf & Ht & Hu & Hr).
      exists e, w'. repeat split; assumption.
  - exists e, w. repeat split.
  - destruct Hin as [->|Hin].
    + destruct (read_template_broken w bad Hbad) as [e He]. congruence.
    + unfold Store.read_template in E.
      destruct (files w !! (name ++ js ".json")) as [[|]|]; discriminate.
Qed.

(** C8, as the code has it. Loading is all or nothing: when nothing is
    loaded yet, Redis holds no copy and the file of one template of the set
    is missing or malformed, getTemplate throws for every name, also for
    the templates whose files are intact, and the store stays unloaded, so
    that every later call fails in the same way. *)
Theorem broken_template_fails_every_lookup :
  forall (w : world) (bad : jsstring),
    cold w -> In bad Store.templateFiles -> broken w bad ->
    forall name : jsstring,
      exists (e : error) (w' : world),
        Store.getTemplate name w
        = (Throws (Failed "Failed to load prompt templates" e), w')
        /\ cold w' /\ files w' = files w.
Proof.
  intros w bad (Hl & Hup & Hr) Hin Hbad name.
  destruct (load_files_broken Store.templateFiles w bad Hin Hbad)
    as (e & w' & Hload & Hf & Ht & Hu & Hrt).
  exists e, w'.
  unfold Store.getTemplate, Store.loadTemplates, Store.loadTemplates_body,
    Store.redis_get_templates.
  rewrite Hl, Hup, Hr, Hload.
  split; [reflexivity|]. split; [|exact Hf].
  unfold cold. rewrite Ht, Hu, Hrt. auto.
Qed.

Lemma broken_template_fails_every_lookup_witness :
  exists (e : error) (w' : world),
    Store.getTemplate (js "graph_validation") one_missing_world
    = (Throws (Failed "Failed to load prompt templates" e), w')
    /\ cold w' /\ files w' = files one_missing_world.
Proof.
  apply (broken_template_fails_every_lookup one_missing_world (js "concept_evolution")).
  - repeat split.
  - unfold Store.templateFiles. do 11 right. left. reflexivity.
  - left. vm_compute. reflexivity.
Defined.

(** With every file in place the templates load and are retrievable. *)
Example all_present_retrievable :
  fst (Store.getTemplate (js "graph_validation") all_present_world)
  = Returns (Some (plain_template (js "graph_validation")))
  /\ templatesLoaded (snd (Store.getTemplate (js "graph_validation") all_present_world))
     = true.
Proof. split; vm_compute; reflexivity. Qed.

(** C8, as stated, fails: the file of concept_evolution is missing, the
    file of graph_validation is well formed, and graph_validation cannot be
    retrieved. *)
Lemma intact_template_not_retrievable :
  files one_missing_world !! (js "concept_evolution" ++ js ".json") = None
  /\ files one_missing_world !! (js "graph_validation" ++ js ".json")
     = Some (WellFormed (plain_template (js "graph_validation")))
  /\ fst (Store.getTemplate (js "graph_validation") one_missing_world)
     = Throws (Failed "Failed to load prompt templates"
                 (ErrorMsg "ENOENT: no such file or directory")).
Proof. repeat split; vm_compute; reflexivity. Qed.

(** ** Responses without markers *)

Section EngineFacts.

Variable fl : flags.

Lemma upper_unit_hash (a : N) : upper_unit a = 35 -> a = 35.
Proof.
  unfold upper_unit.
  repeat match goal with
         | |- context [?x <=? ?y] =>
             destruct (N.leb_spec x y); simpl
         | |- context [?x =? ?y] =>
             destruct (N.eqb_spec x y); simpl
         end; lia.
Qed.

Lemma canonicalize_hash (a : N) : a <> 35 -> canonicalize fl a <> canonicalize fl 35.
Proof.
  unfold canonicalize. destruct (ignoreCase fl); [|auto].
  intros Ha H. apply Ha, upper_unit_hash. rewrite H. reflexivity.
Qed.

(** A pattern that starts with a given code unit fails where the input
    does not start with it. *)
Lemma rmatch_leading (r : regex) (u : N) :
  leading_unit r = Some u ->
  forall (x : mstate) (c : mstate -> mresult),
    match rest x with
    | [] => True
    | a :: _ => canonicalize fl a <> canonicalize fl u
    end ->
    rmatch fl r x c = Failure.
Proof.
  induction r; simpl; intros Hl x k Hx; try discriminate.
  - injection Hl as ->. destruct (rest x) as [|a t]; [reflexivity|].
    destruct (N.eqb_spec (canonicalize fl a) (canonicalize fl u)); [contradiction|reflexivity].
  - apply IHr1; assumption.
  - apply IHr; assumption.
Qed.

Lemma includes_unit_cons (a u : N) (t : jsstring) :
  includes (a :: t) [u] = false -> a <> u /\ includes t [u] = false.
Proof.
  simpl. intros H. apply orb_false_iff in H as [H1 H2].
  destruct (N.eqb_spec u a); [discriminate|]. split; [congruence|exact H2].
Qed.

Lemma search_hash_free (r : regex) (ncaps : nat) :
  leading_unit r = Some 35 ->
  forall (s : jsstring) (p : nat) (pv : option N),
    includes s [35] = false ->
    search fl r ncaps p pv s = NoMatch.
Proof.
  intros Hl. induction s as [|a t IH]; intros p pv Hs; simpl; unfold match_at.
  - rewrite (rmatch_leading r 35 Hl); simpl; auto.
  - apply includes_unit_cons in Hs as [Ha Ht].
    rewrite (rmatch_leading r 35 Hl); simpl; [apply IH; exact Ht|].
    apply canonicalize_hash, Ha.
Qed.

Lemma search_NoMatch_inv (r : regex) (ncaps : nat) (p : nat) (pv : option N) (s : jsstring) :
  search fl r ncaps p pv s = NoMatch ->
  match_at fl r ncaps p pv s = NoMatch
  /\ match s with
     | [] => True
     | c :: t => search fl r ncaps (S p) (Some c) t = NoMatch
     end.
Proof.
  destruct s as [|c t]; simpl; destruct (match_at fl r ncaps p pv _); intros H;
    try discriminate; auto.
Qed.

(** Where the pattern matches nowhere the [exec] loop ends at once ... *)
Lemma exec_all_go_NoMatch (r : regex) (ncaps : nat) :
  forall (s : jsstring) (p : nat) (pv : option N),
    search fl r ncaps p pv s = NoMatch ->
    exec_all_go fl r ncaps O p pv s = Some [].
Proof.
  induction s as [|c t IH]; intros p pv H; apply search_NoMatch_inv in H as [H1 H2];
    simpl; rewrite H1; [reflexivity|apply IH, H2].
Qed.

(** ... and [split] returns the string in one piece. *)
Lemma split_go_NoMatch (r : regex) :
  forall (s : jsstring) (piece : jsstring) (p : nat) (pv : option N),
    search fl r O p pv s = NoMatch ->
    split_go fl r O piece p pv s = Some [rev piece ++ s].
Proof.
  induction s as [|c t IH]; intros piece p pv H; simpl.
  - rewrite app_nil_r. reflexivity.
  - apply search_NoMatch_inv in H as [H1 H2]. rewrite H1.
    rewrite (IH (c :: piece) _ _ H2). simpl. rewrite <- app_assoc. reflexivity.
Qed.

Lemma split_NoMatch (r : regex) (s : jsstring) :
  exec fl r O s = NoMatch -> split fl r s = Some [s].
Proof.
  unfold exec, split. intros H. destruct s as [|c t].
  - apply search_NoMatch_inv in H as [H1 _]. rewrite H1. reflexivity.
  - apply (split_go_NoMatch r (c :: t) [] O None H).
Qed.

End EngineFacts.

Section FailureTransfer.

Variables fl1 fl2 : flags.

Lemma same_place_advance (x x' : mstate) :
  same_place x x' -> same_place (advance x) (advance x').
Proof.
  intros (Hp & Hv & Hr). unfold advance. rewrite <- Hr.
  destruct (rest x) eqn:E; repeat split; simpl; congruence.
Qed.

Lemma or_else_Failure (z : mresult) (alt : unit -> mresult) :
  or_else z alt = Failure <-> z = Failure /\ alt tt = Failure.
Proof.
  unfold or_else. destruct z; split; intros H; try discriminate; auto;
    destruct H; try discriminate; auto.
Qed.

Lemma repeat_matcher_transfer (m m' : mstate -> (mstate -> mresult) -> mresult)
    (ps : list nat) (greedy : bool) :
  (forall x x' c c', same_place x x' -> transfers c c' ->
                     m x c = Failure -> m' x' c' = Failure) ->
  forall (fuel min : nat) (max : option nat) (x x' : mstate) (c c' : mstate -> mresult),
    same_place x x' -> transfers c c' ->
    repeat_matcher m ps greedy fuel min max x c = Failure ->
    repeat_matcher m' ps greedy fuel min max x' c' = Failure.
Proof.
  intros Hm. induction fuel as [|fuel IH]; intros min max x x' c c' Hx Hc; simpl;
    [discriminate|].
  assert (Hd : transfers
            (fun y => if Nat.eqb min 0 && Nat.eqb (pos y) (pos x) then Failure
                      else repeat_matcher m ps greedy fuel (Nat.pred min) (pred_max max) y c)
            (fun y => if Nat.eqb min 0 && Nat.eqb (pos y) (pos x') then Failure
                      else repeat_matcher m' ps greedy fuel (Nat.pred min) (pred_max max) y c')).
  { intros y y' Hy. destruct Hx as (Hxp & _), Hy as (Hyp & Hyv & Hyr).
    rewrite <- Hxp, <- Hyp.
    destruct (Nat.eqb min 0 && Nat.eqb (pos y) (pos x)); [auto|].
    apply IH; [repeat split; assumption|exact Hc]. }
  assert (Hxr : same_place (clear_caps ps x) (clear_caps ps x')).
  { destruct Hx as (? & ? & ?). repeat split; assumption. }
  assert (Hbody :
    (if negb (Nat.eqb min 0) then m (clear_caps ps x) (fun y =>
          if Nat.eqb min 0 && Nat.eqb (pos y) (pos x) then Failure
          else repeat_matcher m ps greedy fuel (Nat.pred min) (pred_max max) y c)
     else if greedy then or_else (m (clear_caps ps x) (fun y =>
          if Nat.eqb min 0 && Nat.eqb (pos y) (pos x) then Failure
          else repeat_matcher m ps greedy fuel (Nat.pred min) (pred_max max) y c))
                                 (fun _ => c x)
     else or_else (c x) (fun _ => m (clear_caps ps x) (fun y =>
          if Nat.eqb min 0 && Nat.eqb (pos y) (pos x) then Failure
          else repeat_matcher m ps greedy fuel (Nat.pred min) (pred_max max) y c)))
    = Failure ->
    (if negb (Nat.eqb min 0) then m' (clear_caps ps x') (fun y =>
          if Nat.eqb min 0 && Nat.eqb (pos y) (pos x') then Failure
          else repeat_matcher m' ps greedy fuel (Nat.pred min) (pred_max max) y c')
     else if greedy then or_else (m' (clear_caps ps x') (fun y =>
          if Nat.eqb min 0 && Nat.eqb (pos y) (pos x') then Failure
          else repeat_matcher m' ps greedy fuel (Nat.pred min) (pred_max max) y c'))
                                 (fun _ => c' x')
     else or_else (c' x') (fun _ => m' (clear_caps ps x') (fun y =>
          if Nat.eqb min 0 && Nat.eqb (pos y) (pos x') then Failure
          else repeat_matcher m' ps greedy fuel (Nat.pred min) (pred_max max) y c')))
    = Failure).
  { destruct (negb (Nat.eqb min 0)); [apply Hm; assumption|].
    destruct greedy; rewrite !or_else_Failure; intros [H1 H2]; split;
      first [ exact (Hm _ _ _ _ Hxr Hd H1) | exact (Hm _ _ _ _ Hxr Hd H2)
            | exact (Hc _ _ Hx H1) | exact (Hc _ _ Hx H2) ]. }
  destruct max as [[|n]|]; [apply Hc, Hx|exact Hbody|exact Hbody].
Qed.

Local Arguments repeat_matcher : simpl never.

(** A pattern without lookahead that fails at a place, whatever follows
    it, fails there under flags that read it in the same way. *)
Lemma failure_transfer (r : regex) :
  same_reading fl1 fl2 r = true ->
  forall (x x' : mstate) (c c' : mstate -> mresult),
    same_place x x' -> transfers c c' ->
    rmatch fl1 r x c = Failure -> rmatch fl2 r x' c' = Failure.
Proof.
  induction r; simpl; intros Hs x x' k k' Hx Hk.
  - apply Hk, Hx.
  - apply eqb_prop in Hs. unfold canonicalize. rewrite <- Hs.
    destruct Hx as (Hp & Hv & Hr). rewrite <- Hr.
    destruct (rest x) as [|a t] eqn:E; [auto|].
    destruct (_ =? _); [|auto].
    apply Hk, same_place_advance. repeat split; congruence.
  - assert (Hcl : forall a, class_mem fl1 cl a = class_mem fl2 cl a).
    { intros a. destruct cl; simpl; try reflexivity.
      apply eqb_prop in Hs. rewrite Hs. reflexivity. }
    destruct Hx as (Hp & Hv & Hr). rewrite <- Hr.
    destruct (rest x) as [|a t] eqn:E; [auto|]. rewrite <- Hcl.
    destruct (class_mem fl1 cl a); [|auto].
    apply Hk, same_place_advance. repeat split; congruence.
  - apply andb_prop in Hs as [Hs1 Hs2].
    apply IHr1; [exact Hs1|exact Hx|].
    intros y y' Hy. apply IHr2; assumption.
  - apply andb_prop in Hs as [Hs1 Hs2].
    rewrite !or_else_Failure. intros [H1 H2]. split.
    + eapply IHr1; eassumption.
    + eapply IHr2; eassumption.
  - destruct Hx as (Hp & Hv & Hr). rewrite <- Hr.
    apply repeat_matcher_transfer; [|repeat split; assumption|exact Hk].
    intros y y' d d'. apply IHr, Hs.
  - apply IHr; [exact Hs|exact Hx|].
    intros y y' Hy. destruct Hx as (Hp & Hv & Hr), Hy as (Hyp & Hyv & Hyr).
    rewrite <- Hp, <- Hr, <- Hyp. apply Hk. repeat split; assumption.
  - discriminate.
  - apply eqb_prop in Hs. pose proof Hx as (Hp & Hv & Hr).
    unfold at_bol. rewrite <- Hv, <- Hs. destruct (prev x) as [a|].
    + destruct (multiline fl1 && is_line_terminator a); [apply Hk, Hx|auto].
    + apply Hk, Hx.
  - apply eqb_prop in Hs. pose proof Hx as (Hp & Hv & Hr).
    unfold at_eol. rewrite <- Hr, <- Hs. destruct (rest x) as [|a t].
    + apply Hk, Hx.
    + destruct (multiline fl1 && is_line_terminator a); [apply Hk, Hx|auto].
Qed.

End FailureTransfer.

Lemma search_transfer (fl1 fl2 : flags) (r1 r2 : regex) (n1 n2 : nat) :
  (forall p pv s, match_at fl1 r1 n1 p pv s = NoMatch ->
                  match_at fl2 r2 n2 p pv s = NoMatch) ->
  forall (s : jsstring) (p : nat) (pv : option N),
    search fl1 r1 n1 p pv s = NoMatch -> search fl2 r2 n2 p pv s = NoMatch.
Proof.
  intros Hm. induction s as [|c t IH]; intros p pv H;
    apply search_NoMatch_inv in H as [H1 H2]; simpl; rewrite (Hm _ _ _ H1); auto.
Qed.

Lemma match_at_NoMatch (fl : flags) (r : regex) (n p : nat) (pv : option N) (s : jsstring) :
  match_at fl r n p pv s = NoMatch
  <-> rmatch fl r (mkState p pv s (replicate (S n) None)) Matched = Failure.
Proof.
  unfold match_at. destruct (rmatch fl r _ Matched); split; intros H;
    try discriminate; reflexivity.
Qed.

(** A pattern [a b c ...] fails where [a b c] fails. *)
Lemma failure_transfer_prefix (fl1 fl2 : flags) (a b c tail : regex)
    (x x' : mstate) (k : mstate -> mresult) :
  same_reading fl1 fl2 a = true -> same_reading fl1 fl2 b = true ->
  same_reading fl1 fl2 c = true ->
  same_place x x' ->
  rmatch fl1 (RSeq a (RSeq b c)) x Matched = Failure ->
  rmatch fl2 (RSeq a (RSeq b (RSeq c tail))) x' k = Failure.
Proof.
  intros Ha Hb Hc Hx. simpl.
  apply (failure_transfer fl1 fl2 a Ha); [exact Hx|].
  intros y y' Hy. apply (failure_transfer fl1 fl2 b Hb); [exact Hy|].
  intros z z' Hz. apply (failure_transfer fl1 fl2 c Hc); [exact Hz|].
  intros u u' _ Hu. discriminate.
Qed.

Lemma thesisRegex_shape :
  exists tail : regex,
    thesisRegex = RSeq RBol (RSeq (plus digit) (RSeq (ch ".") (RSeq (plus space) tail))).
Proof. eexists. reflexivity. Qed.

(** No thesis starts where no numbered-list marker does. *)
Lemma thesis_needs_marker (p : nat) (pv : option N) (s : jsstring) :
  match_at no_flags sectionSplitRegex 0 p pv s = NoMatch ->
  match_at flags_ms thesisRegex 3 p pv s = NoMatch.
Proof.
  rewrite !match_at_NoMatch. destruct thesisRegex_shape as [tail ->].
  change sectionSplitRegex with (RSeq (plus digit) (RSeq (ch ".") (plus space))).
  intros H.
  change (rmatch flags_ms (RSeq RBol ?r) ?x ?k)
    with (if at_bol flags_ms x then rmatch flags_ms r x k else Failure).
  destruct (at_bol flags_ms _); [|reflexivity].
  eapply (failure_transfer_prefix no_flags flags_ms); [reflexivity..| |exact H].
  repeat split.
Qed.

Section MarkerFree.

Variable response : jsstring.
Hypothesis Hfree : marker_free response = true.

Lemma marker_free_hash : includes response [35] = false.
Proof using Hfree.
  unfold marker_free in Hfree. apply andb_prop in Hfree as [H _].
  apply negb_true_iff in H. exact H.
Qed.

Lemma marker_free_numbered : exec no_flags sectionSplitRegex 0 response = NoMatch.
Proof using Hfree.
  unfold marker_free in Hfree. apply andb_prop in Hfree as [_ H].
  destruct (exec no_flags sectionSplitRegex 0 response); try discriminate. reflexivity.
Qed.

Lemma exec_heading (fl : flags) (r : regex) (n : nat) :
  leading_unit r = Some 35 -> exec fl r n response = NoMatch.
Proof using Hfree.
  intros Hl. apply search_hash_free; [exact Hl|exact marker_free_hash].
Qed.

Lemma match1_heading (fl : flags) (r : regex) (n : nat) :
  leading_unit r = Some 35 -> match1 fl r n response = Returns None.
Proof using Hfree. intros Hl. unfold match1. rewrite exec_heading; auto. Qed.

Lemma text_section_heading (r : regex) (otherwise : jsstring) :
  leading_unit r = Some 35 -> text_section r response otherwise = Returns otherwise.
Proof using Hfree. intros Hl. unfold text_section. rewrite match1_heading; auto. Qed.

Lemma bullet_section_heading (r : regex) (otherwise : list jsstring) :
  leading_unit r = Some 35 -> bullet_section r response otherwise = Returns otherwise.
Proof using Hfree. intros Hl. unfold bullet_section. rewrite match1_heading; auto. Qed.

Lemma element_section_heading (heading : jsstring) (kind : CompatibilityKind) :
  element_section heading kind response = Returns [].
Proof using Hfree.
  unfold element_section. rewrite match1_heading; [reflexivity|reflexivity].
Qed.

Lemma dimension_heading (heading : jsstring) : dimension heading response = Returns None.
Proof using Hfree.
  unfold dimension, match_groups. rewrite exec_heading; reflexivity.
Qed.

Lemma validateGraph_marker_free :
  validateGraph_parse response = Returns (mkValidation response [] [] []).
Proof using Hfree.
  apply validateGraph_short with (sections := [response]).
  - apply split_NoMatch, marker_free_numbered.
  - simpl. lia.
Qed.

Lemma enrichCategory_marker_free :
  enrichCategory_parse response = Returns (mkEnrichment response [] [] []).
Proof using Hfree.
  unfold enrichCategory_parse.
  rewrite text_section_heading, !bullet_section_heading; reflexivity.
Qed.

Lemma enrichConnection_marker_free :
  enrichConnection_parse response = Returns (mkEnrichment response [] [] []).
Proof using Hfree.
  unfold enrichConnection_parse.
  rewrite text_section_heading, !bullet_section_heading; reflexivity.
Qed.

Lemma generateTheses_marker_free (g : ConceptGraph) (parameters : ThesisGenerationParams) :
  generateTheses_parse g parameters response = Returns [].
Proof using Hfree.
  unfold generateTheses_parse, exec_all.
  rewrite (exec_all_go_NoMatch flags_ms thesisRegex 3 response O None); [reflexivity|].
  apply (search_transfer no_flags flags_ms sectionSplitRegex thesisRegex 0 3
           thesis_needs_marker).
  exact marker_free_numbered.
Qed.

Lemma developThesis_marker_free (thesis : Thesis) :
  developThesis_parse thesis response
  = Returns (mkDevelopment (thesis_text thesis) [] [] [] []).
Proof using Hfree.
  unfold developThesis_parse. rewrite !text_section_heading; reflexivity.
Qed.

Lemma analyseSynthesisCompatibility_marker_free :
  analyseSynthesisCompatibility_parse response = Returns (mkCompatibility [] [] [] []).
Proof using Hfree.
  unfold analyseSynthesisCompatibility_parse.
  rewrite !element_section_heading, match1_heading; reflexivity.
Qed.

Lemma synthesizeConcepts_marker_free (user : jsstring) (concepts : list Concept)
    (method : jsstring) (parameters : SynthesisParams) :
  synthesizeConcepts_parse user concepts method parameters response
  = Returns
      (mkSynthesisResult
         (mkConcept [] user (js "Синтез: " ++ join (js " + ") (List.map c_name concepts)) []
                    true (List.map c_concept_id concepts) (Some method)
                    (sp_focus_area parameters))
         (mkGraph [] (js "Синтез: " ++ join (js " + ") (List.map c_name concepts)) [] [] [])
         (mkSynthesisMeta [] [] (List.map c_concept_id concepts) method
                          (sp_innovation_level parameters) (sp_abstraction_level parameters)
                          (sp_historical_context parameters)
                          (sp_target_application parameters))
         [] []).
Proof using Hfree.
  unfold synthesizeConcepts_parse, parse_categories, parse_connections.
  rewrite !match1_heading; reflexivity.
Qed.

Lemma criticallyAnalyzeSynthesis_marker_free :
  criticallyAnalyzeSynthesis_parse response
  = Returns (mkCritical (mkConsistency 0 [] None) (mkNovelty 0 [] None)
               (mkPreservation 0 [] None None) (mkResolution 0 [] None None) []).
Proof using Hfree.
  unfold criticallyAnalyzeSynthesis_parse.
  rewrite !dimension_heading, match1_heading; reflexivity.
Qed.

End MarkerFree.

(** C1, as the code has it. On a response that is empty or holds none of
    the structural markers, no parser throws and each returns its result
    with empty collections and default scores; the response is kept as
    the free text by validateGraph (general_analysis), by enrichCategory
    and enrichConnection (extended_description) and by the four operations
    that return the text as it is, while generateTheses returns no thesis,
    analyseSynthesisCompatibility four empty lists, and developThesis,
    synthesizeConcepts and criticallyAnalyzeSynthesis leave their text
    fields empty (the synthesized concept gets the default name). *)
Theorem parsers_total_without_markers :
  forall response : jsstring,
    marker_free response = true ->
    validateGraph_parse response = Returns (mkValidation response [] [] [])
    /\ enrichCategory_parse response = Returns (mkEnrichment response [] [] [])
    /\ enrichConnection_parse response = Returns (mkEnrichment response [] [] [])
    /\ (forall g parameters, generateTheses_parse g parameters response = Returns [])
    /\ (forall thesis,
          developThesis_parse thesis response
          = Returns (mkDevelopment (thesis_text thesis) [] [] [] []))
    /\ analyseSynthesisCompatibility_parse response = Returns (mkCompatibility [] [] [] [])
    /\ (forall user concepts method parameters,
          exists result,
            synthesizeConcepts_parse user concepts method parameters response
            = Returns result
            /\ c_name (sr_concept result)
               = js "Синтез: " ++ join (js " + ") (List.map c_name concepts)
            /\ c_description (sr_concept result) = []
            /\ categories (sr_graph result) = []
            /\ connections (sr_graph result) = [])
    /\ criticallyAnalyzeSynthesis_parse response
       = Returns (mkCritical (mkConsistency 0 [] None) (mkNovelty 0 [] None)
                    (mkPreservation 0 [] None None) (mkResolution 0 [] None None) [])
    /\ historicalContextualize_parse response = Returns (mkText response)
    /\ practicalApplication_parse response = Returns (mkText response)
    /\ dialogicalInterpretation_parse response = Returns (mkText response)
    /\ conceptEvolution_parse response = Returns (mkText response).
Proof.
  intros response Hfree.
  split; [apply validateGraph_marker_free, Hfree|].
  split; [apply enrichCategory_marker_free, Hfree|].
  split; [apply enrichConnection_marker_free, Hfree|].
  split; [intros; apply generateTheses_marker_free, Hfree|].
  split; [intros; apply developThesis_marker_free, Hfree|].
  split; [apply analyseSynthesisCompatibility_marker_free, Hfree|].
  split.
  { intros user concepts method parameters. eexists. split.
    - apply synthesizeConcepts_marker_free, Hfree.
    - repeat split. }
  split; [apply criticallyAnalyzeSynthesis_marker_free, Hfree|].
  repeat split.
Qed.

Lemma parsers_total_without_markers_witness :
  validateGraph_parse (js "The graph is coherent.")
  = Returns (mkValidation (js "The graph is coherent.") [] [] [])
  /\ enrichCategory_parse (js "The graph is coherent.")
     = Returns (mkEnrichment (js "The graph is coherent.") [] [] [])
  /\ enrichConnection_parse (js "The graph is coherent.")
     = Returns (mkEnrichment (js "The graph is coherent.") [] [] [])
  /\ (forall g parameters,
        generateTheses_parse g parameters (js "The graph is coherent.") = Returns [])
  /\ (forall thesis,
        developThesis_parse thesis (js "The graph is coherent.")
        = Returns (mkDevelopment (thesis_text thesis) [] [] [] []))
  /\ analyseSynthesisCompatibility_parse (js "The graph is coherent.")
     = Returns (mkCompatibility [] [] [] [])
  /\ (forall user concepts method parameters,
        exists result,
          synthesizeConcepts_parse user concepts method parameters
                                   (js "The graph is coherent.")
          = Returns result
          /\ c_name (sr_concept result)
             = js "Синтез: " ++ join (js " + ") (List.map c_name concepts)
          /\ c_description (sr_concept result) = []
          /\ categories (sr_graph result) = []
          /\ connections (sr_graph result) = [])
  /\ criticallyAnalyzeSynthesis_parse (js "The graph is coherent.")
     = Returns (mkCritical (mkConsistency 0 [] None) (mkNovelty 0 [] None)
                  (mkPreservation 0 [] None None) (mkResolution 0 [] None None) [])
  /\ historicalContextualize_parse (js "The graph is coherent.")
     = Returns (mkText (js "The graph is coherent."))
  /\ practicalApplication_parse (js "The graph is coherent.")
     = Returns (mkText (js "The graph is coherent."))
  /\ dialogicalInterpretation_parse (js "The graph is coherent.")
     = Returns (mkText (js "The graph is coherent."))
  /\ conceptEvolution_parse (js "The graph is coherent.")
     = Returns (mkText (js "The graph is coherent.")).
Proof.
  apply (parsers_total_without_markers (js "The graph is coherent.")).
  vm_compute. reflexivity.
Defined.

(** The empty response is one without markers. *)
Lemma empty_response_marker_free : marker_free [] = true.
Proof. vm_compute. reflexivity. Qed.

(** C1, as stated, fails: on a response without markers
    criticallyAnalyzeSynthesis returns empty analysis texts, and
    developThesis empty sections; the response is in no field of the
    result. *)
Lemma critical_analysis_drops_response :
  marker_free (js "The synthesis is coherent.") = true
  /\ js "The synthesis is coherent." <> []
  /\ (exists result,
        criticallyAnalyzeSynthesis_parse (js "The synthesis is coherent.") = Returns result
        /\ ic_analysis (internal_consistency result) = []
        /\ pn_analysis (philosophical_novelty result) = []
        /\ pv_analysis (preservation_of_value result) = []
        /\ cr_analysis (contradiction_resolution result) = []
        /\ potential_issues result = [])
  /\ (forall thesis,
        developThesis_parse thesis (js "The synthesis is coherent.")
        = Returns (mkDevelopment (thesis_text thesis) [] [] [] [])).
Proof.
  split; [vm_compute; reflexivity|].
  split; [vm_compute; discriminate|].
  split.
  - eexists. split; [vm_compute; reflexivity|]. repeat split.
  - intros thesis. apply developThesis_marker_free. vm_compute. reflexivity.
Qed.

(** ** The fuel of the matcher is enough *)

Section Fuel.

Variable fl : flags.

Lemma extends_refl (x : mstate) : extends x x.
Proof. split; lia. Qed.

Lemma extends_trans (x y z : mstate) : extends x y -> extends y z -> extends x z.
Proof. intros [? ?] [? ?]. split; lia. Qed.

Lemma extends_advance (x : mstate) : extends x (advance x).
Proof.
  unfold advance, extends. destruct (rest x) as [|a t] eqn:E; simpl; [rewrite E; simpl|]; lia.
Qed.

Lemma extends_same_place (x x' y : mstate) :
  pos x' = pos x -> rest x' = rest x -> extends x' y -> extends x y.
Proof. unfold extends. intros -> ->. auto. Qed.

Lemma or_else_not_exhausted (z : mresult) (alt : unit -> mresult) :
  z <> Exhausted -> alt tt <> Exhausted -> or_else z alt <> Exhausted.
Proof. destruct z; simpl; auto. Qed.

Lemma repeat_matcher_not_exhausted (m : mstate -> (mstate -> mresult) -> mresult)
    (ps : list nat) (greedy : bool) :
  (forall x c, (forall y, extends x y -> c y <> Exhausted) -> m x c <> Exhausted) ->
  forall (fuel min : nat) (max : option nat) (x : mstate) (c : mstate -> mresult),
    (min + length (rest x) < fuel)%nat ->
    (forall y, extends x y -> c y <> Exhausted) ->
    repeat_matcher m ps greedy fuel min max x c <> Exhausted.
Proof.
  intros Hm. induction fuel as [|fuel IH]; intros min max x c Hfuel Hc; [lia|].
  assert (Hd : forall y, extends (clear_caps ps x) y ->
    (if Nat.eqb min 0 && Nat.eqb (pos y) (pos x) then Failure
     else repeat_matcher m ps greedy fuel (Nat.pred min) (pred_max max) y c) <> Exhausted).
  { intros y Hy. apply (extends_same_place x) in Hy; [|reflexivity..].
    destruct (Nat.eqb min 0 && Nat.eqb (pos y) (pos x)) eqn:E; [discriminate|].
    destruct Hy as [Hy1 Hy2]. apply IH.
    - apply andb_false_iff in E as [E|E].
      + apply Nat.eqb_neq in E. lia.
      + apply Nat.eqb_neq in E. lia.
    - intros z Hz. apply Hc. apply (extends_trans x y z); [split; assumption|exact Hz]. }
  simpl. destruct max as [[|n]|].
  - apply Hc, extends_refl.
  - destruct (negb (Nat.eqb min 0)); [apply Hm, Hd|].
    destruct greedy; apply or_else_not_exhausted;
      first [apply Hm, Hd | apply Hc, extends_refl].
  - destruct (negb (Nat.eqb min 0)); [apply Hm, Hd|].
    destruct greedy; apply or_else_not_exhausted;
      first [apply Hm, Hd | apply Hc, extends_refl].
Qed.

Local Arguments repeat_matcher : simpl never.

(** The matcher never runs out of fuel. *)
Lemma rmatch_not_exhausted (r : regex) :
  forall (x : mstate) (c : mstate -> mresult),
    (forall y, extends x y -> c y <> Exhausted) ->
    rmatch fl r x c <> Exhausted.
Proof.
  induction r; simpl; intros x k Hk.
  - apply Hk, extends_refl.
  - destruct (rest x) as [|a t] eqn:E; [discriminate|].
    destruct (_ =? _); [apply Hk, extends_advance|discriminate].
  - destruct (rest x) as [|a t] eqn:E; [discriminate|].
    destruct (class_mem fl cl a); [apply Hk, extends_advance|discriminate].
  - apply IHr1. intros y Hy. apply IHr2. intros z Hz.
    apply Hk, (extends_trans x y z); assumption.
  - apply or_else_not_exhausted; [apply IHr1, Hk|apply IHr2, Hk].
  - apply repeat_matcher_not_exhausted; [exact IHr|lia|exact Hk].
  - apply IHr. intros y Hy. apply Hk. exact Hy.
  - destruct (rmatch fl r x Matched) as [|y|] eqn:E.
    + discriminate.
    + apply Hk. split; simpl; lia.
    + exfalso. revert E. apply IHr. discriminate.
  - destruct (at_bol fl x); [apply Hk, extends_refl|discriminate].
  - destruct (at_eol fl x); [apply Hk, extends_refl|discriminate].
Qed.

Lemma match_at_not_OutOfFuel (r : regex) (n p : nat) (pv : option N) (s : jsstring) :
  match_at fl r n p pv s <> OutOfFuel.
Proof.
  unfold match_at.
  destruct (rmatch fl r _ Matched) eqn:E; try discriminate.
  exfalso. revert E. apply rmatch_not_exhausted. discriminate.
Qed.

Lemma search_not_OutOfFuel (r : regex) (n : nat) :
  forall (s : jsstring) (p : nat) (pv : option N), search fl r n p pv s <> OutOfFuel.
Proof.
  induction s as [|c t IH]; intros p pv; simpl;
    pose proof (match_at_not_OutOfFuel r n p pv) as H.
  - specialize (H []). destruct (match_at fl r n p pv []); congruence.
  - specialize (H (c :: t)).
    destruct (match_at fl r n p pv (c :: t)); [apply IH|discriminate|congruence].
Qed.

(** [split] always returns. *)
Lemma split_go_total (r : regex) :
  forall (s : jsstring) (skip : nat) (piece : jsstring) (p : nat) (pv : option N),
    is_Some (split_go fl r skip piece p pv s).
Proof.
  induction s as [|c t IH]; intros skip piece p pv; simpl; [eexists; reflexivity|].
  destruct skip as [|k]; [|apply IH].
  pose proof (match_at_not_OutOfFuel r O p pv (c :: t)) as H.
  destruct (match_at fl r O p pv (c :: t)) as [|m|]; [apply IH| |congruence].
  destruct (Nat.eqb (m_end m) p).
  - destruct piece; [apply IH|].
    destruct (IH O [c] (S p) (Some c)) as [out ->]. eexists. reflexivity.
  - destruct (IH (m_end m - p - 1)%nat [] (S p) (Some c)) as [out ->].
    eexists. reflexivity.
Qed.

Lemma split_total (r : regex) (s : jsstring) : is_Some (split fl r s).
Proof.
  unfold split. destruct s as [|c t]; [|apply split_go_total].
  pose proof (match_at_not_OutOfFuel r O O None []) as H.
  destruct (match_at fl r O O None []); try congruence; eexists; reflexivity.
Qed.

End Fuel.

(** [str.match(re)] always returns, with a match or with [null]. *)
Lemma match1_total (fl : flags) (r : regex) (n : nat) (s : jsstring) :
  exists found, match1 fl r n s = Returns found.
Proof.
  unfold match1, exec. pose proof (search_not_OutOfFuel fl r n s O None) as H.
  destruct (search fl r n O None s); try congruence; eexists; reflexivity.
Qed.

Lemma bullets_total (body : jsstring) : exists items, bullets body = Returns items.
Proof.
  unfold bullets, bullets_raw.
  destruct (split_total no_flags bulletRegex body) as [pieces ->].
  eexists. reflexivity.
Qed.

Lemma text_section_total (r : regex) (s otherwise : jsstring) :
  exists body, text_section r s otherwise = Returns body.
Proof.
  unfold text_section. destruct (match1_total flags_i r 1 s) as [[found|] ->];
    eexists; reflexivity.
Qed.

Lemma bullet_section_total (r : regex) (s : jsstring) (otherwise : list jsstring) :
  exists items, bullet_section r s otherwise = Returns items.
Proof.
  unfold bullet_section. destruct (match1_total flags_i r 1 s) as [[found|] ->].
  - apply bullets_total.
  - eexists. reflexivity.
Qed.

(** The enrichment parsers and developThesis return on every response. *)
Lemma enrichCategory_total (response : jsstring) :
  exists result, enrichCategory_parse response = Returns result.
Proof.
  unfold enrichCategory_parse.
  destruct (text_section_total (headingRegex (js "Расширенное описание")) response response)
    as [a ->].
  destruct (bullet_section_total (headingRegex (js "Альтернативные трактовки")) response [])
    as [b ->].
  destruct (bullet_section_total (headingRegex (js "Исторические аналоги")) response [])
    as [c ->].
  destruct (bullet_section_total (headingRegex (js "Связанные концепты")) response [])
    as [d ->].
  eexists. reflexivity.
Qed.

Lemma enrichConnection_total (response : jsstring) :
  exists result, enrichConnection_parse response = Returns result.
Proof.
  unfold enrichConnection_parse.
  destruct (text_section_total (headingRegex (js "Философское обоснование")) response response)
    as [a ->].
  destruct (bullet_section_total (headingRegex (js "Возможные контраргументы")) response [])
    as [b ->].
  destruct (bullet_section_total (headingRegex (js "Аналогичные связи")) response [])
    as [c ->].
  eexists. reflexivity.
Qed.

Lemma developThesis_total (thesis : Thesis) (response : jsstring) :
  exists result, developThesis_parse thesis response = Returns result.
Proof.
  unfold developThesis_parse.
  destruct (text_section_total (headingRegex (js "Философское обоснование")) response [])
    as [a ->].
  destruct (text_section_total (headingRegex (js "Возможные контраргументы")) response [])
    as [b ->].
  destruct (text_section_total (headingRegex (js "Исторические аналоги")) response [])
    as [c ->].
  destruct (text_section_total (headingRegex (js "Практические следствия")) response [])
    as [d ->].
  eexists. reflexivity.
Qed.

Lemma issues_of_total (kind : IssueType) (text : jsstring) :
  exists issues, issues_of kind text = Returns issues.
Proof.
  unfold issues_of, bullets_raw.
  destruct (split_total no_flags bulletRegex text) as [pieces ->].
  eexists. reflexivity.
Qed.

(** Every response that splits into exactly four pieces makes
    validateGraph throw. *)
Lemma validateGraph_four_pieces_throws (response : jsstring) (sections : list jsstring) :
  split no_flags sectionSplitRegex response = Some sections ->
  length sections = 4%nat ->
  validateGraph_parse response
  = Throws (Failed "Failed to validate graph"
              (TypeError "Cannot read properties of undefined (reading 'trim')")).
Proof.
  intros Hs Hl. unfold validateGraph_parse. rewrite Hs.
  destruct sections as [|s0 [|s1 [|s2 [|s3 [|s4 rest]]]]]; try discriminate.
  assert (H1 : section_trim [s0; s1; s2; s3] 1 = Returns (trim s1)) by reflexivity.
  assert (H2 : section_trim [s0; s1; s2; s3] 2 = Returns (trim s2)) by reflexivity.
  assert (H3 : section_trim [s0; s1; s2; s3] 3 = Returns (trim s3)) by reflexivity.
  assert (H4 : section_trim [s0; s1; s2; s3] 4
               = Throws (TypeError "Cannot read properties of undefined (reading 'trim')"))
    by reflexivity.
  change (of_option (Some [s0; s1; s2; s3])) with (Returns [s0; s1; s2; s3]).
  cbv beta iota delta [mbind outcome_bind].
  change (4 <=? length [s0; s1; s2; s3])%nat with true. cbv iota.
  rewrite H1, H2, H3, H4.
  destruct (issues_of_total contradiction (trim s2)) as [i2 ->].
  destruct (issues_of_total missing_element (trim s3)) as [i3 ->].
  reflexivity.
Qed.

(** ** Rendering of prompts *)

Local Arguments N.eqb : simpl never.

Lemma starts_with_length (w s : jsstring) :
  starts_with w s = true -> (length w <= length s)%nat.
Proof.
  revert s. induction w as [|a w IH]; intros [|b s]; simpl; try discriminate; try lia.
  intros H. apply andb_prop in H as [_ H]. apply IH in H. lia.
Qed.

Lemma str_eqb_eq (a b : jsstring) : str_eqb a b = true <-> a = b.
Proof.
  revert b. induction a as [|x a IH]; intros [|y b]; simpl; split; intros H;
    try discriminate; try reflexivity.
  - apply andb_prop in H as [H1 H2]. apply N.eqb_eq in H1. apply IH in H2. congruence.
  - injection H as -> ->. rewrite N.eqb_refl. apply IH. reflexivity.
Qed.

Lemma advance_iter_rest (n : nat) :
  forall x : mstate,
    (n <= length (rest x))%nat ->
    pos (Nat.iter n advance x) = (pos x + n)%nat
    /\ caps (Nat.iter n advance x) = caps x.
Proof.
  induction n as [|n IH]; intros x Hn.
  - simpl. split; [lia|reflexivity].
  - rewrite Nat.iter_succ_r. destruct (rest x) as [|a t] eqn:E; [simpl in Hn; lia|].
    destruct (IH (advance x)) as [Hp Hc].
    + unfold advance. rewrite E. simpl. simpl in Hn. lia.
    + rewrite Hp, Hc. unfold advance. rewrite E. simpl. split; [lia|reflexivity].
Qed.

(** The matcher of a literal compares it with the input. *)
Lemma rmatch_lit (w : jsstring) :
  forall (x : mstate) (c : mstate -> mresult),
    rmatch no_flags (lit w) x c
    = if starts_with w (rest x) then c (Nat.iter (length w) advance x) else Failure.
Proof.
  induction w as [|a w IH]; intros x c; [reflexivity|].
  assert (Hhead : forall k,
    rmatch no_flags (RChar a) x k
    = match rest x with
      | b :: _ => if a =? b then k (advance x) else Failure
      | [] => Failure
      end).
  { intros k. simpl. destruct (rest x) as [|b t]; [reflexivity|].
    unfold canonicalize. simpl. rewrite (N.eqb_sym b a). reflexivity. }
  destruct w as [|a' w'].
  - change (lit [a]) with (RChar a). rewrite Hhead.
    destruct (rest x) as [|b t]; [reflexivity|]. simpl.
    destruct (a =? b); reflexivity.
  - change (lit (a :: a' :: w')) with (RSeq (RChar a) (lit (a' :: w'))).
    change (rmatch no_flags (RSeq (RChar a) (lit (a' :: w'))) x c)
      with (rmatch no_flags (RChar a) x (fun y => rmatch no_flags (lit (a' :: w')) y c)).
    rewrite Hhead. destruct (rest x) as [|b t] eqn:E; [reflexivity|].
    change (starts_with (a :: a' :: w') (b :: t))
      with ((a =? b) && starts_with (a' :: w') t).
    destruct (a =? b); [|reflexivity]. rewrite IH.
    replace (rest (advance x)) with t by (unfold advance; rewrite E; reflexivity).
    simpl andb. rewrite (Nat.iter_succ_r (length (a' :: w'))). reflexivity.
Qed.

Lemma match_at_lit (w : jsstring) (p : nat) (pv : option N) (s : jsstring) :
  match_at no_flags (lit w) 0 p pv s
  = if starts_with w s
    then Found (mkMatch p (p + length w) [Some (take (length w) s)])
    else NoMatch.
Proof.
  unfold match_at. rewrite rmatch_lit. simpl rest.
  destruct (starts_with w s) eqn:E; [|reflexivity].
  apply starts_with_length in E.
  destruct (advance_iter_rest (length w) (mkState p pv s (replicate 1 None)) E) as [Hp Hc].
  rewrite Hp, Hc. simpl. replace (p + length w - p)%nat with (length w) by lia.
  reflexivity.
Qed.

Lemma get_substitution_dollar_free (matched before after : jsstring)
    (groups : list (option jsstring)) (v : jsstring) :
  dollar_free v = true -> get_substitution matched before after groups v = v.
Proof.
  induction v as [|c v IH]; [reflexivity|]. simpl. intros H.
  apply andb_prop in H as [Hc Hv]. rewrite Hc, (IH Hv). reflexivity.
Qed.

Lemma replace_go_unfold (fl : flags) (r : regex) (ncaps : nat) (repl : jsstring)
    (skip : nat) (done : jsstring) (p : nat) (pv : option N) (s : jsstring) :
  replace_go fl r ncaps repl skip done p pv s
  = match skip with
    | S k =>
        match s with
        | [] => Some []
        | c :: t => replace_go fl r ncaps repl k (c :: done) (S p) (Some c) t
        end
    | O =>
        match match_at fl r ncaps p pv s with
        | OutOfFuel => None
        | NoMatch =>
            match s with
            | [] => Some []
            | c :: t =>
                option_map (cons c)
                  (replace_go fl r ncaps repl O (c :: done) (S p) (Some c) t)
            end
        | Found m =>
            let len := (m_end m - p)%nat in
            let sub := get_substitution (take len s) (rev done) (drop len s)
                                        (m_groups m) repl in
            match s with
            | [] => Some sub
            | c :: t =>
                if Nat.eqb len 0
                then option_map (fun z => sub ++ c :: z)
                       (replace_go fl r ncaps repl O (c :: done) (S p) (Some c) t)
                else option_map (app sub)
                       (replace_go fl r ncaps repl (len - 1) (c :: done) (S p) (Some c) t)
            end
        end
    end.
Proof. destruct s; reflexivity. Qed.

(** On a non-empty literal and a replacement without [$], [replace] is the
    replacement of every occurrence. *)
Lemma replace_go_literal (a : N) (w v : jsstring) :
  dollar_free v = true ->
  forall (s : jsstring) (skip : nat) (done : jsstring) (p : nat) (pv : option N),
    replace_go no_flags (lit (a :: w)) 0 v skip done p pv s
    = Some (replace_literal (a :: w) v skip s).
Proof.
  intros Hv. induction s as [|c t IH]; intros skip done p pv;
    rewrite replace_go_unfold; destruct skip as [|k].
  - rewrite match_at_lit. reflexivity.
  - reflexivity.
  - rewrite match_at_lit.
    change (replace_literal (a :: w) v 0 (c :: t))
      with (if starts_with (a :: w) (c :: t)
            then v ++ replace_literal (a :: w) v (length (a :: w) - 1) t
            else c :: replace_literal (a :: w) v 0 t).
    destruct (starts_with (a :: w) (c :: t)) eqn:E.
    + cbv zeta. change (m_end (mkMatch p (p + length (a :: w)) ?g))
        with (p + length (a :: w))%nat.
      replace (p + length (a :: w) - p)%nat with (length (a :: w)) by lia.
      rewrite get_substitution_dollar_free by exact Hv.
      change (Nat.eqb (length (a :: w)) 0) with false. cbv iota.
      rewrite IH. reflexivity.
    + rewrite IH. reflexivity.
  - apply IH.
Qed.

(** On a non-empty literal [replace] always returns. *)
Lemma replace_go_literal_total (a : N) (w v : jsstring) :
  forall (s : jsstring) (skip : nat) (done : jsstring) (p : nat) (pv : option N),
    is_Some (replace_go no_flags (lit (a :: w)) 0 v skip done p pv s).
Proof.
  induction s as [|c t IH]; intros skip done p pv;
    rewrite replace_go_unfold; destruct skip as [|k]; try (eexists; reflexivity);
    try apply IH.
  - rewrite match_at_lit. eexists. reflexivity.
  - rewrite match_at_lit. destruct (starts_with (a :: w) (c :: t)); cbv zeta.
    + destruct (Nat.eqb _ 0);
        match goal with
        | |- is_Some (option_map _ (replace_go ?fl ?r ?n ?v ?k ?d ?q ?pv' ?s')) =>
            destruct (IH k d q pv') as [out ->]
        end; eexists; reflexivity.
    + destruct (IH O (c :: done) (S p) (Some c)) as [out ->]. eexists. reflexivity.
Qed.

Lemma replace_all_literal (a : N) (w v s : jsstring) :
  dollar_free v = true ->
  replace_all no_flags (lit (a :: w)) 0 s v = Some (replace_literal (a :: w) v 0 s).
Proof. intros Hv. apply replace_go_literal, Hv. Qed.

Lemma placeholder_units (p : jsstring) : placeholder p = 123 :: 123 :: p ++ [125; 125].
Proof. reflexivity. Qed.

Lemma inert_nil : inert [] = true.
Proof. reflexivity. Qed.

Lemma inert_cons (c : N) (t : jsstring) :
  inert (c :: t) = true ->
  inert t = true /\ (c = 123 -> exists d t', t = d :: t' /\ d <> 123).
Proof.
  unfold inert. change (js "{{") with [123; 123]. change (js "{") with [123].
  intros H. apply andb_prop in H as [H1 H2].
  apply negb_true_iff in H1. apply negb_true_iff in H2.
  change (includes (c :: t) [123; 123])
    with (starts_with [123; 123] (c :: t) || includes t [123; 123]) in H1.
  apply orb_false_iff in H1 as [Hs Hi].
  destruct t as [|d t'].
  - split; [reflexivity|]. intros ->. simpl in H2. discriminate.
  - split.
    + rewrite Hi. simpl length in *.
      replace (S (S (length t')) - 1)%nat with (S (length t')) in H2 by lia.
      replace (S (length t') - 1)%nat with (length t') by lia.
      change (drop (S (length t')) (c :: d :: t')) with (drop (length t') (d :: t')) in H2.
      rewrite H2. reflexivity.
    + intros ->. exists d, t'. split; [reflexivity|].
      simpl in Hs. rewrite andb_true_r in Hs. apply N.eqb_neq in Hs. congruence.
Qed.

Section ReplacePlaceholder.

Variable p : jsstring.
Variable v : jsstring.
Hypothesis Hp : plain_name p = true.

Lemma replace_literal_step (c : N) (u R : jsstring) :
  starts_with (placeholder p) (c :: u) = false ->
  replace_literal (placeholder p) v 0 (c :: u)
  = c :: replace_literal (placeholder p) v 0 u.
Proof.
  intros H.
  change (replace_literal (placeholder p) v 0 (c :: u))
    with (if starts_with (placeholder p) (c :: u)
          then v ++ replace_literal (placeholder p) v (length (placeholder p) - 1) u
          else c :: replace_literal (placeholder p) v 0 u).
  rewrite H. reflexivity.
Qed.

(** Text that cannot take part in a placeholder is passed over. *)
Lemma inert_pass (t : jsstring) :
  inert t = true ->
  forall R, replace_literal (placeholder p) v 0 (t ++ R)
            = t ++ replace_literal (placeholder p) v 0 R.
Proof.
  induction t as [|c t IH]; intros Ht R; [reflexivity|].
  apply inert_cons in Ht as [Ht Hc].
  change ((c :: t) ++ R) with (c :: t ++ R).
  rewrite (replace_literal_step c (t ++ R) R).
  - rewrite IH by exact Ht. reflexivity.
  - rewrite placeholder_units. simpl. destruct (N.eqb_spec 123 c) as [<-|]; [|reflexivity].
    destruct (Hc eq_refl) as (d & t' & -> & Hd). simpl.
    destruct (N.eqb_spec 123 d); [congruence|reflexivity].
Qed.

Lemma units_pass (u : jsstring) :
  Forall (fun c => c <> 123) u ->
  forall R, replace_literal (placeholder p) v 0 (u ++ R)
            = u ++ replace_literal (placeholder p) v 0 R.
Proof.
  induction 1 as [|c u Hc Hu IH]; intros R; [reflexivity|].
  change ((c :: u) ++ R) with (c :: u ++ R).
  rewrite (replace_literal_step c (u ++ R) R).
  - rewrite IH. reflexivity.
  - rewrite placeholder_units. simpl. destruct (N.eqb_spec 123 c); [congruence|reflexivity].
Qed.

Lemma skip_pass (w : jsstring) (u : jsstring) :
  forall R, replace_literal w v (length u) (u ++ R) = replace_literal w v 0 R.
Proof.
  induction u as [|c u IH]; intros R; [reflexivity|]. simpl. apply IH.
Qed.

Lemma plain_name_units (n : jsstring) :
  plain_name n = true -> Forall (fun c => c <> 123 /\ c <> 125) n.
Proof.
  unfold plain_name. intros H. apply List.Forall_forall. intros c Hc.
  rewrite forallb_forall in H. specialize (H c Hc).
  apply negb_true_iff in H. unfold is_syntax_unit in H.
  split; intros ->; vm_compute in H; discriminate.
Qed.

Lemma names_agree (R : jsstring) :
  forall a b : jsstring,
    plain_name a = true -> plain_name b = true ->
    starts_with (a ++ [125; 125]) ((b ++ [125; 125]) ++ R) = true -> a = b.
Proof.
  induction a as [|x a IH]; intros [|y b] Ha Hb H.
  - reflexivity.
  - apply plain_name_units in Hb. inversion Hb as [|? ? [_ Hy] _]; subst.
    simpl in H. destruct (N.eqb_spec 125 y); [congruence|discriminate].
  - apply plain_name_units in Ha. inversion Ha as [|? ? [_ Hx] _]; subst.
    simpl in H. destruct (N.eqb_spec x 125); [congruence|discriminate].
  - simpl in H. apply andb_prop in H as [Hxy H]. apply N.eqb_eq in Hxy. subst y.
    simpl in Ha, Hb. apply andb_prop in Ha as [_ Ha]. apply andb_prop in Hb as [_ Hb].
    f_equal. apply IH; assumption.
Qed.

(** A placeholder of another parameter is passed over ... *)
Lemma other_hole_pass (n R : jsstring) :
  plain_name n = true -> n <> p ->
  replace_literal (placeholder p) v 0 (placeholder n ++ R)
  = placeholder n ++ replace_literal (placeholder p) v 0 R.
Proof using Hp.
  intros Hn Hne. rewrite (placeholder_units n).
  change ((123 :: 123 :: n ++ [125; 125]) ++ R)
    with (123 :: 123 :: (n ++ [125; 125]) ++ R).
  rewrite (replace_literal_step 123 _ R).
  2:{ rewrite placeholder_units.
      change (starts_with (123 :: 123 :: p ++ [125; 125])
                          (123 :: 123 :: (n ++ [125; 125]) ++ R))
        with (starts_with (p ++ [125; 125]) ((n ++ [125; 125]) ++ R)).
      destruct (starts_with (p ++ [125; 125]) ((n ++ [125; 125]) ++ R)) eqn:E;
        [|reflexivity].
      apply names_agree in E; [congruence|exact Hp|exact Hn]. }
  assert (Hu : Forall (fun c => c <> 123) (n ++ [125; 125])).
  { apply Forall_app. split.
    - apply List.Forall_forall. intros c Hc.
      apply (proj1 (List.Forall_forall _ _) (plain_name_units n Hn)) in Hc. tauto.
    - repeat constructor; discriminate. }
  rewrite (replace_literal_step 123 _ R).
  2:{ rewrite placeholder_units.
      change (starts_with (123 :: 123 :: p ++ [125; 125])
                          (123 :: (n ++ [125; 125]) ++ R))
        with (starts_with (123 :: p ++ [125; 125]) ((n ++ [125; 125]) ++ R)).
      destruct (n ++ [125; 125]) as [|c u] eqn:E; [destruct n; discriminate|].
      inversion Hu as [|? ? Hc _]; subst. simpl.
      destruct (N.eqb_spec 123 c); [congruence|reflexivity]. }
  rewrite units_pass by exact Hu. reflexivity.
Qed.

(** ... and the placeholder of the parameter is replaced by the value. *)
Lemma own_hole_replaced (R : jsstring) :
  replace_literal (placeholder p) v 0 (placeholder p ++ R)
  = v ++ replace_literal (placeholder p) v 0 R.
Proof.
  assert (Hs : forall w, starts_with w (w ++ R) = true).
  { induction w as [|c w IH]; [reflexivity|]. simpl. rewrite N.eqb_refl. exact IH. }
  rewrite (placeholder_units p) at 2.
  change ((123 :: 123 :: p ++ [125; 125]) ++ R)
    with (123 :: (123 :: p ++ [125; 125]) ++ R).
  change (replace_literal (placeholder p) v 0 (123 :: (123 :: p ++ [125; 125]) ++ R))
    with (if starts_with (placeholder p) (123 :: (123 :: p ++ [125; 125]) ++ R)
          then v ++ replace_literal (placeholder p) v (length (placeholder p) - 1)
                                    ((123 :: p ++ [125; 125]) ++ R)
          else 123 :: replace_literal (placeholder p) v 0 ((123 :: p ++ [125; 125]) ++ R)).
  change (123 :: (123 :: p ++ [125; 125]) ++ R) with (placeholder p ++ R).
  rewrite Hs. f_equal.
  replace (length (placeholder p) - 1)%nat with (length (123 :: p ++ [125; 125])).
  - apply skip_pass.
  - rewrite placeholder_units. simpl. lia.
Qed.

(** Replacing the placeholder of [p] in a well-formed template fills the
    holes named [p]. *)
Lemma replace_literal_chunks (cs : list chunk) :
  well_formed cs = true ->
  replace_literal (placeholder p) v 0 (flatten cs) = flatten (List.map (fill_one p v) cs).
Proof using Hp.
  induction cs as [|c cs IH]; intros Hw; [reflexivity|].
  change (well_formed (c :: cs)) with (well_formed_chunk c && well_formed cs) in Hw.
  apply andb_prop in Hw as [Hc Hw].
  change (List.map (fill_one p v) (c :: cs))
    with (fill_one p v c :: List.map (fill_one p v) cs).
  change (flatten (c :: cs)) with (chunk_text c ++ flatten cs).
  change (flatten (fill_one p v c :: List.map (fill_one p v) cs))
    with (chunk_text (fill_one p v c) ++ flatten (List.map (fill_one p v) cs)).
  destruct c as [t|n].
  - change (chunk_text (fill_one p v (Text t))) with t.
    change (chunk_text (Text t)) with t.
    rewrite inert_pass by exact Hc. rewrite IH by exact Hw. reflexivity.
  - change (chunk_text (Hole n)) with (placeholder n).
    change (fill_one p v (Hole n)) with (if str_eqb n p then Text v else Hole n).
    destruct (str_eqb n p) eqn:E.
    + apply str_eqb_eq in E. subst n. rewrite own_hole_replaced, IH by exact Hw.
      reflexivity.
    + rewrite other_hole_pass, IH; auto.
      intros ->. rewrite (proj2 (str_eqb_eq p p) eq_refl) in E. discriminate.
Qed.

End ReplacePlaceholder.

Lemma substituted_is_json (v : json) :
  substituted v = match v with
                  | JString s => s
                  | _ => Json.stringify v
                  end.
Proof. destruct v as [|[|]| | | |]; reflexivity. Qed.

Section RenderFacts.

Variable data : gmap jsstring json.

Lemma placeholderRegex_nonempty (param : jsstring) :
  placeholderRegex param = lit (123 :: 123 :: param ++ [125; 125]).
Proof. reflexivity. Qed.

(** For an ordinary parameter a turn of the loop is a replacement by the
    text of its value. *)
Lemma substitute_ordinary (prompt param : jsstring) :
  ordinary data param = true ->
  substitute data prompt param
  = of_option (replace_all no_flags (placeholderRegex param) 0 prompt (value_of data param)).
Proof.
  unfold ordinary, substitute, value_of, get.
  destruct (data !! param) as [value|];
    [rewrite substituted_is_json; destruct value; reflexivity|].
  destruct (str_eqb param (js "__proto__")); [discriminate|].
  destruct (List.find _ inherited_methods) as [[n m]|]; [discriminate|reflexivity].
Qed.

(** One turn of the loop fills the holes of its parameter. *)
Lemma substitute_chunks (cs : list chunk) (param : jsstring) :
  well_formed cs = true -> plain_name param = true ->
  ordinary data param = true ->
  dollar_free (value_of data param) = true ->
  substitute data (flatten cs) param
  = Returns (flatten (List.map (fill_one param (value_of data param)) cs)).
Proof.
  intros Hw Hp Ho Hd. rewrite (substitute_ordinary _ _ Ho).
  rewrite placeholderRegex_nonempty, replace_all_literal by exact Hd.
  rewrite <- placeholder_units, replace_literal_chunks by assumption. reflexivity.
Qed.

Lemma substitute_all_total (params : list jsstring) :
  forallb (ordinary data) params = true ->
  forall prompt : jsstring, exists out, substitute_all data prompt params = Returns out.
Proof.
  induction params as [|param params IH]; intros Ho prompt; [eexists; reflexivity|].
  simpl in Ho. apply andb_prop in Ho as [Ho Hos].
  change (substitute_all data prompt (param :: params))
    with (prompt' ← substitute data prompt param; substitute_all data prompt' params).
  rewrite (substitute_ordinary _ _ Ho). unfold replace_all.
  rewrite placeholderRegex_nonempty.
  match goal with
  | |- context [replace_go ?fl ?r ?n ?v ?k ?d ?q ?pv ?s] =>
      destruct (replace_go_literal_total 123 (123 :: param ++ [125; 125]) v s k d q pv)
        as [out ->]
  end.
  apply (IH Hos).
Qed.

Lemma well_formed_fill_one (cs : list chunk) (param value : jsstring) :
  well_formed cs = true -> inert value = true ->
  well_formed (List.map (fill_one param value) cs) = true.
Proof.
  intros Hw Hv. induction cs as [|c cs IH]; [reflexivity|].
  simpl in *. apply andb_prop in Hw as [Hc Hw]. rewrite (IH Hw), andb_true_r.
  destruct c as [t|n]; simpl; [exact Hc|]. destruct (str_eqb n param); simpl; assumption.
Qed.

Lemma fill_cons (param : jsstring) (params : list jsstring) (c : chunk) :
  fill data params (fill_one param (value_of data param) c) = fill data (param :: params) c.
Proof.
  destruct c as [t|n]; [reflexivity|]. simpl.
  destruct (str_eqb n param) eqn:E; [|reflexivity].
  apply str_eqb_eq in E. subst n. reflexivity.
Qed.

Lemma fill_nil (cs : list chunk) : List.map (fill data []) cs = cs.
Proof. induction cs as [|[t|n] cs IH]; simpl; rewrite ?IH; reflexivity. Qed.

(** The loop over the parameters fills the holes of all of them. *)
Lemma substitute_all_chunks (params : list jsstring) :
  forall cs : list chunk,
    well_formed cs = true -> forallb plain_name params = true ->
    forallb (ordinary data) params = true ->
    fit_values data params = true ->
    substitute_all data (flatten cs) params
    = Returns (flatten (List.map (fill data params) cs)).
Proof.
  induction params as [|param params IH]; intros cs Hw Hp Ho Hf.
  - simpl. rewrite fill_nil. reflexivity.
  - simpl in Hp, Ho, Hf. apply andb_prop in Hp as [Hp Hps].
    apply andb_prop in Ho as [Ho Hos].
    apply andb_prop in Hf as [Hv Hf]. apply andb_prop in Hv as [Hi Hd].
    change (substitute_all data (flatten cs) (param :: params))
      with (prompt' ← substitute data (flatten cs) param;
            substitute_all data prompt' params).
    rewrite substitute_chunks by assumption.
    change (substitute_all data
              (flatten (List.map (fill_one param (value_of data param)) cs)) params
            = Returns (flatten (List.map (fill data (param :: params)) cs))).
    rewrite IH; [|apply well_formed_fill_one; assumption|exact Hps|exact Hos|exact Hf].
    rewrite List.map_map. f_equal. f_equal. apply List.map_ext. intros c. apply fill_cons.
Qed.

Lemma replace_literal_length (w : jsstring) :
  forall (s : jsstring) (skip : nat),
    (length (replace_literal w [] skip s) <= length s)%nat.
Proof.
  induction s as [|c t IH]; intros skip; [simpl; lia|].
  simpl. destruct skip as [|k].
  - destruct (starts_with w (c :: t)); simpl; [specialize (IH (length w - 1)%nat)|
                                               specialize (IH O)]; lia.
  - specialize (IH k). lia.
Qed.

(** A string that holds a literal gets shorter when the literal is erased. *)
Lemma includes_replace_shorter (a : N) (w : jsstring) :
  forall s : jsstring,
    includes s (a :: w) = true ->
    (length (replace_literal (a :: w) [] 0 s) < length s)%nat.
Proof.
  induction s as [|c t IH]; intros H; [discriminate|].
  change (includes (c :: t) (a :: w))
    with (starts_with (a :: w) (c :: t) || includes t (a :: w)) in H.
  change (replace_literal (a :: w) [] 0 (c :: t))
    with (if starts_with (a :: w) (c :: t)
          then [] ++ replace_literal (a :: w) [] (length (a :: w) - 1) t
          else c :: replace_literal (a :: w) [] 0 t).
  destruct (starts_with (a :: w) (c :: t)).
  - pose proof (replace_literal_length (a :: w) t (length (a :: w) - 1)). simpl in *. lia.
  - simpl in H. apply IH in H. simpl. lia.
Qed.

(** No placeholder of a parameter is left where none of its holes is. *)
Lemma no_hole_no_placeholder (cs : list chunk) (param : jsstring) :
  well_formed cs = true -> plain_name param = true ->
  List.map (fill_one param []) cs = cs ->
  includes (flatten cs) (placeholder param) = false.
Proof.
  intros Hw Hp Hfix.
  destruct (includes (flatten cs) (placeholder param)) eqn:E; [|reflexivity].
  rewrite placeholder_units in E. apply includes_replace_shorter in E.
  rewrite <- placeholder_units in E.
  rewrite replace_literal_chunks, Hfix in E by assumption. lia.
Qed.

Lemma mem_In (name : jsstring) (names : list jsstring) :
  mem name names = true <-> In name names.
Proof.
  unfold mem. rewrite existsb_exists. split.
  - intros (x & Hx & He). apply str_eqb_eq in He. subst. exact Hx.
  - intros H. exists name. split; [exact H|]. apply str_eqb_eq. reflexivity.
Qed.

Lemma fill_leaves_no_hole (params : list jsstring) (param : jsstring) (cs : list chunk) :
  In param params ->
  List.map (fill_one param []) (List.map (fill data params) cs)
  = List.map (fill data params) cs.
Proof.
  intros Hin. rewrite List.map_map. apply List.map_ext. intros [t|n]; [reflexivity|].
  simpl. destruct (mem n params) eqn:E; [reflexivity|]. simpl.
  destruct (str_eqb n param) eqn:En; [|reflexivity].
  apply str_eqb_eq in En. subst n. apply mem_In in Hin. congruence.
Qed.

Lemma well_formed_fill (params : list jsstring) (cs : list chunk) :
  well_formed cs = true -> fit_values data params = true ->
  well_formed (List.map (fill data params) cs) = true.
Proof.
  intros Hw Hf. induction cs as [|c cs IH]; [reflexivity|].
  simpl in *. apply andb_prop in Hw as [Hc Hw]. rewrite (IH Hw), andb_true_r.
  destruct c as [t|n]; simpl; [exact Hc|].
  destruct (mem n params) eqn:E; simpl; [|exact Hc].
  apply mem_In in E. unfold fit_values in Hf. rewrite forallb_forall in Hf.
  apply Hf in E. apply andb_prop in E as [E _]. exact E.
Qed.

Lemma fill_permutation (params params' : list jsstring) (cs : list chunk) :
  Permutation params params' ->
  List.map (fill data params) cs = List.map (fill data params') cs.
Proof.
  intros Hperm. apply List.map_ext. intros [t|n]; [reflexivity|]. simpl.
  assert (Hm : mem n params = mem n params').
  { destruct (mem n params) eqn:E1, (mem n params') eqn:E2; try reflexivity.
    - apply mem_In in E1. apply (Permutation_in _ Hperm) in E1.
      apply mem_In in E1. congruence.
    - apply mem_In in E2. apply (Permutation_in _ (Permutation_sym Hperm)) in E2.
      apply mem_In in E2. congruence. }
  rewrite Hm. reflexivity.
Qed.

Lemma forallb_permutation {A : Type} (f : A -> bool) (l l' : list A) :
  Permutation l l' -> forallb f l = true -> forallb f l' = true.
Proof.
  intros Hperm H. rewrite forallb_forall in *. intros x Hx.
  apply H. apply (Permutation_in _ (Permutation_sym Hperm)). exact Hx.
Qed.

End RenderFacts.

Lemma preparePrompt_loaded (w : world) (name : jsstring) (t : PromptTemplate)
    (data : gmap jsstring json) :
  templatesLoaded w = true -> templates w !! name = Some t ->
  preparePrompt name data w = (try_catch "Failed to prepare prompt" (render t data), w).
Proof.
  intros Hl Ht. unfold preparePrompt, Store.getTemplate. rewrite Hl, Ht. reflexivity.
Qed.

(** C6, as the code has it. For a template that is loaded and whose
    declared parameters are plain names, each either defined by the data or
    no name that an object inherits, preparePrompt returns a string: it
    does not raise on a missing parameter. When the text of the template is
    made of inert text and placeholders and the substituted texts are inert
    and free of [$], the result is the template with every placeholder of a
    declared parameter filled in, by the value itself when it is a string,
    by its JSON text indented by two spaces when it is not, and by the
    empty string when the data have no value; no placeholder of a declared
    parameter is left in it. *)
Theorem preparePrompt_fills_declared_placeholders :
  forall (w : world) (name : jsstring) (t : PromptTemplate) (data : gmap jsstring json),
    templatesLoaded w = true ->
    templates w !! name = Some t ->
    forallb plain_name (parameters t) = true ->
    forallb (ordinary data) (parameters t) = true ->
    exists out : jsstring,
      preparePrompt name data w = (Returns out, w)
      /\ (forall cs : list chunk,
            template t = flatten cs ->
            well_formed cs = true ->
            fit_values data (parameters t) = true ->
            out = flatten (List.map (fill data (parameters t)) cs)
            /\ forall p, In p (parameters t) -> includes out (placeholder p) = false).
Proof.
  intros w name t data Hl Ht Hp Ho.
  destruct (substitute_all_total data (parameters t) Ho (template t)) as [out Hout].
  exists out. split.
  - rewrite (preparePrompt_loaded w name t data Hl Ht).
    unfold render. rewrite Hout. reflexivity.
  - intros cs Htext Hw Hf.
    rewrite Htext, substitute_all_chunks in Hout by assumption.
    injection Hout as <-. split; [reflexivity|].
    intros p Hin. apply no_hole_no_placeholder.
    + apply well_formed_fill; assumption.
    + rewrite forallb_forall in Hp. apply Hp, Hin.
    + apply fill_leaves_no_hole, Hin.
Qed.

Lemma preparePrompt_fills_declared_placeholders_witness :
  exists out : jsstring,
    preparePrompt (js "graph_validation") sample_data loaded_world
    = (Returns out, loaded_world)
    /\ (forall cs : list chunk,
          template sample_template = flatten cs ->
          well_formed cs = true ->
          fit_values sample_data (parameters sample_template) = true ->
          out = flatten (List.map (fill sample_data (parameters sample_template)) cs)
          /\ forall p, In p (parameters sample_template) ->
                       includes out (placeholder p) = false).
Proof.
  apply (preparePrompt_fills_declared_placeholders loaded_world (js "graph_validation")
           sample_template sample_data).
  - reflexivity.
  - vm_compute. reflexivity.
  - vm_compute. reflexivity.
  - vm_compute. reflexivity.
Defined.

(** The sample template is made of the sample chunks, which are well
    formed, and the sample data fit. *)
Example sample_template_conditions :
  template sample_template = flatten sample_chunks
  /\ well_formed sample_chunks = true
  /\ fit_values sample_data (parameters sample_template) = true.
Proof. repeat split; vm_compute; reflexivity. Qed.

(** What the sample renders to. *)
Example sample_prompt :
  preparePrompt (js "graph_validation") sample_data loaded_world
  = (Returns (js "Concept Flux has [" ++ nl ++ js "  {" ++ nl
              ++ js "    " ++ [34] ++ js "name" ++ [34] ++ js ": " ++ [34] ++ js "Being" ++ [34]
              ++ nl ++ js "  }" ++ nl ++ js "]; reply as {ok: true}."),
     loaded_world).
Proof. vm_compute. reflexivity. Qed.

(** C6, as stated, fails: the value of a declared parameter is the text
    of its own placeholder, and the placeholder is in the rendered prompt. *)
Lemma placeholder_survives_in_value :
  In (js "concept_name") (parameters echo_template)
  /\ preparePrompt (js "concept_evolution") echo_data echo_world
     = (Returns (js "Concept: {{concept_name}}"), echo_world)
  /\ includes (js "Concept: {{concept_name}}") (placeholder (js "concept_name")) = true.
Proof.
  split; [left; reflexivity|]. split; vm_compute; reflexivity.
Qed.

(** C7, as the code has it. Under the conditions of the previous theorem
    (plain names that the data define or that no object inherits, a text
    made of inert text and placeholders, substituted texts that are inert
    and free of [$]) the rendered prompt does not depend on the order of the
    declared parameters: two loaded templates with the same text whose
    parameter lists are permutations of each other render to the same
    prompt. *)
Theorem preparePrompt_order_independent :
  forall (w w' : world) (name : jsstring) (t t' : PromptTemplate)
         (data : gmap jsstring json) (cs : list chunk),
    templatesLoaded w = true -> templates w !! name = Some t ->
    templatesLoaded w' = true -> templates w' !! name = Some t' ->
    template t' = template t ->
    Permutation (parameters t) (parameters t') ->
    template t = flatten cs ->
    well_formed cs = true ->
    forallb plain_name (parameters t) = true ->
    forallb (ordinary data) (parameters t) = true ->
    fit_values data (parameters t) = true ->
    exists out : jsstring,
      fst (preparePrompt name data w) = Returns out
      /\ fst (preparePrompt name data w') = Returns out.
Proof.
  intros w w' name t t' data cs Hl Ht Hl' Ht' Htext Hperm Hcs Hw Hp Ho Hf.
  exists (flatten (List.map (fill data (parameters t)) cs)). split.
  - rewrite (preparePrompt_loaded w name t data Hl Ht). simpl.
    unfold render. rewrite Hcs, substitute_all_chunks by assumption. reflexivity.
  - rewrite (preparePrompt_loaded w' name t' data Hl' Ht'). simpl.
    unfold render. rewrite Htext, Hcs, substitute_all_chunks.
    + rewrite (fill_permutation data _ _ cs Hperm). reflexivity.
    + exact Hw.
    + exact (forallb_permutation _ _ _ Hperm Hp).
    + exact (forallb_permutation _ _ _ Hperm Ho).
    + exact (forallb_permutation _ _ _ Hperm Hf).
Qed.

Lemma preparePrompt_order_independent_witness :
  exists out : jsstring,
    fst (preparePrompt (js "graph_validation") sample_data loaded_world) = Returns out
    /\ fst (preparePrompt (js "graph_validation") sample_data
              (mkWorld 1000 true ∅ None ∅ true [] []
                 {[ js "graph_validation" :=
                      mkTemplate (js "graph_validation") (js "Validation of a graph")
                                 (template sample_template)
                                 [js "note"; js "concept_name"; js "categories"] ]} true))
       = Returns out.
Proof.
  apply (preparePrompt_order_independent loaded_world _ (js "graph_validation")
           sample_template
           (mkTemplate (js "graph_validation") (js "Validation of a graph")
                       (template sample_template)
                       [js "note"; js "concept_name"; js "categories"])
           sample_data sample_chunks).
  - reflexivity.
  - vm_compute. reflexivity.
  - reflexivity.
  - vm_compute. reflexivity.
  - reflexivity.
  - simpl. apply Permutation_sym, (Permutation_cons_append [_; _]).
  - vm_compute. reflexivity.
  - vm_compute. reflexivity.
  - vm_compute. reflexivity.
  - vm_compute. reflexivity.
  - vm_compute. reflexivity.
Defined.

(** C7, as stated, fails: the value of [a] is the placeholder of [b];
    substituting [a] first fills it in, substituting [b] first leaves it. *)
Lemma order_matters_for_nested_value :
  Permutation [js "a"; js "b"] [js "b"; js "a"]
  /\ fst (preparePrompt (js "t") nested_data (nested_world [js "a"; js "b"]))
     = Returns (js "x x")
  /\ fst (preparePrompt (js "t") nested_data (nested_world [js "b"; js "a"]))
     = Returns (js "{{b}} x")
  /\ js "x x" <> js "{{b}} x".
Proof.
  split; [apply perm_swap|].
  split; [vm_compute; reflexivity|].
  split; [vm_compute; reflexivity|].
  vm_compute. discriminate.
Qed.

(* ================================================================== *)
(** * Part VIII. Further properties of the code                        *)
(* ================================================================== *)

Import Store Operations ClaudeUtil ThesisService Helpers.

(** ** Every success of the matcher goes through its continuation *)

Section Through.
Variable fl : flags.

Lemma passes_refl ps x : passes ps 0 x x.
Proof. repeat split; try lia. Qed.

Lemma passes_trans ps1 ps2 ps k1 k2 k x y z :
  passes ps1 k1 x y -> passes ps2 k2 y z ->
  (forall n, In n ps1 -> In n ps) -> (forall n, In n ps2 -> In n ps) ->
  (k <= k1 + k2)%nat ->
  passes ps k x z.
Proof.
  intros (E1 & P1 & L1 & C1) (E2 & P2 & L2 & C2) H1 H2 Hk.
  split; [exact (extends_trans x y z E1 E2)|].
  split; [lia|]. split; [congruence|].
  intros n Hn. rewrite C2, C1; auto.
Qed.

Lemma clear_caps_passes ps x : passes ps 0 x (clear_caps ps x).
Proof.
  unfold clear_caps. split; [split; simpl; lia|]. split; [simpl; lia|]. simpl.
  induction ps as [|n ps IH]; simpl; [auto|].
  destruct IH as [IHl IHc]. split.
  - rewrite length_insert. exact IHl.
  - intros m Hm. rewrite list_lookup_insert_ne by tauto. apply IHc. tauto.
Qed.

Lemma passes_advance ps x a t :
  rest x = a :: t -> passes ps 1 x (advance x).
Proof.
  intros E. unfold advance, passes, extends. rewrite E. simpl. repeat split; try lia; auto.
Qed.

Lemma or_else_Matched z alt y :
  or_else z alt = Matched y -> z = Matched y \/ (z = Failure /\ alt tt = Matched y).
Proof. destruct z; simpl; auto; discriminate. Qed.

Lemma repeat_matcher_through (m : mstate -> (mstate -> mresult) -> mresult)
    (ps : list nat) (greedy : bool) (k : nat) :
  (forall x c z, m x c = Matched z -> exists y, c y = Matched z /\ passes ps k x y) ->
  forall (fuel min : nat) (max : option nat) (x : mstate) (c : mstate -> mresult) (z : mstate),
    repeat_matcher m ps greedy fuel min max x c = Matched z ->
    exists y, c y = Matched z
              /\ passes ps (match min, max with O, _ | _, Some O => 0 | _, _ => k end) x y.
Proof.
  intros Hm. induction fuel as [|fuel IH]; intros min max x c z H; [discriminate|].
  simpl in H.
  assert (Hstop : c x = Matched z ->
    exists y, c y = Matched z /\ passes ps 0 x y).
  { intros Hc. exists x. split; [exact Hc|apply passes_refl]. }
  assert (Hiter :
    m (clear_caps ps x)
      (fun y => if Nat.eqb min 0 && Nat.eqb (pos y) (pos x) then Failure
                else repeat_matcher m ps greedy fuel (Nat.pred min) (pred_max max) y c)
    = Matched z ->
    exists y, c y = Matched z /\ passes ps k x y).
  { intros Hi. apply Hm in Hi as (y1 & Hd & Hp1).
    destruct (Nat.eqb min 0 && Nat.eqb (pos y1) (pos x)); [discriminate|].
    apply IH in Hd as (y & Hc & Hp2). exists y. split; [exact Hc|].
    apply (passes_trans ps ps ps 0 k k x (clear_caps ps x) y);
      [apply clear_caps_passes| |auto|auto|lia].
    apply (passes_trans ps ps ps k _ k _ y1 y Hp1 Hp2); [auto|auto|lia]. }
  assert (Hweak : forall y, passes ps k x y -> passes ps 0 x y).
  { intros y (A & B & C & D). repeat split; try apply A; try lia; auto. }
  destruct max as [[|n]|].
  - destruct min; apply Hstop, H.
  - destruct min as [|min']; simpl in H.
    + destruct greedy; apply or_else_Matched in H as [H|[_ H]];
        try (apply Hstop, H);
        destruct (Hiter H) as (y & Hc & Hp); exists y; split; auto.
    + apply Hiter, H.
  - destruct min as [|min']; simpl in H.
    + destruct greedy; apply or_else_Matched in H as [H|[_ H]];
        try (apply Hstop, H);
        destruct (Hiter H) as (y & Hc & Hp); exists y; split; auto.
    + apply Hiter, H.
Qed.

Local Arguments repeat_matcher : simpl never.

Lemma rmatch_through (r : regex) :
  forall (x : mstate) (c : mstate -> mresult) (z : mstate),
    rmatch fl r x c = Matched z ->
    exists y, c y = Matched z /\ passes (parens r) (min_len r) x y.
Proof.
  induction r; simpl; intros x k z H.
  - exists x. split; [exact H|apply passes_refl].
  - destruct (rest x) as [|a t] eqn:E; [discriminate|].
    destruct (_ =? _)%N; [|discriminate].
    exists (advance x). split; [exact H|]. eapply passes_advance, E.
  - destruct (rest x) as [|a t] eqn:E; [discriminate|].
    destruct (class_mem fl cl a); [|discriminate].
    exists (advance x). split; [exact H|]. eapply passes_advance, E.
  - apply IHr1 in H as (y1 & H & P1). apply IHr2 in H as (y2 & H & P2).
    exists y2. split; [exact H|].
    apply (passes_trans (parens r1) (parens r2) _ _ _ _ x y1 y2 P1 P2); [| |lia];
      intros n Hn; apply in_or_app; auto.
  - apply or_else_Matched in H as [H|[_ H]].
    + apply IHr1 in H as (y & H & P). exists y. split; [exact H|].
      apply (passes_trans (parens r1) [] _ _ 0 _ x y y P (passes_refl _ _)); [| |lia];
        intros n Hn; [apply in_or_app; auto|destruct Hn].
    + apply IHr2 in H as (y & H & P). exists y. split; [exact H|].
      apply (passes_trans (parens r2) [] _ _ 0 _ x y y P (passes_refl _ _)); [| |lia];
        intros n Hn; [apply in_or_app; auto|destruct Hn].
  - eapply repeat_matcher_through in H; [|exact IHr]. exact H.
  - apply IHr in H as (y & H & (E & P & L & C)).
    eexists. split; [exact H|]. split; [exact E|]. split; [exact P|]. simpl. split.
    + rewrite length_insert. exact L.
    + intros m Hm. rewrite list_lookup_insert_ne by tauto. apply C. tauto.
  - destruct (rmatch fl r x Matched) as [|y'|] eqn:E; try discriminate.
    apply IHr in E as (y0 & E0 & (E & P & L & C)). injection E0 as ->.
    eexists. split; [exact H|]. split; [split; simpl; lia|]. split; [simpl; lia|].
    simpl. split; [exact L|exact C].
  - destruct (at_bol fl x); [|discriminate]. exists x. split; [exact H|apply passes_refl].
  - destruct (at_eol fl x); [|discriminate]. exists x. split; [exact H|apply passes_refl].
Qed.

End Through.

Local Arguments repeat_matcher : simpl never.

Lemma match_at_Found (fl : flags) (r : regex) (n p : nat) (pv : option N) (s : jsstring)
    (m : rmatch_array) :
  match_at fl r n p pv s = Found m ->
  exists z, rmatch fl r (mkState p pv s (replicate (S n) None)) Matched = Matched z
            /\ m = mkMatch p (pos z) (<[O := Some (take (pos z - p) s)]> (caps z)).
Proof.
  unfold match_at. destruct (rmatch fl r _ Matched) as [|z|]; try discriminate.
  intros H. injection H as <-. exists z. split; reflexivity.
Qed.

(** A match is at least as long as the pattern's shortest match. *)
Lemma match_at_end (fl : flags) (r : regex) (n p : nat) (pv : option N) (s : jsstring)
    (m : rmatch_array) :
  match_at fl r n p pv s = Found m -> (p + min_len r <= m_end m)%nat.
Proof.
  intros H. apply match_at_Found in H as (z & H & ->).
  apply rmatch_through in H as (y & Hy & (_ & P & _)). injection Hy as ->. exact P.
Qed.

(** The [exec] loop over a pattern that cannot match the empty string
    always ends. *)
Lemma exec_all_go_total (fl : flags) (r : regex) (n : nat) :
  (1 <= min_len r)%nat ->
  forall (s : jsstring) (skip p : nat) (pv : option N),
    is_Some (exec_all_go fl r n skip p pv s).
Proof.
  intros Hr. induction s as [|c t IH]; intros skip p pv; destruct skip as [|k]; simpl;
    try (eexists; reflexivity); try apply IH.
  - pose proof (match_at_not_OutOfFuel fl r n p pv []) as Hf.
    destruct (match_at fl r n p pv []) as [|m|] eqn:E; [eexists; reflexivity| |congruence].
    apply match_at_end in E. destruct (Nat.eqb_spec (m_end m) p); [lia|].
    eexists; reflexivity.
  - pose proof (match_at_not_OutOfFuel fl r n p pv (c :: t)) as Hf.
    destruct (match_at fl r n p pv (c :: t)) as [|m|] eqn:E; [apply IH| |congruence].
    apply match_at_end in E. destruct (Nat.eqb_spec (m_end m) p); [lia|].
    destruct (IH (m_end m - p - 1)%nat (S p) (Some c)) as [out ->]. eexists; reflexivity.
Qed.

Lemma exec_all_total (fl : flags) (r : regex) (n : nat) (s : jsstring) :
  (1 <= min_len r)%nat -> is_Some (exec_all fl r n s).
Proof. intros Hr. apply exec_all_go_total, Hr. Qed.

Lemma search_Found (fl : flags) (r : regex) (n : nat) :
  forall (s : jsstring) (p : nat) (pv : option N) (m : rmatch_array),
    search fl r n p pv s = Found m ->
    exists p' pv' s', match_at fl r n p' pv' s' = Found m.
Proof.
  induction s as [|c t IH]; intros p pv m; simpl.
  - destruct (match_at fl r n p pv []) eqn:E; try discriminate.
    intros H. injection H as <-. eauto.
  - destruct (match_at fl r n p pv (c :: t)) eqn:E; try discriminate.
    + apply IH.
    + intros H. injection H as <-. eauto.
Qed.

Lemma advance_rest (x : mstate) : rest (advance x) = drop 1 (rest x).
Proof. unfold advance. destruct (rest x) eqn:E; [exact E|reflexivity]. Qed.

Lemma iter_advance_rest (n : nat) (x : mstate) :
  rest (Nat.iter n advance x) = drop n (rest x).
Proof.
  induction n as [|n IH]; [reflexivity|]. simpl Nat.iter.
  rewrite advance_rest, IH, drop_drop, Nat.add_1_r. reflexivity.
Qed.

Lemma iter_advance_caps (n : nat) (x : mstate) :
  caps (Nat.iter n advance x) = caps x.
Proof.
  induction n as [|n IH]; [reflexivity|]. simpl Nat.iter. unfold advance at 1.
  destruct (rest (Nat.iter n advance x)); exact IH.
Qed.

(** The lazy [[\s\S]*?] stops at the first place where what follows it
    matches. *)
Lemma lazy_any_through (fl : flags) :
  forall (fuel : nat) (x : mstate) (c : mstate -> mresult) (z : mstate),
    repeat_matcher (rmatch fl (RClass CAny)) [] false fuel 0 None x c = Matched z ->
    exists n, (n <= length (rest x))%nat
              /\ c (Nat.iter n advance x) = Matched z
              /\ forall j, (j < n)%nat -> c (Nat.iter j advance x) = Failure.
Proof.
  induction fuel as [|fuel IH]; intros x c z H; [discriminate|].
  change (or_else (c x)
            (fun _ => rmatch fl (RClass CAny) (clear_caps [] x)
               (fun y => if Nat.eqb 0 0 && Nat.eqb (pos y) (pos x) then Failure
                         else repeat_matcher (rmatch fl (RClass CAny)) [] false fuel
                                             0 None y c))
          = Matched z) in H.
  apply or_else_Matched in H as [H|[H0 H]].
  - exists O. split; [lia|]. split; [exact H|]. intros j Hj. lia.
  - simpl in H. destruct (rest x) as [|a t] eqn:E; [discriminate|].
    assert (Ha : advance (clear_caps [] x) = advance x).
    { unfold advance, clear_caps. simpl. rewrite E. reflexivity. }
    rewrite Ha in H.
    assert (Hp : pos (advance x) = S (pos x)).
    { unfold advance. rewrite E. reflexivity. }
    rewrite Hp in H.
    destruct (Nat.eqb_spec (S (pos x)) (pos x)) as [Hx|_]; [lia|]. simpl in H.
    apply IH in H as (n & Hn & Hc & Hj).
    exists (S n). split; [|split].
    + replace (rest (advance x)) with t in Hn by (unfold advance; rewrite E; reflexivity).
      simpl. lia.
    + rewrite Nat.iter_succ_r. exact Hc.
    + intros [|j] Hlt; [exact H0|]. rewrite Nat.iter_succ_r. apply Hj. lia.
Qed.

(** A literal matches where the input starts with it, whatever the flags. *)
Lemma rmatch_lit_prefix (fl : flags) (w : jsstring) :
  forall (x : mstate) (c : mstate -> mresult),
    starts_with w (rest x) = true ->
    rmatch fl (lit w) x c = c (Nat.iter (length w) advance x).
Proof.
  induction w as [|a w IH]; intros x c H; [reflexivity|].
  destruct (rest x) as [|b t] eqn:E; [discriminate|].
  simpl in H. apply andb_prop in H as [Hab Ht]. apply N.eqb_eq in Hab. subst b.
  assert (Hhead : forall k, rmatch fl (RChar a) x k = k (advance x)).
  { intros k. simpl. rewrite E, N.eqb_refl. reflexivity. }
  assert (Hr : rest (advance x) = t) by (unfold advance; rewrite E; reflexivity).
  destruct w as [|a' w'].
  - change (lit [a]) with (RChar a). rewrite Hhead. reflexivity.
  - change (lit (a :: a' :: w')) with (RSeq (RChar a) (lit (a' :: w'))).
    change (rmatch fl (RSeq (RChar a) (lit (a' :: w'))) x c)
      with (rmatch fl (RChar a) x (fun y => rmatch fl (lit (a' :: w')) y c)).
    rewrite Hhead, IH by (rewrite Hr; exact Ht).
    rewrite (Nat.iter_succ_r (length (a' :: w'))). reflexivity.
Qed.

(** Without the [i] flag it matches nowhere else. *)
Lemma rmatch_lit_exact (fl : flags) (w : jsstring) :
  ignoreCase fl = false ->
  forall (x : mstate) (c : mstate -> mresult),
    rmatch fl (lit w) x c
    = if starts_with w (rest x) then c (Nat.iter (length w) advance x) else Failure.
Proof.
  intros Hfl. induction w as [|a w IH]; intros x c; [reflexivity|].
  destruct (starts_with (a :: w) (rest x)) eqn:Hs; [apply rmatch_lit_prefix, Hs|].
  destruct (rest x) as [|b t] eqn:E.
  - destruct w as [|a' w']; simpl; rewrite E; reflexivity.
  - assert (Hhead : forall k,
      rmatch fl (RChar a) x k = if a =? b then k (advance x) else Failure).
    { intros k. simpl. rewrite E. unfold canonicalize. rewrite Hfl, (N.eqb_sym b a).
      reflexivity. }
    change (starts_with (a :: w) (b :: t)) with ((a =? b) && starts_with w t) in Hs.
    destruct w as [|a' w'].
    + change (lit [a]) with (RChar a). rewrite Hhead.
      destruct (a =? b); [discriminate|reflexivity].
    + change (lit (a :: a' :: w')) with (RSeq (RChar a) (lit (a' :: w'))).
      change (rmatch fl (RSeq (RChar a) (lit (a' :: w'))) x c)
        with (rmatch fl (RChar a) x (fun y => rmatch fl (lit (a' :: w')) y c)).
      rewrite Hhead. destruct (a =? b); [|reflexivity].
      rewrite IH. replace (rest (advance x)) with t
        by (unfold advance; rewrite E; reflexivity).
      rewrite andb_true_l in Hs. rewrite Hs. reflexivity.
Qed.

Lemma parens_lit (w : jsstring) : parens (lit w) = [].
Proof.
  induction w as [|a [|b w] IH]; try reflexivity.
  change (parens (lit (a :: b :: w))) with (parens (RChar a) ++ parens (lit (b :: w))).
  rewrite IH. reflexivity.
Qed.

Lemma starts_with_take (w : jsstring) :
  forall (s : jsstring) (n : nat),
    starts_with w (take n s) = true -> starts_with w s = true.
Proof.
  induction w as [|a w IH]; intros s n H; [reflexivity|].
  destruct s as [|b s]; [rewrite take_nil in H; discriminate|].
  destruct n as [|n]; [discriminate|]. simpl in *.
  apply andb_prop in H as [H1 H2]. rewrite H1. simpl. eapply IH, H2.
Qed.

(** A text cut at the first occurrence of a stop holds no occurrence of it. *)
Lemma includes_take (a : N) (w : jsstring) :
  forall (n : nat) (s : jsstring),
    (forall j, (j < n)%nat -> starts_with (a :: w) (drop j s) = false) ->
    includes (take n s) (a :: w) = false.
Proof.
  induction n as [|n IH]; intros s H.
  - rewrite take_0. reflexivity.
  - destruct s as [|b s]; [reflexivity|].
    change (take (S n) (b :: s)) with (b :: take n s).
    change (includes (b :: take n s) (a :: w))
      with (starts_with (a :: w) (b :: take n s) || includes (take n s) (a :: w)).
    apply orb_false_iff. split.
    + destruct (starts_with (a :: w) (b :: take n s)) eqn:E; [|reflexivity].
      change (b :: take n s) with (take (S n) (b :: s)) in E.
      apply starts_with_take in E. rewrite <- (H O); [symmetry; exact E|lia].
    + apply IH. intros j Hj. apply (H (S j)). lia.
Qed.

(** ** What the body of a section holds *)

Lemma lookahead_Failure (fl : flags) (r1 r2 : regex) (x : mstate) :
  rmatch fl (RLook (RAlt r1 r2)) x Matched = Failure ->
  rmatch fl r1 x Matched = Failure.
Proof.
  simpl. destruct (rmatch fl r1 x Matched); simpl; try discriminate. reflexivity.
Qed.

(** The capture of a lazy [[\s\S]*?] followed by [(?=stop|$)] holds no
    occurrence of [stop]. *)
Lemma lazy_capture (fl : flags) (g : nat) (a : N) (w : jsstring) (x z : mstate) :
  (g < length (caps x))%nat ->
  rmatch fl (RSeq (RGroup g (lazy_star any)) (RLook (RAlt (lit (a :: w)) REol))) x Matched
  = Matched z ->
  exists body, caps z !! g = Some (Some body) /\ includes body (a :: w) = false.
Proof.
  intros Hg H.
  change (repeat_matcher (rmatch fl (RClass CAny)) [] false (S (0 + length (rest x))) 0 None x
            (fun y => rmatch fl (RLook (RAlt (lit (a :: w)) REol))
                        (mkState (pos y) (prev y) (rest y)
                           (<[g := Some (take (pos y - pos x) (rest x))]> (caps y)))
                        Matched)
          = Matched z) in H.
  apply lazy_any_through in H as (n & Hn & Hc & Hj).
  exists (take n (rest x)). split.
  - apply rmatch_through in Hc as (y & Hy & (_ & _ & _ & C)). injection Hy as <-.
    rewrite C.
    + simpl. destruct (advance_iter_rest n x Hn) as [Hp Hcaps].
      rewrite Hp, Hcaps. replace (pos x + n - pos x)%nat with n by lia.
      apply list_lookup_insert_eq. exact Hg.
    + change (parens (RLook (RAlt (lit (a :: w)) REol))) with (parens (lit (a :: w)) ++ []).
      rewrite parens_lit. simpl. tauto.
  - apply includes_take. intros j Hlt. specialize (Hj j Hlt).
    destruct (starts_with (a :: w) (drop j (rest x))) eqn:E; [|reflexivity].
    exfalso. apply lookahead_Failure in Hj. revert Hj.
    rewrite rmatch_lit_prefix by (simpl; rewrite iter_advance_rest; exact E).
    discriminate.
Qed.

Lemma group_of_caps (p e : nat) (text : jsstring) (cs : list (option jsstring))
    (g : nat) (body : jsstring) :
  g <> O -> cs !! g = Some (Some body) ->
  group (mkMatch p e (<[O := Some text]> cs)) g = Some body.
Proof.
  intros Hg H. unfold group. simpl. rewrite list_lookup_insert_ne by auto.
  rewrite H. reflexivity.
Qed.

(** The body of a section holds no occurrence of the stop of the section. *)
Lemma section_until_capture (fl : flags) (heading : jsstring) (a : N) (w : jsstring)
    (p : nat) (pv : option N) (s : jsstring) (m : rmatch_array) :
  match_at fl (section_until heading (a :: w)) 1 p pv s = Found m ->
  exists body, group m 1 = Some body /\ includes body (a :: w) = false.
Proof.
  intros H. apply match_at_Found in H as (z & H & ->).
  unfold section_until in H. cbn [seq] in H.
  change (rmatch fl (lit heading) (mkState p pv s (replicate 2 None))
            (fun y => rmatch fl (plus space) y
               (fun y' => rmatch fl (RSeq (RGroup 1 (lazy_star any))
                                          (RLook (RAlt (lit (a :: w)) REol))) y' Matched))
          = Matched z) in H.
  apply rmatch_through in H as (y1 & H & (_ & _ & L1 & _)).
  apply rmatch_through in H as (y2 & H & (_ & _ & L2 & _)).
  apply lazy_capture in H as (body & Hb & Hi); [|rewrite L2, L1; simpl; lia].
  exists body. split; [|exact Hi]. apply group_of_caps; [lia|exact Hb].
Qed.

Lemma label_until_capture (fl : flags) (label : jsstring) (a : N) (w : jsstring)
    (p : nat) (pv : option N) (s : jsstring) (m : rmatch_array) :
  match_at fl (label_until label (a :: w)) 1 p pv s = Found m ->
  exists body, group m 1 = Some body /\ includes body (a :: w) = false.
Proof.
  intros H. apply match_at_Found in H as (z & H & ->).
  unfold label_until in H. cbn [seq] in H.
  change (rmatch fl (lit label) (mkState p pv s (replicate 2 None))
            (fun y' => rmatch fl (RSeq (RGroup 1 (lazy_star any))
                                       (RLook (RAlt (lit (a :: w)) REol))) y' Matched)
          = Matched z) in H.
  apply rmatch_through in H as (y1 & H & (_ & _ & L1 & _)).
  apply lazy_capture in H as (body & Hb & Hi); [|rewrite L1; simpl; lia].
  exists body. split; [|exact Hi]. apply group_of_caps; [lia|exact Hb].
Qed.

(** What [match1] finds for a section pattern is a text without the stop. *)
Lemma match1_capture (fl : flags) (r : regex) (a : N) (w : jsstring) (s : jsstring) :
  (forall p pv s' m, match_at fl r 1 p pv s' = Found m ->
                     exists body, group m 1 = Some body /\ includes body (a :: w) = false) ->
  exists found, match1 fl r 1 s = Returns found
                /\ match found with
                   | Some body => includes body (a :: w) = false
                   | None => True
                   end.
Proof.
  intros Hr. unfold match1, exec.
  pose proof (search_not_OutOfFuel fl r 1 s O None) as Hf.
  destruct (search fl r 1 O None s) as [|m|] eqn:E; [| |congruence].
  - exists None. split; [reflexivity|exact I].
  - apply search_Found in E as (p' & pv' & s' & E).
    apply Hr in E as (body & -> & Hi). exists (Some body). split; [reflexivity|exact Hi].
Qed.

Lemma includes_cons_false (c : N) (t w : jsstring) :
  includes (c :: t) w = false -> starts_with w (c :: t) = false /\ includes t w = false.
Proof. simpl. intros H. apply orb_false_iff in H. exact H. Qed.

Lemma starts_with_app (u v s : jsstring) :
  starts_with (u ++ v) s = true -> starts_with u s = true.
Proof.
  revert s. induction u as [|a u IH]; intros s H; [reflexivity|].
  destruct s as [|b s]; [discriminate|]. simpl in *.
  apply andb_prop in H as [H1 H2]. rewrite H1. simpl. apply IH, H2.
Qed.

(** A pattern that starts with a literal matches nowhere in a text that
    holds no occurrence of a prefix of the literal. *)
Lemma search_literal_prefix (fl : flags) (u v : jsstring) (tail : regex) (n : nat) :
  ignoreCase fl = false ->
  forall (s : jsstring) (p : nat) (pv : option N),
    includes s u = false ->
    search fl (RSeq (lit (u ++ v)) tail) n p pv s = NoMatch.
Proof.
  intros Hfl.
  assert (Hat : forall s p pv, starts_with u s = false ->
                               match_at fl (RSeq (lit (u ++ v)) tail) n p pv s = NoMatch).
  { intros s p pv Hs. apply match_at_NoMatch.
    change (rmatch fl (lit (u ++ v)) (mkState p pv s (replicate (S n) None))
              (fun y => rmatch fl tail y Matched) = Failure).
    rewrite rmatch_lit_exact by exact Hfl. simpl rest.
    destruct (starts_with (u ++ v) s) eqn:E; [|reflexivity].
    apply starts_with_app in E. congruence. }
  induction s as [|c t IH]; intros p pv Hs.
  - simpl. rewrite Hat; [reflexivity|].
    destruct u; [discriminate|reflexivity].
  - apply includes_cons_false in Hs as [H1 H2].
    simpl. rewrite (Hat _ _ _ H1). apply IH, H2.
Qed.

Lemma exec_all_subheading (fl : flags) (u v : jsstring) (tail : regex) (n : nat)
    (s : jsstring) :
  ignoreCase fl = false -> includes s u = false ->
  exec_all fl (RSeq (lit (u ++ v)) tail) n s = Some [].
Proof.
  intros Hfl Hs. apply exec_all_go_NoMatch, search_literal_prefix; assumption.
Qed.

(** No sub-heading is found inside the body of a section. *)
Lemma subheading_none (body : jsstring) :
  includes body (js "##") = false ->
  exec_all no_flags subheadingRegex 2 body = Some []
  /\ exec_all flags_s categoryRegex 3 body = Some []
  /\ exec_all no_flags issueRegex 3 body = Some [].
Proof.
  intros H. repeat split;
    apply (exec_all_subheading _ (js "##") (js "# ")); auto.
Qed.

(** ** Parsers that never find what they look for *)

Lemma heading_body (heading response : jsstring) :
  exists found, match1 flags_i (headingRegex heading) 1 response = Returns found
                /\ match found with
                   | Some body => includes body (js "##") = false
                   | None => True
                   end.
Proof.
  apply (match1_capture flags_i (headingRegex heading) 35 [35]).
  intros p pv s' m. apply (section_until_capture flags_i (js "## " ++ heading) 35 [35]).
Qed.

Lemma element_section_empty (heading : jsstring) (kind : CompatibilityKind)
    (response : jsstring) :
  element_section heading kind response = Returns [].
Proof.
  unfold element_section.
  destruct (heading_body heading response) as ([body|] & -> & Hb); [|reflexivity].
  cbv beta iota delta [mbind outcome_bind]. unfold extractCompatibilityElements.
  destruct (subheading_none body Hb) as (-> & _). reflexivity.
Qed.

(** X1. On every response analyseSynthesisCompatibility returns four
    empty lists: the body captured for a [##] section ends before the next
    [##], so it holds no [###] sub-heading, and the loops over the elements
    and over the strategies find nothing. *)
Theorem analyseSynthesisCompatibility_always_empty :
  forall response : jsstring,
    analyseSynthesisCompatibility_parse response = Returns (mkCompatibility [] [] [] []).
Proof.
  intros response. unfold analyseSynthesisCompatibility_parse.
  rewrite !element_section_empty.
  destruct (heading_body (js "Возможные стратегии синтеза") response)
    as ([body|] & -> & Hb); [|reflexivity].
  cbv beta iota delta [mbind outcome_bind mret outcome_ret try_catch].
  destruct (subheading_none body Hb) as (-> & _). reflexivity.
Qed.

Lemma parse_categories_empty (response : jsstring) : parse_categories response = Returns [].
Proof.
  unfold parse_categories.
  destruct (heading_body (js "Категории") response) as ([body|] & -> & Hb); [|reflexivity].
  cbv beta iota delta [mbind outcome_bind].
  destruct (subheading_none body Hb) as (_ & -> & _). reflexivity.
Qed.

Lemma parse_connections_total (response : jsstring) :
  exists drafts, parse_connections response = Returns drafts.
Proof.
  unfold parse_connections.
  destruct (match1_total flags_i (headingRegex (js "Связи")) 1 response) as [[body|] ->];
    [|eexists; reflexivity].
  cbv beta iota delta [mbind outcome_bind].
  destruct (exec_all_total flags_s connectionRegex 6 body) as [ms ->];
    [vm_compute; lia|]. eexists. reflexivity.
Qed.

(** X2. On every response synthesizeConcepts either returns a
    concept whose graph has no category and no connection, which happens
    exactly when no connection is read, or throws the ReferenceError of the
    self-referencing initializer, which happens exactly when at least one
    connection is read; it never loops. No category is ever read. *)
Theorem synthesizeConcepts_graph_always_empty :
  forall (userId : jsstring) (concepts : list Concept) (method : jsstring)
         (parameters : SynthesisParams) (response : jsstring),
    (exists result,
        synthesizeConcepts_parse userId concepts method parameters response = Returns result
        /\ categories (sr_graph result) = []
        /\ connections (sr_graph result) = []
        /\ parse_connections response = Returns [])
    \/ (synthesizeConcepts_parse userId concepts method parameters response
        = Throws (Failed "Failed to synthesize concepts"
                    (ReferenceError "Cannot access 'partialGraph' before initialization"))
        /\ exists conn others, parse_connections response = Returns (conn :: others)).
Proof.
  intros userId concepts method parameters response.
  unfold synthesizeConcepts_parse.
  destruct (match1_total no_flags conceptNameRegex 1 response) as [name ->].
  destruct (match1_total flags_i (headingRegex (js "Описание")) 1 response) as [desc ->].
  rewrite parse_categories_empty.
  destruct (parse_connections_total response) as [[|conn others] ->].
  - left. eexists. split; [reflexivity|]. repeat split.
  - right. split; [|eauto].
    cbv beta iota delta [mbind outcome_bind]. rewrite build_partialGraph_throws. reflexivity.
Qed.

Lemma dimension_total (heading response : jsstring) :
  exists found, dimension heading response = Returns found.
Proof.
  unfold dimension, match_groups, exec.
  pose proof (search_not_OutOfFuel flags_i (dimensionRegex heading) 2 response O None) as H.
  destruct (search flags_i (dimensionRegex heading) 2 O None response); try congruence;
    eexists; reflexivity.
Qed.

Lemma labelled_list_total (label stop analysis : jsstring) :
  exists found, labelled_list label stop analysis = Returns found.
Proof.
  unfold labelled_list.
  destruct (match1_total flags_i (label_until label stop) 1 analysis) as [[body|] ->];
    [|eexists; reflexivity].
  cbv beta iota delta [mbind outcome_bind].
  destruct (bullets_total body) as [items ->]. eexists. reflexivity.
Qed.

(** X3. criticallyAnalyzeSynthesis returns on every response (it
    neither throws nor loops), and the list of potential issues of its
    result is always empty: the text captured after the heading of the
    issues ends before the first [###]. *)
Theorem criticallyAnalyzeSynthesis_reads_no_issue :
  forall response : jsstring,
    exists result,
      criticallyAnalyzeSynthesis_parse response = Returns result
      /\ potential_issues result = [].
Proof.
  intros response. unfold criticallyAnalyzeSynthesis_parse.
  destruct (dimension_total (js "Внутренняя согласованность") response) as [d1 ->].
  cbv beta iota delta [mbind outcome_bind].
  assert (H1 : exists v, match d1 with
    | Some (sc, analysis) =>
        issues ← labelled_list (js "Проблемы:") (nl ++ nl) analysis;
        Returns (mkConsistency sc analysis issues)
    | None => Returns (mkConsistency 0 [] None)
    end = Returns v).
  { destruct d1 as [[sc a]|]; [|eexists; reflexivity].
    destruct (labelled_list_total (js "Проблемы:") (nl ++ nl) a) as [l ->].
    eexists. reflexivity. }
  destruct H1 as [v1 H1].
  cbv beta iota delta [mbind outcome_bind] in H1. rewrite H1.
  destruct (dimension_total (js "Философская новизна") response) as [d2 ->].
  assert (H2 : exists v, match d2 with
    | Some (sc, analysis) =>
        novel ← labelled_list (js "Новые элементы:") (nl ++ nl) analysis;
        Returns (mkNovelty sc analysis novel)
    | None => Returns (mkNovelty 0 [] None)
    end = Returns v).
  { destruct d2 as [[sc a]|]; [|eexists; reflexivity].
    destruct (labelled_list_total (js "Новые элементы:") (nl ++ nl) a) as [l ->].
    eexists. reflexivity. }
  destruct H2 as [v2 H2].
  cbv beta iota delta [mbind outcome_bind] in H2. rewrite H2.
  destruct (dimension_total (js "Сохранение ценных аспектов") response) as [d3 ->].
  assert (H3 : exists v, match d3 with
    | Some (sc, analysis) =>
        preserved ←
          labelled_list (js "Сохраненные элементы:") (js "Утраченные элементы:") analysis;
        lost ← labelled_list (js "Утраченные элементы:") (nl ++ nl) analysis;
        Returns (mkPreservation sc analysis preserved lost)
    | None => Returns (mkPreservation 0 [] None None)
    end = Returns v).
  { destruct d3 as [[sc a]|]; [|eexists; reflexivity].
    destruct (labelled_list_total (js "Сохраненные элементы:") (js "Утраченные элементы:") a)
      as [l ->].
    destruct (labelled_list_total (js "Утраченные элементы:") (nl ++ nl) a) as [l' ->].
    eexists. reflexivity. }
  destruct H3 as [v3 H3].
  cbv beta iota delta [mbind outcome_bind] in H3. rewrite H3.
  destruct (dimension_total (js "Разрешение противоречий") response) as [d4 ->].
  assert (H4 : exists v, match d4 with
    | Some (sc, analysis) =>
        resolved ←
          labelled_list (js "Разрешенные противоречия:") (js "Оставшиеся противоречия:")
                        analysis;
        remaining ← labelled_list (js "Оставшиеся противоречия:") (nl ++ nl) analysis;
        Returns (mkResolution sc analysis resolved remaining)
    | None => Returns (mkResolution 0 [] None None)
    end = Returns v).
  { destruct d4 as [[sc a]|]; [|eexists; reflexivity].
    destruct (labelled_list_total (js "Разрешенные противоречия:")
                (js "Оставшиеся противоречия:") a) as [l ->].
    destruct (labelled_list_total (js "Оставшиеся противоречия:") (nl ++ nl) a) as [l' ->].
    eexists. reflexivity. }
  destruct H4 as [v4 H4].
  cbv beta iota delta [mbind outcome_bind] in H4. rewrite H4.
  destruct (match1_capture flags_i (label_until (js "## Потенциальные проблемы") (js "##"))
              35 [35] response) as ([body|] & -> & Hb).
  { intros p pv s' m.
    apply (label_until_capture flags_i (js "## Потенциальные проблемы") 35 [35]). }
  - destruct (subheading_none body Hb) as (_ & _ & ->).
    eexists. split; reflexivity.
  - eexists. split; reflexivity.
Qed.

(** ** Parsers that always return *)

Lemma collect_total {A B : Type} (f : A -> outcome B) (l : list A) :
  (forall a, exists b, f a = Returns b) -> exists bs, collect f l = Returns bs.
Proof.
  intros Hf. induction l as [|a l [bs IH]]; [eexists; reflexivity|].
  destruct (Hf a) as [b Hb]. simpl. rewrite Hb, IH. eexists. reflexivity.
Qed.

Lemma thesis_of_match_total (g : ConceptGraph) (parameters : ThesisGenerationParams)
    (m : rmatch_array) :
  exists t, thesis_of_match g parameters m = Returns t.
Proof.
  unfold thesis_of_match.
  destruct (split_total no_flags commaRegex (trimmed_or_empty m 2)) as [names ->].
  eexists. reflexivity.
Qed.

Lemma resolve_sources_sound (g : ConceptGraph) (names : list jsstring) :
  Forall (fun id => exists c name,
            In c (categories g) /\ category_id c = id /\ In name names
            /\ toLowerCase (category_name c) = toLowerCase name)
         (resolve_sources g names).
Proof.
  unfold resolve_sources. induction names as [|name names IH]; [constructor|].
  simpl. assert (IH' : Forall (fun id => exists c name0,
            In c (categories g) /\ category_id c = id /\ In name0 (name :: names)
            /\ toLowerCase (category_name c) = toLowerCase name0)
         (omap (fun name => option_map category_id (find_category_ci (categories g) name))
               names)).
  { eapply List.Forall_impl; [|exact IH].
    intros id (c & n & H1 & H2 & H3 & H4). exists c, n.
    split; [exact H1|]. split; [exact H2|]. split; [right; exact H3|exact H4]. }
  destruct (find_category_ci (categories g) name) as [c|] eqn:E; simpl; [|exact IH'].
  constructor; [|exact IH'].
  apply find_some in E as [Hin He]. apply str_eqb_eq in He.
  exists c, name. split; [exact Hin|]. split; [reflexivity|].
  split; [left; reflexivity|exact He].
Qed.

Lemma thesis_of_match_sources (g : ConceptGraph) (parameters : ThesisGenerationParams)
    (m : rmatch_array) (t : Thesis) :
  thesis_of_match g parameters m = Returns t ->
  thesis_concept_id t = concept_id g
  /\ Forall (fun id => exists c, In c (categories g) /\ category_id c = id)
            (df_categories (derived_from t)).
Proof.
  unfold thesis_of_match. intros H.
  destruct (split no_flags commaRegex (trimmed_or_empty m 2)) as [names|]; [|discriminate].
  cbv beta iota delta [of_option mbind outcome_bind] in H. injection H as <-.
  split; [reflexivity|]. cbn [derived_from df_categories].
  eapply List.Forall_impl; [|apply resolve_sources_sound].
  intros id (c & n & H1 & H2 & _). exists c. split; assumption.
Qed.

(** X4. generateTheses returns on every response (the loop over
    the matches ends, since a match is never empty), every thesis carries
    the identifier of the concept of the graph, and every identifier in its
    derived_from.categories is the identifier of a category of the graph. *)
Theorem generateTheses_returns_known_categories :
  forall (g : ConceptGraph) (parameters : ThesisGenerationParams) (response : jsstring),
    exists theses,
      generateTheses_parse g parameters response = Returns theses
      /\ Forall (fun t =>
                   thesis_concept_id t = concept_id g
                   /\ Forall (fun id => exists c, In c (categories g) /\ category_id c = id)
                             (df_categories (derived_from t)))
                theses.
Proof.
  intros g parameters response. unfold generateTheses_parse.
  destruct (exec_all_total flags_ms thesisRegex 3 response) as [ms ->];
    [vm_compute; lia|].
  cbv beta iota delta [of_option mbind outcome_bind].
  destruct (collect_total (thesis_of_match g parameters) ms
              (thesis_of_match_total g parameters)) as [theses H].
  exists theses. rewrite H. split; [reflexivity|].
  eapply collect_Forall; [|exact H]. intros m t. apply thesis_of_match_sources.
Qed.

Lemma bullets_raw_total (text : jsstring) : exists items, bullets_raw text = Returns items.
Proof.
  unfold bullets_raw. destruct (split_total no_flags bulletRegex text) as [pieces ->].
  eexists. reflexivity.
Qed.

Lemma validateGraph_long (response : jsstring) (s0 s1 s2 s3 s4 : jsstring)
    (more : list jsstring) :
  split no_flags sectionSplitRegex response = Some (s0 :: s1 :: s2 :: s3 :: s4 :: more) ->
  exists result,
    validateGraph_parse response = Returns result /\ general_analysis result = trim s1.
Proof.
  intros Hs. unfold validateGraph_parse. rewrite Hs.
  change (of_option (Some ?l)) with (Returns l).
  cbv beta iota delta [mbind outcome_bind].
  change (4 <=? length (s0 :: s1 :: s2 :: s3 :: s4 :: more))%nat with true. cbv iota.
  change (section_trim (s0 :: s1 :: s2 :: s3 :: s4 :: more) 1) with (Returns (trim s1)).
  change (section_trim (s0 :: s1 :: s2 :: s3 :: s4 :: more) 2) with (Returns (trim s2)).
  change (section_trim (s0 :: s1 :: s2 :: s3 :: s4 :: more) 3) with (Returns (trim s3)).
  change (section_trim (s0 :: s1 :: s2 :: s3 :: s4 :: more) 4) with (Returns (trim s4)).
  cbv iota beta.
  destruct (issues_of_total contradiction (trim s2)) as [i2 ->].
  destruct (issues_of_total missing_element (trim s3)) as [i3 ->].
  destruct (bullets_raw_total (trim s4)) as [i4 ->].
  eexists. split; reflexivity.
Qed.

(** X5. The response always splits, and validateGraph throws (a
    TypeError on [sections[4]]) exactly when the split has four pieces. With
    fewer pieces the response is the general analysis; with five or more the
    general analysis is the trimmed second piece. *)
Theorem validateGraph_throws_exactly_on_four_pieces :
  forall response : jsstring,
    exists sections,
      split no_flags sectionSplitRegex response = Some sections
      /\ if Nat.eqb (length sections) 4 then
           validateGraph_parse response
           = Throws (Failed "Failed to validate graph"
                       (TypeError "Cannot read properties of undefined (reading 'trim')"))
         else
           exists result,
             validateGraph_parse response = Returns result
             /\ general_analysis result
                = if (length sections <? 4)%nat then response
                  else trim (default [] (sections !! 1%nat)).
Proof.
  intros response.
  destruct (split_total no_flags sectionSplitRegex response) as [sections Hs].
  exists sections. split; [exact Hs|].
  destruct (Nat.eqb_spec (length sections) 4) as [H4|H4].
  - apply (validateGraph_four_pieces_throws response sections Hs H4).
  - destruct (Nat.ltb_spec (length sections) 4) as [Hlt|Hge].
    + exists (mkValidation response [] [] []). split; [|reflexivity].
      apply (validateGraph_short response sections Hs Hlt).
    + destruct sections as [|s0 [|s1 [|s2 [|s3 [|s4 more]]]]]; simpl in Hge; simpl in H4;
        try lia. simpl default.
      apply (validateGraph_long response s0 s1 s2 s3 s4 more Hs).
Qed.

Lemma filter_nonempty (l : list jsstring) :
  Forall (fun t => t <> []) (List.filter (fun t => negb (Nat.eqb (length t) 0)) l).
Proof.
  apply List.Forall_forall. intros t Ht. apply filter_In in Ht as [_ Ht].
  destruct t; [discriminate|discriminate].
Qed.

Lemma bullets_nonempty (body : jsstring) :
  exists items, bullets body = Returns items /\ Forall (fun t => t <> []) items.
Proof.
  unfold bullets. destruct (bullets_raw_total body) as [raw ->].
  eexists. split; [reflexivity|]. apply filter_nonempty.
Qed.

Lemma bullet_section_nonempty (r : regex) (s : jsstring) :
  exists items, bullet_section r s [] = Returns items /\ Forall (fun t => t <> []) items.
Proof.
  unfold bullet_section. destruct (match1_total flags_i r 1 s) as [[found|] ->].
  - apply bullets_nonempty.
  - eexists. split; [reflexivity|constructor].
Qed.

Lemma split_str_go_nonempty (sep : jsstring) :
  forall (s : jsstring) (skip : nat) (piece : jsstring),
    (1 <= length (split_str_go sep skip piece s))%nat.
Proof.
  induction s as [|c t IH]; intros skip piece; simpl; [lia|].
  destruct skip; [|apply IH]. destruct (starts_with sep (c :: t)); [simpl; lia|apply IH].
Qed.

(** A string that holds a separator splits into two pieces at least. *)
Lemma split_str_go_two (a : N) (sep : jsstring) :
  forall (s : jsstring) (piece : jsstring),
    includes s (a :: sep) = true ->
    (2 <= length (split_str_go (a :: sep) O piece s))%nat.
Proof.
  induction s as [|c t IH]; intros piece H; [discriminate|].
  change (includes (c :: t) (a :: sep))
    with (starts_with (a :: sep) (c :: t) || includes t (a :: sep)) in H.
  change (split_str_go (a :: sep) O piece (c :: t))
    with (if starts_with (a :: sep) (c :: t)
          then rev piece :: split_str_go (a :: sep) (Nat.pred (length (a :: sep))) [] t
          else split_str_go (a :: sep) O (c :: piece) t).
  destruct (starts_with (a :: sep) (c :: t)).
  - pose proof (split_str_go_nonempty (a :: sep) t (Nat.pred (length (a :: sep))) []).
    simpl length in *. lia.
  - apply IH. exact H.
Qed.

Lemma after_label_total (text : jsstring) (a : N) (label : jsstring) :
  exists out, after_label text (a :: label) = Returns out.
Proof.
  unfold after_label. destruct (includes text (a :: label)) eqn:E; [|eexists; reflexivity].
  pose proof (split_str_go_two a label text [] E) as H. unfold split_str.
  destruct (split_str_go (a :: label) O [] text) as [|p0 [|p1 more]]; simpl in H; try lia.
  eexists. reflexivity.
Qed.

(** X6. extractCompatibilityExplanation never throws: when the text
    includes the label, splitting at the label gives a second piece. *)
Theorem extractCompatibilityExplanation_never_throws :
  forall (text : jsstring) (kind : CompatibilityKind),
    exists out, extractCompatibilityExplanation text kind = Returns out.
Proof.
  intros text kind. unfold extractCompatibilityExplanation.
  destruct kind;
    match goal with
    | |- context [after_label text ?l] =>
        let v := eval vm_compute in l in
        change l with v; apply after_label_total
    end.
Qed.

(** X7. enrichCategory, enrichConnection and developThesis return
    on every response; the items of the lists of an enrichment are never
    empty strings, enrichConnection leaves related_concepts empty, and
    developThesis keeps the text of the thesis. *)
Theorem section_parsers_total :
  forall response : jsstring,
    (exists result,
        enrichCategory_parse response = Returns result
        /\ Forall (fun t => t <> []) (alternative_interpretations result)
        /\ Forall (fun t => t <> []) (historical_analogs result)
        /\ Forall (fun t => t <> []) (related_concepts result))
    /\ (exists result,
          enrichConnection_parse response = Returns result
          /\ Forall (fun t => t <> []) (alternative_interpretations result)
          /\ Forall (fun t => t <> []) (historical_analogs result)
          /\ related_concepts result = [])
    /\ (forall thesis,
          exists result,
            developThesis_parse thesis response = Returns result
            /\ dev_text result = thesis_text thesis).
Proof.
  intros response. split; [|split].
  - unfold enrichCategory_parse.
    destruct (text_section_total (headingRegex (js "Расширенное описание")) response response)
      as [a ->].
    destruct (bullet_section_nonempty (headingRegex (js "Альтернативные трактовки")) response)
      as (b & -> & Hb).
    destruct (bullet_section_nonempty (headingRegex (js "Исторические аналоги")) response)
      as (c & -> & Hc).
    destruct (bullet_section_nonempty (headingRegex (js "Связанные концепты")) response)
      as (d & -> & Hd).
    eexists. split; [reflexivity|]. repeat split; assumption.
  - unfold enrichConnection_parse.
    destruct (text_section_total (headingRegex (js "Философское обоснование")) response
                response) as [a ->].
    destruct (bullet_section_nonempty (headingRegex (js "Возможные контраргументы")) response)
      as (b & -> & Hb).
    destruct (bullet_section_nonempty (headingRegex (js "Аналогичные связи")) response)
      as (c & -> & Hc).
    eexists. split; [reflexivity|]. repeat split; assumption.
  - intros thesis. unfold developThesis_parse.
    destruct (text_section_total (headingRegex (js "Философское обоснование")) response [])
      as [a ->].
    destruct (text_section_total (headingRegex (js "Возможные контраргументы")) response [])
      as [b ->].
    destruct (text_section_total (headingRegex (js "Исторические аналоги")) response [])
      as [c ->].
    destruct (text_section_total (headingRegex (js "Практические следствия")) response [])
      as [d ->].
    eexists. split; reflexivity.
Qed.

Lemma one_of_three {A : Type} (b1 b2 : bool) (x y z : A) :
  In (if b1 then x else if b2 then y else z) [x; y; z].
Proof. destruct b1, b2; simpl; auto. Qed.

(** X8. The parsing of compareThesisSets returns on every response
    and keeps the response as raw_comparison. Its guard asks for the five
    pieces it reads: with five or more the analysis, the impact of the
    weights and the explanation are the trimmed second, fourth and fifth
    piece and better_set is one of with_weights, without_weights and
    inconclusive; with fewer every other field is empty. *)
Theorem compareThesisSets_never_throws :
  forall response : jsstring,
    exists sections result,
      split no_flags sectionSplitRegex response = Some sections
      /\ compareThesisSets_parse response = Returns result
      /\ raw_comparison result = response
      /\ if (5 <=? length sections)%nat then
           cmp_general_analysis result = trim (default [] (sections !! 1%nat))
           /\ weights_impact result = trim (default [] (sections !! 3%nat))
           /\ explanation (evaluation result) = trim (default [] (sections !! 4%nat))
           /\ In (better_set (evaluation result))
                 [js "with_weights"; js "without_weights"; js "inconclusive"]
         else result = mkComparison [] [] [] (mkEvaluation [] []) response.
Proof.
  intros response.
  destruct (split_total no_flags sectionSplitRegex response) as [sections Hs].
  exists sections. unfold compareThesisSets_parse. rewrite Hs.
  change (of_option (Some sections)) with (Returns sections).
  cbv beta iota delta [mbind outcome_bind].
  destruct (Nat.leb_spec 5 (length sections)) as [Hge|Hlt].
  - destruct sections as [|s0 [|s1 [|s2 [|s3 [|s4 more]]]]]; simpl in Hge; try lia.
    change (section_trim (s0 :: s1 :: s2 :: s3 :: s4 :: more) 1) with (Returns (trim s1)).
    change (section_trim (s0 :: s1 :: s2 :: s3 :: s4 :: more) 2) with (Returns (trim s2)).
    change (section_trim (s0 :: s1 :: s2 :: s3 :: s4 :: more) 3) with (Returns (trim s3)).
    change (section_trim (s0 :: s1 :: s2 :: s3 :: s4 :: more) 4) with (Returns (trim s4)).
    cbv iota beta.
    destruct (split_total no_flags exampleRegex (trim s2)) as [pieces ->].
    eexists. split; [reflexivity|]. split; [reflexivity|]. split; [reflexivity|].
    cbn [cmp_general_analysis weights_impact evaluation explanation better_set].
    split; [reflexivity|]. split; [reflexivity|]. split; [reflexivity|].
    apply one_of_three.
  - eexists. split; [reflexivity|]. split; [reflexivity|]. split; reflexivity.
Qed.

(** ** Placeholders that are not declared *)

Lemma starts_with_self (u v : jsstring) : starts_with u (u ++ v) = true.
Proof.
  induction u as [|a u IH]; [reflexivity|]. simpl. rewrite N.eqb_refl, IH. reflexivity.
Qed.

Lemma includes_app_r (u s w : jsstring) : includes s w = true -> includes (u ++ s) w = true.
Proof.
  intros H. induction u as [|a u IH]; [exact H|].
  change (includes ((a :: u) ++ s) w)
    with (starts_with w (a :: u ++ s) || includes (u ++ s) w).
  rewrite IH. apply orb_true_r.
Qed.

Lemma includes_prefix (w v : jsstring) : includes (w ++ v) w = true.
Proof.
  destruct w as [|a w]; [destruct v; reflexivity|].
  change (includes ((a :: w) ++ v) (a :: w))
    with (starts_with (a :: w) ((a :: w) ++ v) || includes (w ++ v) (a :: w)).
  rewrite starts_with_self. reflexivity.
Qed.

Lemma includes_flatten (cs : list chunk) (c : chunk) :
  In c cs -> includes (flatten cs) (chunk_text c) = true.
Proof.
  induction cs as [|d cs IH]; [intros []|intros [<-|Hin]].
  - apply includes_prefix.
  - apply (includes_app_r (chunk_text d)), IH, Hin.
Qed.

(** X9. A placeholder whose name is not among the declared
    parameters of the template is still in the prompt that preparePrompt
    returns (under the conditions of the theorem on declared placeholders:
    declared names that are plain and that the data define or no object
    inherits, a text made of inert text and placeholders, substituted texts
    that are inert and free of [$]). *)
Theorem undeclared_placeholder_survives :
  forall (w : world) (name : jsstring) (t : PromptTemplate) (data : gmap jsstring json)
         (cs : list chunk) (p : jsstring),
    templatesLoaded w = true -> templates w !! name = Some t ->
    forallb plain_name (parameters t) = true ->
    forallb (ordinary data) (parameters t) = true ->
    template t = flatten cs -> well_formed cs = true ->
    fit_values data (parameters t) = true ->
    In (Hole p) cs -> ~ In p (parameters t) ->
    exists out,
      preparePrompt name data w = (Returns out, w)
      /\ includes out (placeholder p) = true.
Proof.
  intros w name t data cs p Hl Ht Hp Ho Hcs Hw Hf Hin Hnot.
  exists (flatten (List.map (fill data (parameters t)) cs)). split.
  - rewrite (preparePrompt_loaded w name t data Hl Ht).
    unfold render. rewrite Hcs, substitute_all_chunks by assumption. reflexivity.
  - apply (includes_flatten _ (Hole p)).
    apply in_map_iff. exists (Hole p). split; [|exact Hin].
    simpl. destruct (mem p (parameters t)) eqn:E; [|reflexivity].
    apply mem_In in E. contradiction.
Qed.

Lemma undeclared_placeholder_survives_witness :
  exists out,
    preparePrompt (js "graph_validation") sample_data partial_world
    = (Returns out, partial_world)
    /\ includes out (placeholder (js "extra")) = true.
Proof.
  apply (undeclared_placeholder_survives partial_world (js "graph_validation")
           partial_template sample_data partial_chunks (js "extra")).
  - reflexivity.
  - vm_compute. reflexivity.
  - vm_compute. reflexivity.
  - vm_compute. reflexivity.
  - vm_compute. reflexivity.
  - vm_compute. reflexivity.
  - vm_compute. reflexivity.
  - do 3 right. left. reflexivity.
  - intros [H|[]]. vm_compute in H. discriminate.
Defined.

(** ** Parameters named like inherited properties *)

(** A declared parameter without a value is erased, unless the data
    inherit a property of its name: the placeholder of [constructor] stays,
    that of [toString] becomes the class of [undefined], that of
    [__proto__] an empty object, and that of [valueOf] makes the rendering
    throw. *)
Example inherited_names_are_not_missing :
  preparePrompt (js "graph_validation") ∅ (inherited_world (js "concept_name"))
  = (Returns (js "A  B"), inherited_world (js "concept_name"))
  /\ preparePrompt (js "graph_validation") ∅ (inherited_world (js "constructor"))
     = (Returns (js "A {{constructor}} B"), inherited_world (js "constructor"))
  /\ preparePrompt (js "graph_validation") ∅ (inherited_world (js "toString"))
     = (Returns (js "A [object Undefined] B"), inherited_world (js "toString"))
  /\ preparePrompt (js "graph_validation") ∅ (inherited_world (js "__proto__"))
     = (Returns (js "A {} B"), inherited_world (js "__proto__"))
  /\ preparePrompt (js "graph_validation") ∅ (inherited_world (js "valueOf"))
     = (Throws (Failed "Failed to prepare prompt"
                  (TypeError "Cannot convert undefined or null to object")),
        inherited_world (js "valueOf")).
Proof. repeat split; vm_compute; reflexivity. Qed.

Lemma matches_go_unfold (fl : flags) (r : regex) (ncaps : nat)
    (skip p : nat) (pv : option N) (s : jsstring) :
  matches_go fl r ncaps skip p pv s
  = match skip with
    | S k =>
        match s with
        | [] => Some []
        | c :: t => matches_go fl r ncaps k (S p) (Some c) t
        end
    | O =>
        match match_at fl r ncaps p pv s with
        | OutOfFuel => None
        | NoMatch =>
            match s with
            | [] => Some []
            | c :: t => matches_go fl r ncaps O (S p) (Some c) t
            end
        | Found m =>
            let len := (m_end m - p)%nat in
            match s with
            | [] => Some [(p, len)]
            | c :: t =>
                option_map (cons (p, len))
                  (matches_go fl r ncaps (len - 1) (S p) (Some c) t)
            end
        end
    end.
Proof. destruct s, skip; reflexivity. Qed.

Lemma matches_go_literal_total (w : jsstring) :
  forall (s : jsstring) (skip p : nat) (pv : option N),
    is_Some (matches_go no_flags (lit w) 0 skip p pv s).
Proof.
  induction s as [|c t IH]; intros skip p pv;
    rewrite matches_go_unfold; destruct skip as [|k]; try (eexists; reflexivity);
    try apply IH.
  - rewrite match_at_lit. destruct (starts_with w []); eexists; reflexivity.
  - rewrite match_at_lit. destruct (starts_with w (c :: t)); cbv zeta.
    + match goal with
      | |- is_Some (option_map _ (matches_go ?fl ?r ?n ?k ?q ?pv' ?s')) =>
          destruct (IH k q pv') as [out ->]
      end. eexists. reflexivity.
    + apply IH.
Qed.

(** Where the text holds the literal the list of the matches is not empty. *)
Lemma matches_go_literal_found (w : jsstring) :
  forall (s : jsstring) (p : nat) (pv : option N),
    includes s w = true ->
    exists start len others,
      matches_go no_flags (lit w) 0 O p pv s = Some ((start, len) :: others).
Proof.
  induction s as [|c t IH]; intros p pv H; rewrite matches_go_unfold, match_at_lit.
  - simpl in H. rewrite orb_false_r in H. rewrite H. eexists _, _, _. reflexivity.
  - change (includes (c :: t) w) with (starts_with w (c :: t) || includes t w) in H.
    destruct (starts_with w (c :: t)); cbv zeta.
    + match goal with
      | |- context [option_map _ (matches_go ?fl ?r ?n ?k ?q ?pv' ?s')] =>
          destruct (matches_go_literal_total w s' k q pv') as [out ->]
      end. eexists _, _, _. reflexivity.
    + simpl in H. apply IH, H.
Qed.

Lemma needs_receiver_method (data : gmap jsstring json) (p : jsstring) :
  In p needs_receiver -> data !! p = None ->
  exists m detail,
    get data p = Method m /\ forall matched, call m matched = Throws (TypeError detail).
Proof.
  intros Hin Hnone. unfold get. rewrite Hnone.
  repeat (destruct Hin as [<-|Hin];
          [eexists _, _; split; [vm_compute; reflexivity|intros matched; reflexivity]|]).
  destruct Hin.
Qed.

(** X29. A declared parameter without a value is not always
    erased. When it is named like a method that every object inherits and
    that needs a receiver (valueOf, hasOwnProperty, propertyIsEnumerable,
    toLocaleString and the four accessor helpers), [data[param]] is that
    method; handed to [replace] it is called without a receiver for the
    first placeholder found, and preparePrompt throws. This is shown for the
    first declared parameter of a loaded template whose text holds the
    placeholder. *)
Theorem inherited_method_breaks_rendering :
  forall (w : world) (name : jsstring) (t : PromptTemplate) (data : gmap jsstring json)
         (p : jsstring) (others : list jsstring),
    templatesLoaded w = true -> templates w !! name = Some t ->
    parameters t = p :: others ->
    In p needs_receiver -> data !! p = None ->
    includes (template t) (placeholder p) = true ->
    exists detail : string,
      preparePrompt name data w
      = (Throws (Failed "Failed to prepare prompt" (TypeError detail)), w).
Proof.
  intros w name t data p others Hl Ht Hps Hp Hnone Hin.
  destruct (needs_receiver_method data p Hp Hnone) as (m & detail & Hget & Hcall).
  exists detail.
  rewrite (preparePrompt_loaded w name t data Hl Ht). unfold render. rewrite Hps.
  change (substitute_all data (template t) (p :: others))
    with (prompt' ← substitute data (template t) p; substitute_all data prompt' others).
  unfold substitute. rewrite Hget. unfold replace_with, placeholderRegex.
  destruct (matches_go_literal_found (placeholder p) (template t) O None Hin)
    as (start & len & ms & ->).
  cbn [of_option mbind outcome_bind splice]. rewrite Hcall. reflexivity.
Qed.

Lemma inherited_method_breaks_rendering_witness :
  exists detail : string,
    preparePrompt (js "graph_validation") ∅ (inherited_world (js "valueOf"))
    = (Throws (Failed "Failed to prepare prompt" (TypeError detail)),
       inherited_world (js "valueOf")).
Proof.
  apply (inherited_method_breaks_rendering (inherited_world (js "valueOf"))
           (js "graph_validation") (inherited_template (js "valueOf")) ∅
           (js "valueOf") []).
  - reflexivity.
  - vm_compute. reflexivity.
  - reflexivity.
  - do 3 right. left. reflexivity.
  - apply lookup_empty.
  - vm_compute. reflexivity.
Defined.

(** ** The parameters of the generation *)

Lemma collect_map {A B C : Type} (f f' : A -> outcome B) (h : B -> C) (l : list A) :
  (forall a b b', f a = Returns b -> f' a = Returns b' -> h b = h b') ->
  forall bs bs', collect f l = Returns bs -> collect f' l = Returns bs' ->
                 List.map h bs = List.map h bs'.
Proof.
  intros Hf. induction l as [|a l IH]; intros bs bs' H H'; simpl in H, H'.
  - injection H as <-. injection H' as <-. reflexivity.
  - destruct (f a) as [b| |] eqn:Ea; simpl in H; try discriminate.
    destruct (collect f l) as [cs| |]; simpl in H; try discriminate.
    destruct (f' a) as [b'| |] eqn:Ea'; simpl in H'; try discriminate.
    destruct (collect f' l) as [cs'| |]; simpl in H'; try discriminate.
    injection H as <-. injection H' as <-. simpl.
    rewrite (Hf a b b' Ea Ea'), (IH cs cs' eq_refl eq_refl). reflexivity.
Qed.

(** X10. The parameters of the generation do not shape what
    generateTheses reads: for the same graph and response, two sets of
    parameters give theses with the same texts and the same sources, one per
    numbered item of the response, whatever the requested count. *)
Theorem generateTheses_ignores_parameters :
  forall (g : ConceptGraph) (parameters parameters' : ThesisGenerationParams)
         (response : jsstring),
    exists theses theses',
      generateTheses_parse g parameters response = Returns theses
      /\ generateTheses_parse g parameters' response = Returns theses'
      /\ List.map thesis_text theses = List.map thesis_text theses'
      /\ List.map derived_from theses = List.map derived_from theses'.
Proof.
  intros g parameters parameters' response. unfold generateTheses_parse.
  destruct (exec_all_total flags_ms thesisRegex 3 response) as [ms ->];
    [vm_compute; lia|].
  cbv beta iota delta [of_option mbind outcome_bind].
  destruct (collect_total (thesis_of_match g parameters) ms
              (thesis_of_match_total g parameters)) as [theses H].
  destruct (collect_total (thesis_of_match g parameters') ms
              (thesis_of_match_total g parameters')) as [theses' H'].
  exists theses, theses'. rewrite H, H'.
  split; [reflexivity|]. split; [reflexivity|].
  assert (Hsame : forall m t t',
            thesis_of_match g parameters m = Returns t ->
            thesis_of_match g parameters' m = Returns t' ->
            thesis_text t = thesis_text t' /\ derived_from t = derived_from t').
  { intros m t t'. unfold thesis_of_match.
    destruct (split no_flags commaRegex (trimmed_or_empty m 2)) as [names|];
      [|discriminate].
    cbv beta iota delta [of_option mbind outcome_bind].
    intros Ht Ht'. injection Ht as <-. injection Ht' as <-. split; reflexivity. }
  split.
  - apply (collect_map (thesis_of_match g parameters) (thesis_of_match g parameters') thesis_text ms); [|exact H|exact H'].
    intros m t t' Ht Ht'. exact (proj1 (Hsame m t t' Ht Ht')).
  - apply (collect_map (thesis_of_match g parameters) (thesis_of_match g parameters') derived_from ms); [|exact H|exact H'].
    intros m t t' Ht Ht'. exact (proj2 (Hsame m t t' Ht Ht')).
Qed.

(** ** Dollar signs in the values *)

Lemma capture_text_single (g : option jsstring) (i : N) : capture_text [g] i = None.
Proof.
  unfold capture_text. destruct (N.leb_spec 1 i) as [H|H]; [|reflexivity].
  simpl. destruct (Nat.ltb_spec (N.to_nat i) 1); [lia|reflexivity].
Qed.

Lemma get_substitution_unfold (matched before after : jsstring)
    (groups : list (option jsstring)) (c : N) (t1 : jsstring) :
  get_substitution matched before after groups (c :: t1)
  = if negb (c =? 36) then c :: get_substitution matched before after groups t1
    else
      match t1 with
      | [] => [36]
      | d :: t2 =>
          if d =? 36 then 36 :: get_substitution matched before after groups t2
          else if d =? 38 then matched ++ get_substitution matched before after groups t2
          else if d =? 96 then before ++ get_substitution matched before after groups t2
          else if d =? 39 then after ++ get_substitution matched before after groups t2
          else if is_digit d then
            let one := capture_text groups (d - 48) in
            match t2 with
            | d2 :: t3 =>
                match (if is_digit d2
                       then capture_text groups ((d - 48) * 10 + (d2 - 48))
                       else None), one with
                | Some g, _ => g ++ get_substitution matched before after groups t3
                | None, Some g => g ++ get_substitution matched before after groups t2
                | None, None => 36 :: get_substitution matched before after groups t1
                end
            | [] =>
                match one with
                | Some g => g
                | None => 36 :: get_substitution matched before after groups t1
                end
            end
          else 36 :: get_substitution matched before after groups t1
      end.
Proof. destruct t1 as [|d [|d2 t3]]; reflexivity. Qed.

Lemma context_free_unfold (c : N) (t1 : jsstring) :
  context_free (c :: t1)
  = if negb (c =? 36) then context_free t1
    else
      match t1 with
      | [] => true
      | d :: t2 =>
          if (d =? 36) || (d =? 38) then context_free t2
          else if (d =? 96) || (d =? 39) then false
          else context_free t1
      end.
Proof. destruct t1; reflexivity. Qed.

(** Without [$`] and [$'] the expansion does not depend on the place of
    the match. *)
Lemma get_substitution_context_free (matched before after : jsstring)
    (g : option jsstring) :
  forall (n : nat) (t : jsstring),
    (length t <= n)%nat -> context_free t = true ->
    get_substitution matched before after [g] t
    = get_substitution matched [] [] [Some matched] t.
Proof.
  induction n as [|n IH]; intros t Hn Hc.
  - destruct t; [reflexivity|simpl in Hn; lia].
  - destruct t as [|c t1]; [reflexivity|].
    rewrite !get_substitution_unfold. rewrite context_free_unfold in Hc.
    simpl in Hn. destruct (negb (c =? 36)).
    + rewrite (IH t1) by (auto; lia). reflexivity.
    + destruct t1 as [|d t2]; [reflexivity|]. simpl in Hn.
      rewrite !capture_text_single.
      destruct (d =? 36) eqn:E1; simpl in Hc.
      { rewrite (IH t2) by (auto; lia). reflexivity. }
      destruct (d =? 38) eqn:E2; simpl in Hc.
      { rewrite (IH t2) by (auto; lia). reflexivity. }
      destruct (d =? 96) eqn:E3; simpl in Hc; [discriminate|].
      destruct (d =? 39) eqn:E4; simpl in Hc; [discriminate|].
      assert (Hrec : get_substitution matched before after [g] (d :: t2)
                     = get_substitution matched [] [] [Some matched] (d :: t2)).
      { apply IH; [simpl; lia|exact Hc]. }
      destruct (is_digit d).
      * cbv zeta. destruct t2 as [|d2 t3].
        -- rewrite Hrec. reflexivity.
        -- rewrite !capture_text_single. destruct (is_digit d2); rewrite Hrec; reflexivity.
      * rewrite Hrec. reflexivity.
Qed.

Lemma expand_dollar_free (matched v : jsstring) :
  dollar_free v = true -> expand matched v = v.
Proof. apply get_substitution_dollar_free. Qed.

Lemma expand_app (matched x t : jsstring) :
  dollar_free x = true -> expand matched (x ++ t) = x ++ expand matched t.
Proof.
  unfold expand. induction x as [|c x IH]; intros H; [reflexivity|].
  simpl in H. apply andb_prop in H as [Hc Hx].
  change ((c :: x) ++ t) with (c :: x ++ t).
  rewrite get_substitution_unfold, Hc, (IH Hx). reflexivity.
Qed.

Lemma expand_double_dollar (matched x y : jsstring) :
  dollar_free x = true -> dollar_free y = true ->
  expand matched (x ++ [36; 36] ++ y) = x ++ [36] ++ y.
Proof.
  intros Hx Hy. rewrite (expand_app matched x _ Hx). f_equal.
  unfold expand. change ([36; 36] ++ y) with (36 :: 36 :: y).
  rewrite get_substitution_unfold. change (negb (36 =? 36)) with false. cbv iota.
  change (36 =? 36) with true. cbv iota.
  rewrite (get_substitution_dollar_free _ _ _ _ y Hy). reflexivity.
Qed.

Lemma expand_matched (matched x y : jsstring) :
  dollar_free x = true -> dollar_free y = true ->
  expand matched (x ++ [36; 38] ++ y) = x ++ matched ++ y.
Proof.
  intros Hx Hy. rewrite (expand_app matched x _ Hx). f_equal.
  unfold expand. change ([36; 38] ++ y) with (36 :: 38 :: y).
  rewrite get_substitution_unfold. change (negb (36 =? 36)) with false. cbv iota.
  change (38 =? 36) with false. change (38 =? 38) with true. cbv iota.
  rewrite (get_substitution_dollar_free _ _ _ _ y Hy). reflexivity.
Qed.

Lemma take_starts_with (w s : jsstring) :
  starts_with w s = true -> take (length w) s = w.
Proof.
  revert s. induction w as [|a w IH]; intros [|b s] H; try discriminate; try reflexivity.
  simpl in H. apply andb_prop in H as [H1 H2]. apply N.eqb_eq in H1. subst b.
  simpl. rewrite (IH s H2). reflexivity.
Qed.

(** On a non-empty literal and a replacement without [$`] and [$'],
    [replace] is the replacement of every occurrence by the expansion. *)
Lemma replace_go_literal_expand (a : N) (w repl : jsstring) :
  context_free repl = true ->
  forall (s : jsstring) (skip : nat) (done : jsstring) (p : nat) (pv : option N),
    replace_go no_flags (lit (a :: w)) 0 repl skip done p pv s
    = Some (replace_literal (a :: w) (expand (a :: w) repl) skip s).
Proof.
  intros Hc. induction s as [|c t IH]; intros skip done p pv;
    rewrite replace_go_unfold; destruct skip as [|k].
  - rewrite match_at_lit. reflexivity.
  - reflexivity.
  - rewrite match_at_lit.
    change (replace_literal (a :: w) (expand (a :: w) repl) 0 (c :: t))
      with (if starts_with (a :: w) (c :: t)
            then expand (a :: w) repl
                 ++ replace_literal (a :: w) (expand (a :: w) repl) (length (a :: w) - 1) t
            else c :: replace_literal (a :: w) (expand (a :: w) repl) 0 t).
    destruct (starts_with (a :: w) (c :: t)) eqn:E.
    + cbv zeta. change (m_end (mkMatch p (p + length (a :: w)) ?g))
        with (p + length (a :: w))%nat.
      change (m_groups (mkMatch ?i ?e ?g)) with g.
      replace (p + length (a :: w) - p)%nat with (length (a :: w)) by lia.
      rewrite (get_substitution_context_free _ _ _ _ (length repl) repl (le_n _) Hc).
      rewrite (take_starts_with _ _ E).
      change (Nat.eqb (length (a :: w)) 0) with false. cbv iota.
      rewrite IH. reflexivity.
    + rewrite IH. reflexivity.
  - apply IH.
Qed.

Section Expansions.

Variable data : gmap jsstring json.

Lemma substitute_chunks_expand (cs : list chunk) (param : jsstring) :
  well_formed cs = true -> plain_name param = true ->
  ordinary data param = true ->
  context_free (value_of data param) = true ->
  substitute data (flatten cs) param
  = Returns (flatten (List.map (fill_one param (expanded_value data param)) cs)).
Proof.
  intros Hw Hp Ho Hc. rewrite (substitute_ordinary data _ _ Ho). unfold expanded_value.
  rewrite placeholderRegex_nonempty. unfold replace_all.
  rewrite replace_go_literal_expand by exact Hc.
  rewrite <- placeholder_units, replace_literal_chunks by assumption. reflexivity.
Qed.

Lemma fill_expanded_cons (param : jsstring) (params : list jsstring) (c : chunk) :
  fill_expanded data params (fill_one param (expanded_value data param) c)
  = fill_expanded data (param :: params) c.
Proof.
  destruct c as [t|n]; [reflexivity|]. simpl.
  destruct (str_eqb n param) eqn:E; [|reflexivity].
  apply str_eqb_eq in E. subst n. reflexivity.
Qed.

Lemma fill_expanded_nil (cs : list chunk) : List.map (fill_expanded data []) cs = cs.
Proof. induction cs as [|[t|n] cs IH]; simpl; rewrite ?IH; reflexivity. Qed.

Lemma substitute_all_chunks_expand (params : list jsstring) :
  forall cs : list chunk,
    well_formed cs = true -> forallb plain_name params = true ->
    forallb (ordinary data) params = true ->
    fit_expansions data params = true ->
    substitute_all data (flatten cs) params
    = Returns (flatten (List.map (fill_expanded data params) cs)).
Proof.
  induction params as [|param params IH]; intros cs Hw Hp Ho Hf.
  - simpl. rewrite fill_expanded_nil. reflexivity.
  - simpl in Hp, Ho, Hf. apply andb_prop in Hp as [Hp Hps].
    apply andb_prop in Ho as [Ho Hos].
    apply andb_prop in Hf as [Hv Hf]. apply andb_prop in Hv as [Hc Hi].
    change (substitute_all data (flatten cs) (param :: params))
      with (prompt' ← substitute data (flatten cs) param;
            substitute_all data prompt' params).
    rewrite substitute_chunks_expand by assumption.
    change (substitute_all data
              (flatten (List.map (fill_one param (expanded_value data param)) cs)) params
            = Returns (flatten (List.map (fill_expanded data (param :: params)) cs))).
    rewrite IH; [|apply well_formed_fill_one; assumption|exact Hps|exact Hos|exact Hf].
    rewrite List.map_map. f_equal. f_equal. apply List.map_ext. intros c.
    apply fill_expanded_cons.
Qed.

End Expansions.

(** X11. What preparePrompt inserts for a declared parameter is
    not its value but the expansion of the value as a replacement text.
    For a template made of inert text and placeholders, declared names that
    are plain and that the data define or no object inherits, and values
    without [$`] and [$'] whose expansions are inert, the prompt is the
    template with every declared placeholder filled by the expansion of its
    value: a value without dollar signs is inserted as it is, and a value
    with a doubled dollar sign loses one of the two. *)
Theorem preparePrompt_expands_dollar_patterns :
  forall (w : world) (name : jsstring) (t : PromptTemplate) (data : gmap jsstring json)
         (cs : list chunk),
    templatesLoaded w = true -> templates w !! name = Some t ->
    forallb plain_name (parameters t) = true ->
    forallb (ordinary data) (parameters t) = true ->
    template t = flatten cs -> well_formed cs = true ->
    fit_expansions data (parameters t) = true ->
    preparePrompt name data w
    = (Returns (flatten (List.map (fill_expanded data (parameters t)) cs)), w)
    /\ (forall p, dollar_free (value_of data p) = true ->
                  expanded_value data p = value_of data p)
    /\ (forall p x y,
          value_of data p = x ++ js "$$" ++ y ->
          dollar_free x = true -> dollar_free y = true ->
          expanded_value data p = x ++ js "$" ++ y).
Proof.
  intros w name t data cs Hl Ht Hp Ho Hcs Hw Hf. split; [|split].
  - rewrite (preparePrompt_loaded w name t data Hl Ht).
    unfold render. rewrite Hcs, substitute_all_chunks_expand by assumption. reflexivity.
  - intros p Hd. apply expand_dollar_free, Hd.
  - intros p x y Hv Hx Hy. unfold expanded_value. rewrite Hv.
    apply (expand_double_dollar _ x y Hx Hy).
Qed.

Lemma preparePrompt_expands_dollar_patterns_witness :
  preparePrompt (js "practical_application") price_data price_world
  = (Returns (flatten (List.map (fill_expanded price_data (parameters price_template))
                                price_chunks)), price_world)
  /\ (forall p, dollar_free (value_of price_data p) = true ->
                expanded_value price_data p = value_of price_data p)
  /\ (forall p x y,
        value_of price_data p = x ++ js "$$" ++ y ->
        dollar_free x = true -> dollar_free y = true ->
        expanded_value price_data p = x ++ js "$" ++ y).
Proof.
  apply (preparePrompt_expands_dollar_patterns price_world (js "practical_application")
           price_template price_data price_chunks).
  - reflexivity.
  - vm_compute. reflexivity.
  - vm_compute. reflexivity.
  - vm_compute. reflexivity.
  - vm_compute. reflexivity.
  - vm_compute. reflexivity.
  - vm_compute. reflexivity.
Defined.

(** The price loses a dollar sign. *)
Example price_prompt :
  preparePrompt (js "practical_application") price_data price_world
  = (Returns (js "Price: US$5."), price_world).
Proof. vm_compute. reflexivity. Qed.

(** ** Writing to the template store *)

Lemma ensure_loaded_loaded (w w1 : world) :
  ensure_loaded w = (Returns tt, w1) -> templatesLoaded w1 = true.
Proof.
  unfold ensure_loaded, Store.loadTemplates, Store.loadTemplates_body.
  destruct (templatesLoaded w) eqn:E; [intros H; injection H as <-; exact E|].
  destruct (Store.redis_get_templates w) as [[cached|]| |]; try discriminate.
  - intros H. injection H as <-. reflexivity.
  - destruct (Store.load_files Store.templateFiles w) as [[[]| |] w2]; try discriminate.
    destruct (redis_up w2); [|discriminate]. intros H. injection H as <-. reflexivity.
Qed.

Lemma getTemplate_loaded (w : world) (name : jsstring) :
  templatesLoaded w = true -> Store.getTemplate name w = (Returns (templates w !! name), w).
Proof. intros H. unfold Store.getTemplate. rewrite H. reflexivity. Qed.

Section StoreFacts.

Variable writable : jsstring -> bool.

Lemma store_template_true (name : jsstring) (t : PromptTemplate) (w w' : world) :
  store_template writable name t w = (Returns true, w') ->
  templates w' = <[name := t]> (templates w)
  /\ files w' = <[name ++ js ".json" := WellFormed t]> (files w)
  /\ redis_up w' = true
  /\ redis_templates w' = Some (templates w', None)
  /\ templatesLoaded w' = templatesLoaded w
  /\ clock w' = clock w.
Proof.
  unfold store_template, writeFile, redis_set_templates.
  destruct (writable (name ++ js ".json")); [|discriminate]. simpl.
  destruct (redis_up w) eqn:E; [|discriminate].
  intros H. injection H as <-. simpl. repeat split; auto.
Qed.

Lemma ensure_loaded_returns (w w1 : world) (u : unit) :
  ensure_loaded w = (Returns u, w1) -> templatesLoaded w1 = true.
Proof. destruct u. apply ensure_loaded_loaded. Qed.

(** X12. After a createTemplate or an updateTemplate that returned
    true, getTemplate returns the template that was written, its file holds
    it, and the copy in Redis is the map of the service; the copy has no
    lifetime. *)
Theorem stored_template_is_served :
  forall (name : jsstring) (t : PromptTemplate) (w w' : world),
    createTemplate writable name t w = (Returns true, w')
    \/ updateTemplate writable name t w = (Returns true, w') ->
    Store.getTemplate name w' = (Returns (Some t), w')
    /\ files w' !! (name ++ js ".json") = Some (WellFormed t)
    /\ redis_templates w' = Some (templates w', None).
Proof.
  intros name t w w' H.
  assert (Hs : exists w1, templatesLoaded w1 = true
                          /\ store_template writable name t w1 = (Returns true, w')).
  { destruct H as [H|H]; [unfold createTemplate in H|unfold updateTemplate in H];
      destruct (ensure_loaded w) as [[u| |] w1] eqn:E; try discriminate;
      apply ensure_loaded_returns in E;
      destruct (templates w1 !! name); try discriminate; eauto. }
  destruct Hs as (w1 & Hl & Hs).
  apply store_template_true in Hs as (Ht & Hf & _ & Hr & Hl' & _).
  split; [|split].
  - rewrite getTemplate_loaded by congruence. rewrite Ht, lookup_insert_eq. reflexivity.
  - rewrite Hf. apply lookup_insert_eq.
  - exact Hr.
Qed.

(** X13. When Redis does not answer, createTemplate on a loaded
    store returns false although the file is written and the map updated:
    the template is served from then on, and a second createTemplate returns
    false because the template exists. *)
Theorem refused_by_redis_yet_applied :
  forall (name : jsstring) (t : PromptTemplate) (w : world),
    templatesLoaded w = true -> redis_up w = false ->
    writable (name ++ js ".json") = true ->
    templates w !! name = None ->
    exists w',
      createTemplate writable name t w = (Returns false, w')
      /\ Store.getTemplate name w' = (Returns (Some t), w')
      /\ files w' !! (name ++ js ".json") = Some (WellFormed t)
      /\ redis_templates w' = redis_templates w
      /\ createTemplate writable name t w' = (Returns false, w').
Proof.
  intros name t w Hl Hr Hw Hn.
  set (w' := Store.set_templates
               (set_files w (<[name ++ js ".json" := WellFormed t]> (files w)))
               (<[name := t]> (templates w))).
  assert (Hl' : templatesLoaded w' = true) by exact Hl.
  assert (Ht : templates w' !! name = Some t) by apply lookup_insert_eq.
  exists w'. split; [|split; [|split; [|split]]].
  - unfold createTemplate, ensure_loaded, store_template, writeFile, redis_set_templates.
    rewrite Hl, Hn, Hw.
    change (redis_up (Store.set_templates ?a ?b)) with (redis_up w). rewrite Hr.
    reflexivity.
  - rewrite getTemplate_loaded by exact Hl'. rewrite Ht. reflexivity.
  - apply lookup_insert_eq.
  - reflexivity.
  - unfold createTemplate, ensure_loaded. rewrite Hl', Ht. reflexivity.
Qed.

End StoreFacts.

Lemma stored_template_is_served_witness :
  Store.getTemplate (js "custom")
    (snd (createTemplate always (js "custom") custom_template loaded_world))
  = (Returns (Some custom_template),
     snd (createTemplate always (js "custom") custom_template loaded_world))
  /\ files (snd (createTemplate always (js "custom") custom_template loaded_world))
       !! (js "custom" ++ js ".json") = Some (WellFormed custom_template)
  /\ redis_templates (snd (createTemplate always (js "custom") custom_template loaded_world))
     = Some (templates (snd (createTemplate always (js "custom") custom_template
                               loaded_world)),
             None).
Proof.
  apply (stored_template_is_served always (js "custom") custom_template loaded_world).
  left. vm_compute. reflexivity.
Defined.

Lemma refused_by_redis_yet_applied_witness :
  exists w',
    createTemplate always (js "custom") custom_template offline_world = (Returns false, w')
    /\ Store.getTemplate (js "custom") w' = (Returns (Some custom_template), w')
    /\ files w' !! (js "custom" ++ js ".json") = Some (WellFormed custom_template)
    /\ redis_templates w' = redis_templates offline_world
    /\ createTemplate always (js "custom") custom_template w' = (Returns false, w').
Proof.
  apply (refused_by_redis_yet_applied always (js "custom") custom_template offline_world).
  - reflexivity.
  - reflexivity.
  - reflexivity.
  - vm_compute. reflexivity.
Defined.

Lemma load_files_frame (names : list jsstring) :
  forall (w w1 : world) (o : outcome unit),
    Store.load_files names w = (o, w1) ->
    files w1 = files w /\ redis_up w1 = redis_up w /\ redis_templates w1 = redis_templates w
    /\ clock w1 = clock w /\ templatesLoaded w1 = templatesLoaded w
    /\ forall name, ~ In name names -> templates w1 !! name = templates w !! name.
Proof.
  induction names as [|n names IH]; intros w w1 o H; simpl in H.
  - injection H as <- <-. repeat split; auto.
  - destruct (Store.read_template w n) as [t|e|];
      [|injection H as <- <-; repeat split; auto..].
    apply IH in H as (Hf & Hu & Hr & Hc & Hl & Ht). simpl in *.
    repeat split; auto. intros name Hn. rewrite Ht by tauto. simpl.
    apply lookup_insert_ne. intros <-. tauto.
Qed.

Lemma load_files_present (names : list jsstring) :
  forall w : world,
    (forall n, In n names -> exists t, files w !! (n ++ js ".json") = Some (WellFormed t)) ->
    exists w1,
      Store.load_files names w = (Returns tt, w1)
      /\ forall n t, In n names -> files w !! (n ++ js ".json") = Some (WellFormed t) ->
                     templates w1 !! n = Some t.
Proof.
  induction names as [|n names IH]; intros w Hall.
  - exists w. split; [reflexivity|]. intros n t [].
  - destruct (Hall n (or_introl eq_refl)) as [t Ht].
    simpl. unfold Store.read_template at 1. rewrite Ht.
    destruct (IH (Store.set_templates w (<[n := t]> (templates w)))) as (w1 & Hload & Hget).
    { intros m Hm. apply Hall. right. exact Hm. }
    exists w1. split; [exact Hload|].
    intros m tm [<-|Hm] Hfile.
    + destruct (in_dec (fun a b : jsstring => decide (a = b)) n names) as [Hin|Hnot].
      * apply Hget; assumption.
      * apply load_files_frame in Hload as (_ & _ & _ & _ & _ & Hkeep).
        rewrite Hkeep by exact Hnot. simpl. rewrite lookup_insert_eq. congruence.
    + apply Hget; assumption.
Qed.

(** X14. With nothing loaded, no copy in Redis and the files of
    all the templates of the list in place, getTemplate of a template of the
    list returns what its file holds, marks the store loaded and leaves in
    Redis a copy of the map, without a lifetime. *)
Theorem cold_load_serves_the_files :
  forall w : world,
    cold w ->
    (forall n, In n Store.templateFiles ->
               exists t, files w !! (n ++ js ".json") = Some (WellFormed t)) ->
    forall (name : jsstring) (t : PromptTemplate),
      In name Store.templateFiles ->
      files w !! (name ++ js ".json") = Some (WellFormed t) ->
      exists w',
        Store.getTemplate name w = (Returns (Some t), w')
        /\ templatesLoaded w' = true
        /\ redis_templates w' = Some (templates w', None)
        /\ files w' = files w.
Proof.
  intros w (Hl & Hup & Hr) Hall name t Hin Hfile.
  destruct (load_files_present Store.templateFiles w Hall) as (w1 & Hload & Hget).
  pose proof (load_files_frame _ _ _ _ Hload) as (Hf & Hu & _ & Hc & _ & _).
  unfold Store.getTemplate, Store.loadTemplates, Store.loadTemplates_body,
    Store.redis_get_templates.
  rewrite Hl, Hup, Hr, Hload, Hu, Hup.
  eexists. split; [|split; [|split]].
  - simpl. rewrite (Hget name t Hin Hfile). reflexivity.
  - reflexivity.
  - reflexivity.
  - exact Hf.
Qed.

Lemma cold_load_serves_the_files_witness :
  exists w',
    Store.getTemplate (js "thesis_generation") all_present_world
    = (Returns (Some (plain_template (js "thesis_generation"))), w')
    /\ templatesLoaded w' = true
    /\ redis_templates w' = Some (templates w', None)
    /\ files w' = files all_present_world.
Proof.
  apply (cold_load_serves_the_files all_present_world).
  - repeat split.
  - intros n Hn.
    repeat (destruct Hn as [<-|Hn]; [eexists; vm_compute; reflexivity|]). destruct Hn.
  - unfold Store.templateFiles. do 3 right. left. reflexivity.
  - vm_compute. reflexivity.
Defined.

(** A copy without a lifetime is there for a new instance, whenever it
    starts. *)
Lemma redis_get_kept (w : world) (entry : gmap jsstring PromptTemplate) (elapsed : Z) :
  redis_up w = true ->
  redis_templates w = Some (entry, None) ->
  Store.redis_get_templates (restart (later elapsed w)) = Returns (Some entry).
Proof.
  intros Hu Hr. unfold Store.redis_get_templates.
  change (redis_up (restart (later elapsed w))) with (redis_up w).
  change (redis_templates (restart (later elapsed w))) with (redis_templates w).
  rewrite Hu, Hr. reflexivity.
Qed.

(** The three ways a lookup in a store that is not loaded can go. *)
Lemma getTemplate_from_redis (w : world) (cached : gmap jsstring PromptTemplate)
    (name : jsstring) :
  templatesLoaded w = false ->
  Store.redis_get_templates w = Returns (Some cached) ->
  Store.getTemplate name w
  = (Returns ((cached ∪ templates w) !! name),
     Store.set_loaded (Store.set_templates w (cached ∪ templates w))).
Proof.
  intros Hl Hr. unfold Store.getTemplate, Store.loadTemplates, Store.loadTemplates_body.
  rewrite Hl, Hr. reflexivity.
Qed.

Lemma getTemplate_from_files (w : world) (name : jsstring) :
  templatesLoaded w = false ->
  Store.redis_get_templates w = Returns None ->
  Store.getTemplate name w
  = match Store.load_files Store.templateFiles w with
    | (Returns _, w1) =>
        if redis_up w1 then
          (Returns (templates w1 !! name),
           Store.set_loaded (Store.set_redis_templates w1 (Some (templates w1, None))))
        else (Throws (Failed "Failed to load prompt templates"
                        (ErrorMsg "Redis connection error")), w1)
    | (Throws e, w1) => (Throws (Failed "Failed to load prompt templates" e), w1)
    | (NoResult, w1) => (NoResult, w1)
    end.
Proof.
  intros Hl Hr. unfold Store.getTemplate, Store.loadTemplates, Store.loadTemplates_body.
  rewrite Hl, Hr.
  destruct (Store.load_files Store.templateFiles w) as [[u|e|] w1]; try reflexivity.
  destruct (redis_up w1); reflexivity.
Qed.

Lemma getTemplate_redis_down (w : world) (e : error) (name : jsstring) :
  templatesLoaded w = false ->
  Store.redis_get_templates w = Throws e ->
  Store.getTemplate name w = (Throws (Failed "Failed to load prompt templates" e), w).
Proof.
  intros Hl Hr. unfold Store.getTemplate, Store.loadTemplates, Store.loadTemplates_body.
  rewrite Hl, Hr. reflexivity.
Qed.

Lemma redis_get_without_copy (w : world) (elapsed : Z) :
  Store.redis_get_templates (restart (later elapsed (without_copy w)))
  = if redis_up w then Returns None else Throws (ErrorMsg "Redis connection error").
Proof. reflexivity. Qed.

Section Restarts.

Variable writable : jsstring -> bool.

(** X15. A template created under a name that is not in the
    list of loadTemplates is on disk, but a new instance of the service
    finds it only through the copy in Redis: with the copy it is found
    however much later the instance starts, and once the copy is gone no
    new instance finds it, although its file is there. *)
Theorem created_template_lost_without_redis_copy :
  forall (name : jsstring) (t : PromptTemplate) (w w' : world) (elapsed : Z),
    createTemplate writable name t w = (Returns true, w') ->
    ~ In name Store.templateFiles ->
    files w' !! (name ++ js ".json") = Some (WellFormed t)
    /\ fst (Store.getTemplate name (restart (later elapsed w'))) = Returns (Some t)
    /\ forall t', fst (Store.getTemplate name (restart (later elapsed (without_copy w'))))
                  <> Returns (Some t').
Proof.
  intros name t w w' elapsed H Hnot.
  unfold createTemplate in H.
  destruct (ensure_loaded w) as [[u| |] w1] eqn:E; try discriminate.
  destruct (templates w1 !! name); [discriminate|].
  apply store_template_true in H as (Ht & Hf & Hup & Hr & _ & _).
  split; [rewrite Hf; apply lookup_insert_eq|]. split.
  - rewrite (getTemplate_from_redis (restart (later elapsed w')) (templates w') name eq_refl
               (redis_get_kept w' _ elapsed Hup Hr)).
    change (templates (restart (later elapsed w'))) with (∅ : gmap jsstring PromptTemplate).
    cbn [fst]. rewrite map_union_empty, Ht, lookup_insert_eq. reflexivity.
  - intros t'.
    rewrite (getTemplate_from_files (restart (later elapsed (without_copy w'))) name eq_refl);
      [|rewrite (redis_get_without_copy w' elapsed), Hup; reflexivity].
    destruct (Store.load_files Store.templateFiles (restart (later elapsed (without_copy w'))))
      as [[[]|e|] w1'] eqn:El; [|discriminate..].
    apply load_files_frame in El as (_ & Hu & _ & _ & _ & Hkeep).
    destruct (redis_up w1'); [|discriminate]. cbn [fst]. rewrite (Hkeep name Hnot).
    change (templates (restart (later elapsed (without_copy w'))))
      with (∅ : gmap jsstring PromptTemplate).
    rewrite lookup_empty. discriminate.
Qed.

(** X16. After deleteTemplate returned true for a template of the
    list of loadTemplates, the template is gone for the running service and
    for every new instance that loads the copy in Redis, however much later;
    once that copy is gone a new instance fails to load, so that getTemplate
    throws for every name. *)
Theorem deleted_builtin_breaks_cold_load :
  forall (name : jsstring) (w w' : world) (elapsed : Z),
    deleteTemplate writable name w = (Returns true, w') ->
    In name Store.templateFiles ->
    Store.getTemplate name w' = (Returns None, w')
    /\ fst (Store.getTemplate name (restart (later elapsed w'))) = Returns None
    /\ forall other : jsstring,
         exists (e : error) (w'' : world),
           Store.getTemplate other (restart (later elapsed (without_copy w')))
           = (Throws (Failed "Failed to load prompt templates" e), w'').
Proof.
  intros name w w' elapsed H Hin.
  unfold deleteTemplate in H.
  destruct (ensure_loaded w) as [[u| |] w1] eqn:E; try discriminate.
  apply ensure_loaded_returns in E.
  destruct (templates w1 !! name); [|discriminate].
  unfold unlink, redis_set_templates in H.
  destruct (files w1 !! (name ++ js ".json")) eqn:Ef; [|discriminate].
  destruct (writable (name ++ js ".json")); [|discriminate]. simpl in H.
  destruct (redis_up w1) eqn:Eu; [|discriminate].
  injection H as <-. split; [|split].
  - rewrite getTemplate_loaded by exact E. simpl. rewrite lookup_delete_eq. reflexivity.
  - match goal with
    | |- context [restart (later elapsed ?v)] => set (w' := v)
    end.
    rewrite (getTemplate_from_redis (restart (later elapsed w')) (delete name (templates w1))
               name eq_refl (redis_get_kept w' _ elapsed Eu eq_refl)).
    change (templates (restart (later elapsed w'))) with (∅ : gmap jsstring PromptTemplate).
    cbn [fst]. rewrite map_union_empty, lookup_delete_eq. reflexivity.
  - intros other.
    match goal with
    | |- context [restart (later elapsed (without_copy ?v))] => set (w' := v)
    end.
    rewrite (getTemplate_from_files (restart (later elapsed (without_copy w'))) other eq_refl);
      [|rewrite (redis_get_without_copy w' elapsed);
        change (redis_up w') with (redis_up w1); rewrite Eu; reflexivity].
    destruct (load_files_broken Store.templateFiles (restart (later elapsed (without_copy w')))
                name Hin) as (e & w'' & Hload & _).
    { left. apply lookup_delete_eq. }
    rewrite Hload. exists e, w''. reflexivity.
Qed.

(** X17. When nothing is loaded and Redis does not answer,
    getTemplate, preparePrompt, createTemplate, updateTemplate and
    deleteTemplate all throw with the error of the load and leave the world
    as it was, whatever the files. *)
Theorem unloaded_store_needs_redis :
  forall (w : world) (name : jsstring) (t : PromptTemplate) (data : gmap jsstring json),
    templatesLoaded w = false -> redis_up w = false ->
    Store.getTemplate name w
    = (Throws (Failed "Failed to load prompt templates" (ErrorMsg "Redis connection error")), w)
    /\ preparePrompt name data w
       = (Throws (Failed "Failed to prepare prompt"
                    (Failed "Failed to load prompt templates"
                       (ErrorMsg "Redis connection error"))), w)
    /\ createTemplate writable name t w
       = (Throws (Failed "Failed to load prompt templates"
                    (ErrorMsg "Redis connection error")), w)
    /\ updateTemplate writable name t w
       = (Throws (Failed "Failed to load prompt templates"
                    (ErrorMsg "Redis connection error")), w)
    /\ deleteTemplate writable name w
       = (Throws (Failed "Failed to load prompt templates"
                    (ErrorMsg "Redis connection error")), w).
Proof.
  intros w name t data Hl Hr.
  assert (Hload : Store.loadTemplates w
                  = (Throws (Failed "Failed to load prompt templates"
                               (ErrorMsg "Redis connection error")), w)).
  { unfold Store.loadTemplates, Store.loadTemplates_body, Store.redis_get_templates.
    rewrite Hl, Hr. reflexivity. }
  assert (Hget : Store.getTemplate name w
                 = (Throws (Failed "Failed to load prompt templates"
                              (ErrorMsg "Redis connection error")), w)).
  { unfold Store.getTemplate. rewrite Hl, Hload. reflexivity. }
  split; [exact Hget|]. split; [unfold preparePrompt; rewrite Hget; reflexivity|].
  unfold createTemplate, updateTemplate, deleteTemplate, ensure_loaded.
  rewrite Hl, Hload. repeat split.
Qed.

End Restarts.

Lemma created_template_lost_without_redis_copy_witness :
  files (snd (createTemplate always (js "custom") custom_template loaded_world))
    !! (js "custom" ++ js ".json") = Some (WellFormed custom_template)
  /\ fst (Store.getTemplate (js "custom")
            (restart (later (7200 * 1000)
               (snd (createTemplate always (js "custom") custom_template loaded_world)))))
     = Returns (Some custom_template)
  /\ forall t',
       fst (Store.getTemplate (js "custom")
              (restart (later (7200 * 1000)
                 (without_copy
                    (snd (createTemplate always (js "custom") custom_template
                                         loaded_world))))))
       <> Returns (Some t').
Proof.
  apply (created_template_lost_without_redis_copy always (js "custom") custom_template
           loaded_world).
  - vm_compute. reflexivity.
  - intros H.
    repeat (destruct H as [H|H]; [vm_compute in H; discriminate|]). destruct H.
Defined.

Lemma deleted_builtin_breaks_cold_load_witness :
  Store.getTemplate (js "graph_validation")
    (snd (deleteTemplate always (js "graph_validation") served_world))
  = (Returns None, snd (deleteTemplate always (js "graph_validation") served_world))
  /\ fst (Store.getTemplate (js "graph_validation")
            (restart (later (7200 * 1000)
               (snd (deleteTemplate always (js "graph_validation") served_world)))))
     = Returns None
  /\ forall other : jsstring,
       exists (e : error) (w'' : world),
         Store.getTemplate other
           (restart (later (7200 * 1000)
              (without_copy
                 (snd (deleteTemplate always (js "graph_validation") served_world)))))
         = (Throws (Failed "Failed to load prompt templates" e), w'').
Proof.
  apply (deleted_builtin_breaks_cold_load always (js "graph_validation") served_world).
  - vm_compute. reflexivity.
  - left. reflexivity.
Defined.

Lemma unloaded_store_needs_redis_witness :
  Store.getTemplate (js "graph_validation") dark_world
  = (Throws (Failed "Failed to load prompt templates" (ErrorMsg "Redis connection error")),
     dark_world)
  /\ preparePrompt (js "graph_validation") sample_data dark_world
     = (Throws (Failed "Failed to prepare prompt"
                  (Failed "Failed to load prompt templates"
                     (ErrorMsg "Redis connection error"))), dark_world)
  /\ createTemplate always (js "graph_validation") custom_template dark_world
     = (Throws (Failed "Failed to load prompt templates"
                  (ErrorMsg "Redis connection error")), dark_world)
  /\ updateTemplate always (js "graph_validation") custom_template dark_world
     = (Throws (Failed "Failed to load prompt templates"
                  (ErrorMsg "Redis connection error")), dark_world)
  /\ deleteTemplate always (js "graph_validation") dark_world
     = (Throws (Failed "Failed to load prompt templates"
                  (ErrorMsg "Redis connection error")), dark_world).
Proof.
  apply (unloaded_store_needs_redis always dark_world (js "graph_validation") custom_template
           sample_data); reflexivity.
Defined.

(** ** The gateway: what a call changes *)

Section GatewayFrame.

Variable sha256_hex : jsstring -> jsstring.
Variable claude : list ClaudeApiRequest -> ClaudeApiRequest -> option ClaudeApiResponse * Z.
Variable model : jsstring.

Lemma sendRequest_miss (a : SendArgs) (w : world) :
  (if useCaching a then checkCache (generatePromptHash sha256_hex (prompt a)) w else None)
  = None ->
  exists req,
    api_calls (snd (sendRequest sha256_hex claude model a w)) = api_calls w ++ [req]
    /\ req = mkRequest model (prompt a) (maxTokens a) (temperature a)
                       (system_of (systemPrompt a)).
Proof.
  intros Hm. unfold sendRequest. rewrite Hm. unfold post.
  destruct (claude (api_calls w) _) as [[reply|] el]; eexists; split; try reflexivity.
  unfold logInteraction, cacheResponse. simpl.
  destruct (useCaching a), (redis_up w), (db_up w); reflexivity.
Qed.

(** X18. What sendRequest cached is served for good: after a call
    that missed the cache and stored its result, a call with the same
    prompt and caching enabled is answered with that result however much
    later it comes; nothing is sent to the model and the world is left as
    it was. The hour that cacheResponse asks for is never set. *)
Theorem cached_answer_never_expires :
  forall (a b : SendArgs) (w w1 : world) (r1 : ApiResult) (elapsed : Z),
    prompt b = prompt a ->
    useCaching a = true -> useCaching b = true ->
    redis_up w = true ->
    checkCache (generatePromptHash sha256_hex (prompt a)) w = None ->
    sendRequest sha256_hex claude model a w = (Returns r1, w1) ->
    sendRequest sha256_hex claude model b (later elapsed w1) = (Returns r1, later elapsed w1).
Proof.
  intros a b w w1 r1 elapsed Hp Ha Hb Hup Hmiss Hcall.
  destruct (sendRequest_miss_populates sha256_hex claude model a w w1 r1 Ha Hup Hmiss Hcall)
    as [Hup1 Hentry].
  apply (sendRequest_hit sha256_hex claude model b (later elapsed w1) r1 None Hb Hup1);
    [|reflexivity].
  rewrite (cache_key_of_prompt sha256_hex b a Hp). exact Hentry.
Qed.

(** X19. What sendRequest can change. It never touches the files
    nor the template store. Either it is served a live entry of the cache
    and changes nothing, or it sends exactly one request, with the prompt,
    the limits and the system prompt of the call; when it then throws,
    nothing is logged and the cache is as before; when it returns, one
    record with the prompt, the response and the tokens is logged if the
    database answers, and the result is cached, without a lifetime, if
    caching is enabled and Redis answers. *)
Theorem sendRequest_frame :
  forall (a : SendArgs) (w : world),
    let o := fst (sendRequest sha256_hex claude model a w) in
    let w' := snd (sendRequest sha256_hex claude model a w) in
    files w' = files w /\ templates w' = templates w
    /\ templatesLoaded w' = templatesLoaded w /\ redis_templates w' = redis_templates w
    /\ ((exists r expires,
           w' = w /\ o = Returns r /\ useCaching a = true
           /\ redis_responses w !! cache_key sha256_hex a = Some (r, expires)
           /\ live (clock w) expires = true)
        \/ (api_calls w'
            = api_calls w
              ++ [mkRequest model (prompt a) (maxTokens a) (temperature a)
                            (system_of (systemPrompt a))]
            /\ ((exists e,
                   o = Throws e /\ interactions w' = interactions w
                   /\ redis_responses w' = redis_responses w)
                \/ (exists r,
                      o = Returns r
                      /\ interactions w'
                         = (if db_up w
                            then interactions w
                                 ++ [mkInteraction (userId a) (conceptId a) (interactionType a)
                                                   (prompt a) (response r) (tokensUsed r)
                                                   (clock w' - clock w)]
                            else interactions w)
                      /\ redis_responses w'
                         = (if useCaching a && redis_up w
                            then <[cache_key sha256_hex a := (r, None)]> (redis_responses w)
                            else redis_responses w))))).
Proof.
  intros a w o w'. subst o w'. unfold sendRequest.
  destruct (if useCaching a then checkCache _ w else None) as [cached|] eqn:Ec.
  - simpl. repeat split. left.
    destruct (useCaching a) eqn:Eu; [|discriminate].
    unfold checkCache in Ec. destruct (redis_up w); [|discriminate].
    destruct (redis_responses w !! _) as [[r expires]|] eqn:Er; [|discriminate].
    destruct (live (clock w) expires) eqn:El; [|discriminate].
    injection Ec as <-. exists r, expires. repeat split; auto.
  - unfold post. destruct (claude (api_calls w) _) as [[reply|] el].
    + unfold logInteraction, cacheResponse, cache_key, generatePromptHash.
      destruct (useCaching a), (redis_up w) eqn:Eu, (db_up w) eqn:Ed; simpl;
        rewrite ?Eu, ?Ed; simpl; repeat split; right; (split; [reflexivity|]); right;
        eexists; repeat split.
    + simpl. repeat split. right. split; [reflexivity|]. left. eexists. repeat split.
Qed.

(** X20. With caching disabled or with Redis down, sendRequest
    behaves as the same call without caching: the model is asked and the
    cache is left as it was. *)
Theorem no_cache_means_model_call :
  forall (a : SendArgs) (w : world),
    useCaching a = false \/ redis_up w = false ->
    sendRequest sha256_hex claude model a w
    = sendRequest sha256_hex claude model (without_caching a) w
    /\ redis_responses (snd (sendRequest sha256_hex claude model a w)) = redis_responses w
    /\ api_calls (snd (sendRequest sha256_hex claude model a w))
       = api_calls w
         ++ [mkRequest model (prompt a) (maxTokens a) (temperature a)
                       (system_of (systemPrompt a))].
Proof.
  intros a w H. unfold sendRequest, without_caching, checkCache, cacheResponse, post.
  simpl. destruct (claude (api_calls w) _) as [[reply|] el];
    destruct H as [H|H]; rewrite H; simpl; try rewrite H;
    try (destruct (useCaching a)); unfold logInteraction; simpl;
    destruct (db_up w); simpl; repeat split.
Qed.

(** X21. Whether the database answers changes neither the result
    of sendRequest, nor the cache, nor the requests sent; when it does not
    answer the log is left as it was. *)
Theorem log_failure_is_harmless :
  forall (a : SendArgs) (w : world) (up : bool),
    fst (sendRequest sha256_hex claude model a (with_db up w))
    = fst (sendRequest sha256_hex claude model a w)
    /\ redis_responses (snd (sendRequest sha256_hex claude model a (with_db up w)))
       = redis_responses (snd (sendRequest sha256_hex claude model a w))
    /\ api_calls (snd (sendRequest sha256_hex claude model a (with_db up w)))
       = api_calls (snd (sendRequest sha256_hex claude model a w))
    /\ interactions (snd (sendRequest sha256_hex claude model a (with_db false w)))
       = interactions w.
Proof.
  intros a w up. unfold sendRequest, with_db, checkCache, cacheResponse, post, logInteraction.
  simpl. destruct (useCaching a), (redis_up w); simpl;
    try (destruct (redis_responses w !! _) as [[r ex]|]; [destruct (live (clock w) ex)|]);
    simpl; try (repeat split; fail);
    destruct (claude (api_calls w) _) as [[reply|] el]; simpl;
    destruct up, (db_up w); simpl; repeat split.
Qed.

End GatewayFrame.

Lemma cached_answer_never_expires_witness :
  sendRequest sample_digest sample_claude (js "claude-3-opus-20240229")
    (sample_args 4000 (7 # 10))
    (later (7200 * 1000)
       (snd (sendRequest sample_digest sample_claude (js "claude-3-opus-20240229")
                         (sample_args 4000 (7 # 10)) sample_world)))
  = (Returns (mkResult (js "answer") 30),
     later (7200 * 1000)
       (snd (sendRequest sample_digest sample_claude (js "claude-3-opus-20240229")
                         (sample_args 4000 (7 # 10)) sample_world))).
Proof.
  apply (cached_answer_never_expires sample_digest sample_claude
           (js "claude-3-opus-20240229")
           (sample_args 4000 (7 # 10)) (sample_args 4000 (7 # 10)) sample_world).
  - reflexivity.
  - reflexivity.
  - reflexivity.
  - reflexivity.
  - vm_compute. reflexivity.
  - vm_compute. reflexivity.
Defined.

Lemma no_cache_means_model_call_witness :
  sendRequest sample_digest sample_claude (js "claude-3-opus-20240229")
              (sample_args 4000 (7 # 10)) offline_world
  = sendRequest sample_digest sample_claude (js "claude-3-opus-20240229")
                (without_caching (sample_args 4000 (7 # 10))) offline_world
  /\ redis_responses
       (snd (sendRequest sample_digest sample_claude (js "claude-3-opus-20240229")
                         (sample_args 4000 (7 # 10)) offline_world))
     = redis_responses offline_world
  /\ api_calls
       (snd (sendRequest sample_digest sample_claude (js "claude-3-opus-20240229")
                         (sample_args 4000 (7 # 10)) offline_world))
     = api_calls offline_world
       ++ [mkRequest (js "claude-3-opus-20240229") (prompt (sample_args 4000 (7 # 10)))
                     (maxTokens (sample_args 4000 (7 # 10)))
                     (temperature (sample_args 4000 (7 # 10)))
                     (system_of (systemPrompt (sample_args 4000 (7 # 10))))].
Proof.
  apply (no_cache_means_model_call sample_digest sample_claude (js "claude-3-opus-20240229")
           (sample_args 4000 (7 # 10)) offline_world).
  right. reflexivity.
Defined.

(** ** What the cache holds *)

Section CacheSound.

Variable sha256_hex : jsstring -> jsstring.
Variable claude : list ClaudeApiRequest -> ClaudeApiRequest -> option ClaudeApiResponse * Z.
Variable model : jsstring.

Lemma answered_later (w w' : world) (request : ClaudeApiRequest)
    (asked : jsstring -> Prop) (r : ApiResult) :
  api_calls w' = api_calls w ++ [request] ->
  answered claude w asked r -> answered claude w' asked r.
Proof.
  intros Hc (i & rq & reply & el & Hi & Hp & Hr & ->).
  exists i, rq, reply, el. rewrite Hc.
  assert (Hlt : (i < length (api_calls w))%nat) by (apply lookup_lt_is_Some; eauto).
  split; [rewrite lookup_app_l by exact Hlt; exact Hi|]. split; [exact Hp|].
  split; [|reflexivity]. rewrite take_app_le by lia. exact Hr.
Qed.

Lemma answered_now (w w' : world) (request : ClaudeApiRequest) (reply : ClaudeApiResponse)
    (elapsed : Z) (asked : jsstring -> Prop) :
  api_calls w' = api_calls w ++ [request] ->
  claude (api_calls w) request = (Some reply, elapsed) ->
  asked (req_content request) ->
  answered claude w' asked
           (mkResult (message_content reply) (input_tokens reply + output_tokens reply)).
Proof.
  intros Hc Hr Ha. exists (length (api_calls w)), request, reply, elapsed. rewrite Hc.
  split; [apply list_lookup_middle; reflexivity|]. split; [exact Ha|].
  split; [|reflexivity]. rewrite take_app_length. exact Hr.
Qed.

Lemma cache_sound_calls (w w' : world) (request : ClaudeApiRequest) :
  api_calls w' = api_calls w ++ [request] -> redis_responses w' = redis_responses w ->
  cache_sound sha256_hex claude w -> cache_sound sha256_hex claude w'.
Proof.
  intros Hc Hr Hs p r expires He. rewrite Hr in He.
  exact (answered_later w w' request _ r Hc (Hs p r expires He)).
Qed.

(** Where no prompt of the history collides with the given one, an answer
    to a prompt with its digest is an answer to the prompt itself. *)
Lemma answered_no_collision (w : world) (prompt : jsstring) (r : ApiResult) :
  no_collision sha256_hex w prompt ->
  answered claude w (same_digest sha256_hex prompt) r ->
  answered claude w (fun other => other = prompt) r.
Proof.
  intros Hn (i & rq & reply & el & Hi & Hp & Hr & ->).
  exists i, rq, reply, el. repeat split; auto.
  apply Hn; [|exact Hp]. apply list_elem_of_In. eapply list_elem_of_lookup_2. exact Hi.
Qed.

(** X22. Every answer comes from the model. If under the key of
    a prompt the cache holds nothing but answers of the model to prompts
    with the digest of that prompt, then it is so after sendRequest as well,
    and whatever sendRequest returns is what the model answered to a request
    for a prompt with the digest of the prompt of the call: the request just
    sent, or an earlier one, whose limits and system prompt may have been
    others. Where no request so far was for another prompt with that digest,
    it is an answer to the very prompt of the call. *)
Theorem sendRequest_answers_come_from_the_model :
  forall (a : SendArgs) (w : world),
    cache_sound sha256_hex claude w ->
    cache_sound sha256_hex claude (snd (sendRequest sha256_hex claude model a w))
    /\ forall r,
         fst (sendRequest sha256_hex claude model a w) = Returns r ->
         answered claude (snd (sendRequest sha256_hex claude model a w))
                  (same_digest sha256_hex (prompt a)) r
         /\ (no_collision sha256_hex (snd (sendRequest sha256_hex claude model a w))
                          (prompt a) ->
             answered claude (snd (sendRequest sha256_hex claude model a w))
                      (fun other => other = prompt a) r).
Proof.
  intros a w Hs.
  assert (Hmain :
    cache_sound sha256_hex claude (snd (sendRequest sha256_hex claude model a w))
    /\ forall r,
         fst (sendRequest sha256_hex claude model a w) = Returns r ->
         answered claude (snd (sendRequest sha256_hex claude model a w))
                  (same_digest sha256_hex (prompt a)) r).
  2:{ destruct Hmain as [H1 H2]. split; [exact H1|]. intros r Hr.
      split; [exact (H2 r Hr)|]. intros Hn.
      exact (answered_no_collision _ _ r Hn (H2 r Hr)). }
  unfold sendRequest.
  destruct (if useCaching a then checkCache _ w else None) as [cached|] eqn:Ec.
  - cbn [fst snd]. split; [exact Hs|]. intros r Hr. injection Hr as <-.
    destruct (useCaching a); [|discriminate]. unfold checkCache in Ec.
    destruct (redis_up w); [|discriminate].
    destruct (redis_responses w !! _) as [[r expires]|] eqn:Er; [|discriminate].
    destruct (live (clock w) expires); [|discriminate]. injection Ec as <-.
    exact (Hs (prompt a) r expires Er).
  - unfold post. destruct (claude (api_calls w) _) as [[reply|] el] eqn:Eclaude.
    + set (request := mkRequest model (prompt a) (maxTokens a) (temperature a)
                                (system_of (systemPrompt a))) in *.
      set (result := mkResult (message_content reply)
                              (input_tokens reply + output_tokens reply)).
      set (w1 := mkWorld (clock w + el)%Z (redis_up w) (redis_responses w)
                         (redis_templates w) (files w) (db_up w) (interactions w)
                         (api_calls w ++ [request]) (templates w) (templatesLoaded w)).
      assert (Hnow : forall w' p, api_calls w' = api_calls w ++ [request] ->
                                  sha256_hex (prompt a) = sha256_hex p ->
                                  answered claude w' (same_digest sha256_hex p) result).
      { intros w' p Hc Hd. exact (answered_now w w' request reply el _ Hc Eclaude Hd). }
      assert (Hcalls : forall v, api_calls (logInteraction v
                (if useCaching a
                 then cacheResponse (generatePromptHash sha256_hex (prompt a)) result 3600 w1
                 else w1)) = api_calls w ++ [request]).
      { intros v. unfold logInteraction, cacheResponse.
        destruct (useCaching a), (redis_up w) eqn:Eu; cbn [redis_up w1 db_up];
          rewrite ?Eu; cbn [db_up]; destruct (db_up w); reflexivity. }
      cbn [fst snd]. split.
      * intros p r expires He.
        assert (Hcases : redis_responses w !! (js "claude:" ++ sha256_hex p)
                         = Some (r, expires)
                         \/ (sha256_hex (prompt a) = sha256_hex p /\ r = result)).
        { revert He. unfold logInteraction, cacheResponse.
          destruct (useCaching a), (redis_up w) eqn:Eu; cbn [redis_up w1 db_up];
            rewrite ?Eu; cbn [db_up]; destruct (db_up w); cbn [redis_responses];
            auto; unfold generatePromptHash;
            (destruct (decide (sha256_hex (prompt a) = sha256_hex p)) as [Heq|Hne];
             [rewrite Heq, lookup_insert_eq; intros H; injection H as <- _; right; auto
             |rewrite lookup_insert_ne by (intros H; apply app_inv_head in H; auto); auto]). }
        destruct Hcases as [Hold|[Hd ->]].
        -- eapply answered_later; [apply Hcalls|exact (Hs p r expires Hold)].
        -- apply Hnow; [apply Hcalls|exact Hd].
      * intros r Hr. injection Hr as <-. apply Hnow; [apply Hcalls|reflexivity].
    + cbn [fst snd]. split; [|discriminate].
      eapply cache_sound_calls; [| |exact Hs]; reflexivity.
Qed.

End CacheSound.

(** The cache of the sample world is empty. *)
Lemma cache_sound_sample : cache_sound short_digest sample_claude sample_world.
Proof.
  intros p r expires H.
  change (redis_responses sample_world) with (∅ : gmap jsstring (ApiResult * option Z)) in H.
  rewrite lookup_empty in H. discriminate.
Qed.

Lemma sendRequest_answers_come_from_the_model_witness :
  let w1 := snd (sendRequest short_digest sample_claude (js "claude-3-opus-20240229")
                             (sample_args 4000 (7 # 10)) sample_world) in
  let second := sendRequest short_digest sample_claude (js "claude-3-opus-20240229")
                            (sample_args 8000 (8 # 10)) w1 in
  cache_sound short_digest sample_claude w1
  /\ cache_sound short_digest sample_claude (snd second)
  /\ fst second = Returns (mkResult (js "answer") 30)
  /\ answered sample_claude (snd second)
               (same_digest short_digest (prompt (sample_args 8000 (8 # 10))))
               (mkResult (js "answer") 30)
  /\ answered sample_claude (snd second)
               (fun other => other = prompt (sample_args 8000 (8 # 10)))
               (mkResult (js "answer") 30).
Proof.
  intros w1 second.
  pose proof (sendRequest_answers_come_from_the_model short_digest sample_claude
                (js "claude-3-opus-20240229") (sample_args 4000 (7 # 10)) sample_world
                cache_sound_sample) as [Hfirst _].
  pose proof (sendRequest_answers_come_from_the_model short_digest sample_claude
                (js "claude-3-opus-20240229") (sample_args 8000 (8 # 10)) w1 Hfirst)
    as [Hsound Hanswer].
  assert (Hreturns : fst second = Returns (mkResult (js "answer") 30))
    by (vm_compute; reflexivity).
  destruct (Hanswer _ Hreturns) as [Hdigest Hprompt].
  split; [exact Hfirst|]. split; [exact Hsound|]. split; [exact Hreturns|].
  split; [exact Hdigest|]. apply Hprompt.
  intros request Hin _. vm_compute in Hin. destruct Hin as [<-|[]]. reflexivity.
Defined.

(** ** The operations that return the text of the response *)

Section OperationFacts.

Variable sha256_hex : jsstring -> jsstring.
Variable claude : list ClaudeApiRequest -> ClaudeApiRequest -> option ClaudeApiResponse * Z.
Variable model : jsstring.

Lemma sendRequest_keeps_store (a : SendArgs) (w : world) :
  templates (snd (sendRequest sha256_hex claude model a w)) = templates w
  /\ templatesLoaded (snd (sendRequest sha256_hex claude model a w)) = templatesLoaded w.
Proof.
  unfold sendRequest.
  destruct (if useCaching a then checkCache _ w else None); [split; reflexivity|].
  unfold post. destruct (claude (api_calls w) _) as [[reply|] el]; [|split; reflexivity].
  unfold logInteraction, cacheResponse.
  destruct (useCaching a), (redis_up w) eqn:Eu, (db_up w) eqn:Ed; cbn [db_up snd];
    rewrite ?Ed; split; reflexivity.
Qed.

Lemma preparePrompt_missing (w : world) (name : jsstring) (data : gmap jsstring json) :
  templatesLoaded w = true -> templates w !! name = None ->
  preparePrompt name data w
  = (Throws (Failed "Failed to prepare prompt" (ErrorMsg "Template not found")), w).
Proof.
  intros Hl Ht. unfold preparePrompt, Store.getTemplate. rewrite Hl, Ht. reflexivity.
Qed.

Lemma ask_missing (w : world) (name : jsstring) (data : gmap jsstring json)
    (userId : jsstring) (conceptId : option jsstring) (kind : jsstring)
    (maxTokens : N) (temperature : Q) :
  templatesLoaded w = true -> templates w !! name = None ->
  ask sha256_hex claude model name data userId conceptId kind maxTokens temperature w
  = (Throws (Failed "Failed to prepare prompt" (ErrorMsg "Template not found")), w).
Proof.
  intros Hl Ht. unfold ask. rewrite (preparePrompt_missing w name data Hl Ht). reflexivity.
Qed.

(** X23. On a loaded store that lacks the template of the
    operation, historicalContextualize, practicalApplication,
    dialogicalInterpretation and conceptEvolution throw their own error
    wrapping the one of preparePrompt, and leave the world as it was:
    nothing is sent to the model. *)
Theorem text_operations_need_their_template :
  forall (w : world) (userId : jsstring) (concept other : Concept)
         (conceptGraph : ConceptGraph) (theses : list Thesis) (question : jsstring),
    templatesLoaded w = true ->
    (templates w !! js "historical_contextualization" = None ->
     historicalContextualize sha256_hex claude model userId concept conceptGraph w
     = (Throws (Failed "Failed to historically contextualize concept"
                  (Failed "Failed to prepare prompt" (ErrorMsg "Template not found"))), w))
    /\ (templates w !! js "practical_application" = None ->
        practicalApplication sha256_hex claude model userId concept theses w
        = (Throws (Failed "Failed to suggest practical applications"
                     (Failed "Failed to prepare prompt" (ErrorMsg "Template not found"))), w))
    /\ (templates w !! js "dialogical_interpretation" = None ->
        dialogicalInterpretation sha256_hex claude model userId concept other question w
        = (Throws (Failed "Failed to create dialogical interpretation"
                     (Failed "Failed to prepare prompt" (ErrorMsg "Template not found"))), w))
    /\ (templates w !! js "concept_evolution" = None ->
        conceptEvolution sha256_hex claude model userId concept conceptGraph w
        = (Throws (Failed "Failed to suggest concept evolution"
                     (Failed "Failed to prepare prompt" (ErrorMsg "Template not found"))), w)).
Proof.
  intros w userId concept other conceptGraph theses question Hl.
  split; [|split; [|split]]; intros Ht;
    unfold historicalContextualize, practicalApplication, dialogicalInterpretation,
      conceptEvolution, as_text;
    rewrite (ask_missing w _ _ _ _ _ _ _ Hl Ht); reflexivity.
Qed.

Lemma ask_returns (w w1 : world) (name : jsstring) (data : gmap jsstring json)
    (userId : jsstring) (conceptId : option jsstring) (kind : jsstring)
    (maxTokens : N) (temperature : Q) (r : ApiResult) :
  templatesLoaded w = true ->
  ask sha256_hex claude model name data userId conceptId kind maxTokens temperature w
  = (Returns r, w1) ->
  exists prompt,
    preparePrompt name data w = (Returns prompt, w)
    /\ sendRequest sha256_hex claude model
         (mkArgs userId conceptId kind prompt maxTokens temperature true None) w
       = (Returns r, w1).
Proof.
  intros Hl H. unfold ask in H.
  assert (Hw : snd (preparePrompt name data w) = w).
  { unfold preparePrompt, Store.getTemplate. rewrite Hl. reflexivity. }
  destruct (preparePrompt name data w) as [[prompt|e|] w0]; try discriminate.
  simpl in Hw. subst w0. exists prompt. split; [reflexivity|exact H].
Qed.

Lemma preparePrompt_later (w : world) (name : jsstring) (data : gmap jsstring json)
    (prompt : jsstring) (w1 : world) (elapsed : Z) :
  templatesLoaded w = true ->
  templates w1 = templates w -> templatesLoaded w1 = true ->
  preparePrompt name data w = (Returns prompt, w) ->
  preparePrompt name data (later elapsed w1) = (Returns prompt, later elapsed w1).
Proof.
  intros Hl Ht Hl1 H. unfold preparePrompt in *.
  rewrite (getTemplate_loaded w name Hl) in H.
  rewrite (getTemplate_loaded (later elapsed w1) name Hl1).
  change (templates (later elapsed w1)) with (templates w1). rewrite Ht.
  destruct (try_catch _ _) as [p|e|]; try discriminate.
  injection H as ->. reflexivity.
Qed.

(** X24. After a dialogicalInterpretation that
    started from an empty cache and returned, having sent one request, the
    same question about the same two concepts asked by any user less than
    an hour later gets the same answer from the cache: nothing is sent and
    nothing is logged for that user. *)
Theorem dialogicalInterpretation_shared_across_users :
  forall (first second : jsstring) (concept1 concept2 : Concept) (question : jsstring)
         (w w1 : world) (answer : TextResult) (elapsed : Z),
    templatesLoaded w = true -> redis_up w = true -> redis_responses w = ∅ ->
    dialogicalInterpretation sha256_hex claude model first concept1 concept2 question w
    = (Returns answer, w1) ->
    (0 <= elapsed < 3600 * 1000)%Z ->
    dialogicalInterpretation sha256_hex claude model second concept1 concept2 question
                             (later elapsed w1)
    = (Returns answer, later elapsed w1)
    /\ length (api_calls w1) = S (length (api_calls w)).
Proof.
  intros first second concept1 concept2 question w w1 answer elapsed Hl Hup Hempty H He.
  unfold dialogicalInterpretation, as_text in *.
  match type of H with
  | context [ask _ _ _ ?n ?d first ?c ?k ?m ?t w] =>
      set (name := n) in *; set (data := d) in *
  end.
  destruct (ask sha256_hex claude model name data first None name 6000 (8 # 10) w)
    as [[r|e|] w0] eqn:Eask; try discriminate.
  cbn [fst snd] in H. cbv beta iota delta [mbind outcome_bind try_catch] in H.
  injection H as <- ->.
  apply ask_returns in Eask as (prompt & Hprep & Hsend); [|exact Hl].
  pose proof (sendRequest_keeps_store
                (mkArgs first None name prompt 6000 (8 # 10) true None) w) as [Ht Hl1].
  rewrite Hsend in Ht, Hl1. cbn [snd] in Ht, Hl1.
  destruct (sendRequest_miss_populates sha256_hex claude model
              (mkArgs first None name prompt 6000 (8 # 10) true None) w w1 r eq_refl Hup
              ltac:(unfold checkCache; rewrite Hup, Hempty, lookup_empty; reflexivity) Hsend)
    as [Hup1 Hentry].
  split.
  - unfold ask.
    rewrite (preparePrompt_later w name data prompt w1 elapsed Hl Ht
               ltac:(rewrite Hl1; exact Hl) Hprep).
    rewrite (sendRequest_hit sha256_hex claude model
               (mkArgs second None name prompt 6000 (8 # 10) true None)
               (later elapsed w1) r None eq_refl Hup1 Hentry eq_refl).
    reflexivity.
  - destruct (sendRequest_miss sha256_hex claude model
                (mkArgs first None name prompt 6000 (8 # 10) true None) w) as (req & Hreq & _).
    { cbn [useCaching]. unfold checkCache. rewrite Hup, Hempty, lookup_empty. reflexivity. }
    rewrite Hsend in Hreq. cbn [snd] in Hreq. rewrite Hreq, length_app, Nat.add_1_r.
    reflexivity.
Qed.

End OperationFacts.

Lemma text_operations_need_their_template_witness :
  (templates loaded_world !! js "historical_contextualization" = None ->
   historicalContextualize sample_digest sample_claude (js "claude-3-opus-20240229")
     (js "u1") (sample_concept (js "Flux")) sample_graph loaded_world
   = (Throws (Failed "Failed to historically contextualize concept"
                (Failed "Failed to prepare prompt" (ErrorMsg "Template not found"))),
      loaded_world))
  /\ (templates loaded_world !! js "practical_application" = None ->
      practicalApplication sample_digest sample_claude (js "claude-3-opus-20240229")
        (js "u1") (sample_concept (js "Flux")) [] loaded_world
      = (Throws (Failed "Failed to suggest practical applications"
                   (Failed "Failed to prepare prompt" (ErrorMsg "Template not found"))),
         loaded_world))
  /\ (templates loaded_world !! js "dialogical_interpretation" = None ->
      dialogicalInterpretation sample_digest sample_claude (js "claude-3-opus-20240229")
        (js "u1") (sample_concept (js "Flux")) (sample_concept (js "Being")) (js "Why?")
        loaded_world
      = (Throws (Failed "Failed to create dialogical interpretation"
                   (Failed "Failed to prepare prompt" (ErrorMsg "Template not found"))),
         loaded_world))
  /\ (templates loaded_world !! js "concept_evolution" = None ->
      conceptEvolution sample_digest sample_claude (js "claude-3-opus-20240229")
        (js "u1") (sample_concept (js "Flux")) sample_graph loaded_world
      = (Throws (Failed "Failed to suggest concept evolution"
                   (Failed "Failed to prepare prompt" (ErrorMsg "Template not found"))),
         loaded_world)).
Proof.
  apply (text_operations_need_their_template sample_digest sample_claude
           (js "claude-3-opus-20240229") loaded_world (js "u1") (sample_concept (js "Flux"))
           (sample_concept (js "Being")) sample_graph [] (js "Why?")).
  reflexivity.
Defined.

Lemma dialogicalInterpretation_shared_across_users_witness :
  dialogicalInterpretation sample_digest sample_claude (js "claude-3-opus-20240229")
    (js "u2") (sample_concept (js "Flux")) (sample_concept (js "Being")) (js "Why?")
    (later 5000
       (snd (dialogicalInterpretation sample_digest sample_claude
               (js "claude-3-opus-20240229") (js "u1") (sample_concept (js "Flux"))
               (sample_concept (js "Being")) (js "Why?") dialogue_world)))
  = (Returns (mkText (js "answer")),
     later 5000
       (snd (dialogicalInterpretation sample_digest sample_claude
               (js "claude-3-opus-20240229") (js "u1") (sample_concept (js "Flux"))
               (sample_concept (js "Being")) (js "Why?") dialogue_world)))
  /\ length (api_calls
               (snd (dialogicalInterpretation sample_digest sample_claude
                       (js "claude-3-opus-20240229") (js "u1") (sample_concept (js "Flux"))
                       (sample_concept (js "Being")) (js "Why?") dialogue_world)))
     = S (length (api_calls dialogue_world)).
Proof.
  apply (dialogicalInterpretation_shared_across_users sample_digest sample_claude
           (js "claude-3-opus-20240229") (js "u1") (js "u2")
           (sample_concept (js "Flux")) (sample_concept (js "Being")) (js "Why?")
           dialogue_world).
  - reflexivity.
  - reflexivity.
  - reflexivity.
  - vm_compute. reflexivity.
  - lia.
Defined.

(** ** The cached request of the utilities *)

Lemma colon_split (s1 s1' s2 s2' : jsstring) :
  includes s1 [58] = false -> includes s1' [58] = false ->
  s1 ++ 58 :: s2 = s1' ++ 58 :: s2' -> s1 = s1' /\ s2 = s2'.
Proof.
  revert s1'. induction s1 as [|a s1 IH]; intros [|a' s1'] H1 H2 H.
  - injection H as <-. auto.
  - injection H as <- _. apply includes_unit_cons in H2 as [H2 _]. congruence.
  - injection H as -> _. apply includes_unit_cons in H1 as [H1 _]. congruence.
  - injection H as <- H. apply includes_unit_cons in H1 as [_ H1].
    apply includes_unit_cons in H2 as [_ H2].
    destruct (IH s1' H1 H2 H) as [-> ->]. auto.
Qed.

Section UtilFacts.

Variable sha256_hex : jsstring -> jsstring.
Variable claude : list ClaudeApiRequest -> ClaudeApiRequest -> option ClaudeApiResponse * Z.
Variable model : jsstring.
Variable number_to_string : Q -> jsstring.

(** X25. The key of sendCachedClaudeRequest tells the limits
    apart: for a printing of numbers that never prints a colon, two calls
    with the same prompt have the same key exactly when their maxTokens
    print alike and their temperatures print alike. *)
Theorem cached_request_key_separates_limits :
  (forall q, includes (number_to_string q) (js ":") = false) ->
  forall (prompt : jsstring) (m m' : N) (t t' : Q),
    cacheKey sha256_hex number_to_string prompt m t
    = cacheKey sha256_hex number_to_string prompt m' t'
    <-> number_to_string (inject_Z (Z.of_N m)) = number_to_string (inject_Z (Z.of_N m'))
        /\ number_to_string t = number_to_string t'.
Proof.
  intros Hc prompt m m' t t'. unfold cacheKey. split.
  - intros H. apply app_inv_head in H. apply app_inv_head in H. apply app_inv_head in H.
    change (js ":") with [58] in *. simpl app in H.
    apply colon_split in H; [exact H|apply Hc|apply Hc].
  - intros [-> ->]. reflexivity.
Qed.

(** X26. sendCachedClaudeRequest never writes to the interaction
    log. When Redis does not answer it throws without asking the model;
    otherwise it is served a live entry and changes nothing, or sends one
    request; it then throws exactly when the model gives no answer, and
    when it returns it has cached the result under its key, without a
    lifetime, whatever the cacheExpiry. *)
Theorem cached_request_frame :
  forall (prompt : jsstring) (maxTokens : N) (temperature : Q) (cacheExpiry : Z)
         (userId : jsstring) (w : world),
    let o := fst (sendCachedClaudeRequest sha256_hex claude model number_to_string
                    prompt maxTokens temperature cacheExpiry userId w) in
    let w' := snd (sendCachedClaudeRequest sha256_hex claude model number_to_string
                     prompt maxTokens temperature cacheExpiry userId w) in
    interactions w' = interactions w
    /\ (if redis_up w then
          (exists r, o = Returns r /\ w' = w)
          \/ (api_calls w' = api_calls w ++ [mkRequest model prompt maxTokens temperature None]
              /\ ((exists e,
                     o = Throws e /\ redis_responses w' = redis_responses w
                     /\ fst (claude (api_calls w)
                                    (mkRequest model prompt maxTokens temperature None))
                        = None)
                  \/ (exists r,
                        o = Returns r
                        /\ redis_responses w'
                           = <[cacheKey sha256_hex number_to_string prompt maxTokens temperature
                               := (r, None)]>
                               (redis_responses w))))
        else
          w' = w
          /\ o = Throws (Failed "Failed to get response from Claude API"
                           (ErrorMsg "Redis connection error"))).
Proof.
  intros prompt maxTokens temperature cacheExpiry userId w o w'. subst o w'.
  unfold sendCachedClaudeRequest.
  destruct (redis_up w) eqn:Eu; [|split; [reflexivity|split; reflexivity]].
  destruct (match redis_responses w !! _ with Some _ => _ | None => None end) as [cached|].
  - split; [reflexivity|]. left. exists cached. split; reflexivity.
  - unfold post. destruct (claude (api_calls w) _) as [[reply|] el].
    + unfold redis_set_response. cbn [redis_up]. rewrite Eu. cbn [fst snd].
      split; [reflexivity|]. right. split; [reflexivity|]. right.
      eexists. split; reflexivity.
    + split; [reflexivity|]. right. split; [reflexivity|]. left. eexists.
      split; [reflexivity|]. split; reflexivity.
Qed.

End UtilFacts.

Lemma cached_request_key_separates_limits_witness :
  cacheKey sample_digest sample_number_to_string (js "Validate this graph") 4000 (7 # 10)
  = cacheKey sample_digest sample_number_to_string (js "Validate this graph") 8000 (7 # 10)
  <-> sample_number_to_string (inject_Z (Z.of_N 4000))
      = sample_number_to_string (inject_Z (Z.of_N 8000))
      /\ sample_number_to_string (7 # 10) = sample_number_to_string (7 # 10).
Proof.
  apply (cached_request_key_separates_limits sample_digest sample_number_to_string).
  intros q. unfold sample_number_to_string. destruct (Qle_bool 1 q); vm_compute; reflexivity.
Defined.

(** ** Pagination *)

Lemma slice_chunk {A : Type} (items : list A) (i limit : nat) :
  slice items (Z.of_nat (i * limit)) (Z.of_nat (S i * limit))
  = take limit (drop (i * limit) items).
Proof.
  unfold slice.
  destruct (Z.ltb_spec (Z.of_nat (i * limit)) 0); [lia|].
  destruct (Z.ltb_spec (Z.of_nat (S i * limit)) 0); [lia|].
  destruct (Nat.le_gt_cases (length items) (i * limit)) as [Hle|Hgt].
  - rewrite !Z.min_r by lia. rewrite Z.sub_diag, (drop_ge items (i * limit)) by lia.
    rewrite take_nil. reflexivity.
  - rewrite (Z.min_l (Z.of_nat (i * limit))) by lia. rewrite Nat2Z.id.
    destruct (Nat.le_gt_cases (length items) (S i * limit)) as [Hle'|Hgt'].
    + rewrite Z.min_r by lia.
      rewrite !take_ge; [reflexivity| |]; rewrite length_drop; lia.
    + rewrite Z.min_l by lia. f_equal. lia.
Qed.

Lemma chunks_take {A : Type} (items : list A) (limit : nat) :
  forall n : nat,
    concat (List.map (fun i => take limit (drop (i * limit) items)) (List.seq 0 n))
    = take (n * limit) items.
Proof.
  induction n as [|n IH]; [reflexivity|].
  rewrite seq_S, List.map_app, concat_app, IH. cbn [List.map concat Nat.add].
  rewrite app_nil_r, take_take_drop. f_equal. lia.
Qed.

Lemma ceil_ratio_pos (total : nat) (limit : Z) :
  (1 <= limit)%Z ->
  exists n : nat,
    ceil_ratio total limit = Num (Z.of_nat n)
    /\ (Z.of_nat total <= Z.of_nat n * limit)%Z
    /\ (Z.of_nat n * limit < Z.of_nat total + limit)%Z.
Proof.
  intros Hl. unfold ceil_ratio.
  destruct (Z.eqb_spec limit 0); [lia|]. destruct (Z.ltb_spec 0 limit); [|lia].
  pose proof (Z.div_mod (Z.of_nat total + limit - 1) limit ltac:(lia)) as Hd.
  pose proof (Z.mod_pos_bound (Z.of_nat total + limit - 1) limit ltac:(lia)) as Hm.
  assert (Hq : (0 <= (Z.of_nat total + limit - 1) / limit)%Z)
    by (apply Z.div_pos; lia).
  exists (Z.to_nat ((Z.of_nat total + limit - 1) / limit)).
  rewrite Z2Nat.id by exact Hq. split; [reflexivity|]. split; nia.
Qed.

(** X27. For a limit of at least one, the pages 1 to [pages] of
    paginate, in order, make up the list. *)
Theorem paginate_pages_cover_items :
  forall (A : Type) (items : list A) (limit : Z),
    (1 <= limit)%Z ->
    exists n : nat,
      pg_pages (snd (paginate items 1 limit)) = Num (Z.of_nat n)
      /\ concat (List.map (fun p => fst (paginate items (Z.of_nat p) limit)) (List.seq 1 n))
         = items.
Proof.
  intros A items limit Hl.
  destruct (ceil_ratio_pos (length items) limit Hl) as (n & Hn & Hlo & Hhi).
  exists n. split; [exact Hn|].
  rewrite <- seq_shift, List.map_map.
  rewrite (List.map_ext _ (fun i => take (Z.to_nat limit) (drop (i * Z.to_nat limit) items))).
  - rewrite chunks_take. apply take_ge. nia.
  - intros i. unfold paginate. cbn [fst].
    replace ((Z.of_nat (S i) - 1) * limit)%Z with (Z.of_nat (i * Z.to_nat limit)) by nia.
    replace (Z.of_nat (S i) * limit)%Z with (Z.of_nat (S i * Z.to_nat limit)) by nia.
    apply slice_chunk.
Qed.

Lemma paginate_pages_cover_items_witness :
  exists n : nat,
    pg_pages (snd (paginate [1; 2; 3; 4; 5]%nat 1 2)) = Num (Z.of_nat n)
    /\ concat (List.map (fun p => fst (paginate [1; 2; 3; 4; 5]%nat (Z.of_nat p) 2))
                        (List.seq 1 n))
       = [1; 2; 3; 4; 5]%nat.
Proof. apply (paginate_pages_cover_items nat [1; 2; 3; 4; 5]%nat 2). lia. Defined.

(** X28. For an array (fewer than 2^32 items) and a page and a
    limit of at least one whose product is below 2^53, where the numbers of
    the code are exact: a page holds at most [limit] items, it is empty
    exactly when it lies beyond the last page, [previous] is set exactly on
    the pages after the first and [next] exactly on the pages before the
    last. *)
Theorem paginate_links :
  forall (A : Type) (items : list A) (page limit : Z),
    (1 <= page)%Z -> (1 <= limit)%Z ->
    (page * limit < 2 ^ 53)%Z -> (Z.of_nat (length items) < 2 ^ 32)%Z ->
    exists n : nat,
      pg_pages (snd (paginate items page limit)) = Num (Z.of_nat n)
      /\ (Z.of_nat (length (fst (paginate items page limit))) <= limit)%Z
      /\ (fst (paginate items page limit) = [] <-> (Z.of_nat n < page)%Z)
      /\ pg_previous (snd (paginate items page limit))
         = (if (1 <? page)%Z then Some (page - 1)%Z else None)
      /\ pg_next (snd (paginate items page limit))
         = (if (page <? Z.of_nat n)%Z then Some (page + 1)%Z else None).
Proof.
  intros A items page limit Hp Hl _ _.
  destruct (ceil_ratio_pos (length items) limit Hl) as (n & Hn & Hlo & Hhi).
  exists n. split; [exact Hn|].
  assert (Hdata : fst (paginate items page limit)
                  = take (Z.to_nat limit) (drop (Z.to_nat (page - 1) * Z.to_nat limit) items)).
  { unfold paginate. cbn [fst].
    replace ((page - 1) * limit)%Z
      with (Z.of_nat (Z.to_nat (page - 1) * Z.to_nat limit)) by nia.
    replace (page * limit)%Z
      with (Z.of_nat (S (Z.to_nat (page - 1)) * Z.to_nat limit)) by nia.
    apply slice_chunk. }
  rewrite Hdata. unfold paginate. cbn [snd pg_previous pg_next].
  split; [|split; [|split]].
  - rewrite length_take. lia.
  - split.
    + intros H. apply (f_equal (@length A)) in H.
      rewrite length_take, length_drop in H. simpl in H. nia.
    + intros H. rewrite drop_ge by nia. apply take_nil.
  - destruct (Z.ltb_spec 0 ((page - 1) * limit)), (Z.ltb_spec 1 page); try reflexivity; nia.
  - destruct (Z.ltb_spec (page * limit) (Z.of_nat (length items))),
      (Z.ltb_spec page (Z.of_nat n)); try reflexivity; nia.
Qed.

Lemma paginate_links_witness :
  exists n : nat,
    pg_pages (snd (paginate [1; 2; 3; 4; 5]%nat 2 2)) = Num (Z.of_nat n)
    /\ (Z.of_nat (length (fst (paginate [1; 2; 3; 4; 5]%nat 2 2))) <= 2)%Z
    /\ (fst (paginate [1; 2; 3; 4; 5]%nat 2 2) = [] <-> (Z.of_nat n < 2)%Z)
    /\ pg_previous (snd (paginate [1; 2; 3; 4; 5]%nat 2 2))
       = (if (1 <? 2)%Z then Some (2 - 1)%Z else None)
    /\ pg_next (snd (paginate [1; 2; 3; 4; 5]%nat 2 2))
       = (if (2 <? Z.of_nat n)%Z then Some (2 + 1)%Z else None).
Proof. apply (paginate_links nat [1; 2; 3; 4; 5]%nat 2 2); simpl; lia. Defined.
